(** * filerewrite: in-place rewrite of regular files

    A shallow embedding of [filerewrite.go] and a verification of the
    properties its specification states about the rewrite engine
    ([rewriteFile]) and the invocation driver ([main]).

    The program talks to the operating system through positioned reads and
    writes.  The kernel is modelled as an explicit [World]: a name space of
    paths, a table of inodes, a table of open descriptors, and a [script]
    that fixes, for every system call in turn, whether it fails, how many
    bytes a transfer may move at most, and what the clock shows.  Quantifying
    over all scripts covers read errors, write errors, short reads, short
    writes and zero-byte writes.  Every system call and every log line is
    appended to a trace, so that claims about the order of operations can be
    stated on it.

    The transfer buffer is stood for by its length: the program reads of it
    only the slice [buf[:rdone]] that the read before has just filled, and
    that slice is what [Pread] returns.  The [for] loop runs on fuel; that
    fuel beyond the size of the file is always enough is part of what is
    proved.  The flag library and [strconv] are not part of the program: the
    structure of [pflag]'s argument parsing is modelled for the three flags
    the program defines, and the reading of integers is left as a parameter
    of the driver. *)

From Stdlib Require Import ZArith Ascii String.
From stdpp Require Import base tactics option list gmap strings.

Open Scope Z_scope.

Abbreviation byte := Byte.byte.

(** ** Machine integers *)

(** Two's-complement wrap-around of a [bits]-wide signed integer. *)
Definition wrap (bits : Z) (z : Z) : Z :=
  (z + 2 ^ (bits - 1)) `mod` 2 ^ bits - 2 ^ (bits - 1).

Definition wrap64 (z : Z) : Z := wrap 64 z.

Definition maxInt64 : Z := 2 ^ 63 - 1.
Definition minInt64 : Z := - 2 ^ 63.

(** ** Package [syscall]: the kernel interface *)

Inductive Errno :=
  | ENOENT | EACCES | ELOOP | EISDIR | EBADF | EINVAL | EIO | ENOSPC
  | EINTR | EMFILE | EPERM.

Record Timespec := mkTimespec { ts_Sec : Z; ts_Nsec : Z }.
Record Timeval := mkTimeval { tv_Sec : Z; tv_Usec : Z }.

(** [func (ts *Timespec) Nano() int64], which is [TimespecToNsec]. *)
Definition TimespecToNsec (ts : Timespec) : Z :=
  wrap64 (wrap64 (ts_Sec ts * 1000000000) + ts_Nsec ts).

(** [NsecToTimeval]: rounds up to the microsecond; [/] and [%] of Go
    truncate toward zero, which is [Z.quot] and [Z.rem]. *)
Definition NsecToTimeval (nsec : Z) : Timeval :=
  let nsec := wrap64 (nsec + 999) in
  let usec := Z.quot (Z.rem nsec 1000000000) 1000 in
  let sec := Z.quot nsec 1000000000 in
  if usec <? 0
  then mkTimeval (wrap64 (sec - 1)) (wrap64 (usec + 1000000))
  else mkTimeval sec usec.

(** The time the kernel stores when it is handed a [Timeval]. *)
Definition timevalToTimespec (tv : Timeval) : Timespec :=
  mkTimespec (tv_Sec tv) (tv_Usec tv * 1000).

(** What [rewriteFile] hands to [Futimes] for a captured time. *)
Definition restoredTime (ts : Timespec) : Timespec :=
  timevalToTimespec (NsecToTimeval (TimespecToNsec ts)).

(** Nanoseconds since the epoch, without wrap-around. *)
Definition nanos (ts : Timespec) : Z := ts_Sec ts * 1000000000 + ts_Nsec ts.

(** File type bits of [st_mode]. *)
Definition S_IFMT : Z := 0xF000.
Definition S_IFREG : Z := 0x8000.
Definition S_IFDIR : Z := 0x4000.
Definition S_IFLNK : Z := 0xA000.
Definition S_IFIFO : Z := 0x1000.

(** [Stat_t]: its layout differs between hosts; what [statTimes] sees of it
    through reflection is the mode and the time fields by name. *)
Record Stat_t := mkStat {
  Mode : Z;
  timeFields : gmap string Timespec
}.

Definition FieldByName (sb : Stat_t) (name : string) : option Timespec :=
  timeFields sb !! name.

Record Inode := mkInode {
  i_mode : Z;
  i_data : list byte;
  i_atime : Timespec;
  i_mtime : Timespec
}.

(** The names under which the host's [Stat_t] carries the two timestamps:
    [Atim]/[Mtim] (Linux and others), [Atimespec]/[Mtimespec] (Darwin and
    others), or names the program does not know. *)
Inductive StatLayout := Atim_Mtim | Atimespec_Mtimespec | OtherNames.

(** The host: width of [int], the largest slice [make] can allocate, and the
    layout of [Stat_t]. *)
Record Platform := mkPlatform {
  intBits : Z;
  maxAlloc : N;
  statLayout : StatLayout
}.

(** What the kernel decides about one system call. *)
Record Response := mkResponse {
  fault : option Errno;     (* the call fails with this error *)
  limit : option Z;         (* a transfer moves at most this many bytes *)
  now : Timespec            (* the clock, for the times a transfer touches *)
}.

(** Arguments of a log line, kept with their format rather than rendered. *)
#[warnings="-register-all"]
Inductive LogArg :=
  | AStr (s : string)
  | AInt (z : Z)
  | AErr (e : Errno)
  | AMsg (format : string) (args : list LogArg).

Inductive Event :=
  | EvOpen (path : string) (res : Errno + Z)
  | EvFstat (fd : Z) (res : option Errno)
  | EvPread (fd : Z) (len : Z) (offset : Z) (res : Errno + Z)
  | EvPwrite (fd : Z) (data : list byte) (offset : Z) (res : Errno + Z)
  | EvFutimes (fd : Z) (atv mtv : Timeval) (res : option Errno)
  | EvClose (fd : Z)
  | EvLog (format : string) (args : list LogArg)
  | EvUsage.

Record World := mkWorld {
  w_platform : Platform;
  w_names : gmap string nat;      (* path -> inode number *)
  w_inodes : gmap nat Inode;
  w_fds : gmap Z nat;             (* open descriptor -> inode number *)
  w_tick : nat;                   (* system calls made so far *)
  w_script : nat -> Response;
  w_trace : list Event;           (* oldest first *)
  verbose : bool                  (* [var verbose bool] *)
}.

Definition emit (ev : Event) (w : World) : World :=
  mkWorld (w_platform w) (w_names w) (w_inodes w) (w_fds w) (w_tick w)
          (w_script w) (w_trace w ++ [ev]) (verbose w).

Definition advance (w : World) : World :=
  mkWorld (w_platform w) (w_names w) (w_inodes w) (w_fds w) (S (w_tick w))
          (w_script w) (w_trace w) (verbose w).

Definition setInodes (m : gmap nat Inode) (w : World) : World :=
  mkWorld (w_platform w) (w_names w) m (w_fds w) (w_tick w)
          (w_script w) (w_trace w) (verbose w).

Definition setFds (m : gmap Z nat) (w : World) : World :=
  mkWorld (w_platform w) (w_names w) (w_inodes w) m (w_tick w)
          (w_script w) (w_trace w) (verbose w).

Definition setVerbose (b : bool) (w : World) : World :=
  mkWorld (w_platform w) (w_names w) (w_inodes w) (w_fds w) (w_tick w)
          (w_script w) (w_trace w) b.

(** The response the script holds for the next system call. *)
Definition response (w : World) : Response := w_script w (w_tick w).

(** The inode behind an open descriptor. *)
Definition fdInode (w : World) (fd : Z) : option (nat * Inode) :=
  match w_fds w !! fd with
  | Some ino =>
      match w_inodes w !! ino with
      | Some i => Some (ino, i)
      | None => None
      end
  | None => None
  end.

(** The inode a path names (the last component is not followed). *)
Definition pathInode (w : World) (path : string) : option (nat * Inode) :=
  match w_names w !! path with
  | Some ino =>
      match w_inodes w !! ino with
      | Some i => Some (ino, i)
      | None => None
      end
  | None => None
  end.

Definition fileType (i : Inode) : Z := Z.land (i_mode i) S_IFMT.

(** Lowest descriptor from [fd] on that is not open. *)
Fixpoint lowestFree (fds : gmap Z nat) (fuel : nat) (fd : Z) : Z :=
  match fuel with
  | O => fd
  | S k =>
      match fds !! fd with
      | Some _ => lowestFree fds k (fd + 1)
      | None => fd
      end
  end.

Definition allocFd (fds : gmap Z nat) : Z := lowestFree fds (size fds) 3.

(** [syscall.Open(path, O_RDWR|O_NOFOLLOW, 0)] *)
Definition Open (path : string) (w : World) : (Errno + Z) * World :=
  let r := response w in
  let w := advance w in
  let res : Errno + Z :=
    match fault r with
    | Some e => inl e
    | None =>
        match pathInode w path with
        | None => inl ENOENT
        | Some (_, i) =>
            if fileType i =? S_IFLNK then inl ELOOP
            else if fileType i =? S_IFDIR then inl EISDIR
            else inr (allocFd (w_fds w))
        end
    end in
  let w :=
    match res, w_names w !! path with
    | inr fd, Some ino => setFds (<[fd := ino]> (w_fds w)) w
    | _, _ => w
    end in
  (res, emit (EvOpen path res) w).

(** [syscall.Fstat(fd, &sb)]: fills the host's [Stat_t]. *)
Definition statOf (p : Platform) (i : Inode) : Stat_t :=
  let '(aname, mname) :=
    match statLayout p with
    | Atim_Mtim => ("Atim", "Mtim")
    | Atimespec_Mtimespec => ("Atimespec", "Mtimespec")
    | OtherNames => ("Atime", "Mtime")
    end%string in
  mkStat (i_mode i) (<[aname := i_atime i]> (<[mname := i_mtime i]> ∅)).

Definition Fstat (fd : Z) (w : World) : (Errno + Stat_t) * World :=
  let r := response w in
  let w := advance w in
  let res : Errno + Stat_t :=
    match fault r with
    | Some e => inl e
    | None =>
        match fdInode w fd with
        | None => inl EBADF
        | Some (_, i) => inr (statOf (w_platform w) i)
        end
    end in
  (res, emit (EvFstat fd (match res with inl e => Some e | inr _ => None end)) w).

(** [data] after [bs] was stored at byte [off]; a hole before [off] reads as
    zeros. *)
Definition splice (data : list byte) (off : nat) (bs : list byte) : list byte :=
  take off data ++ replicate (off - length data)%nat Byte.x00 ++ bs
    ++ drop (off + length bs)%nat data.

Definition setAtime (t : Timespec) (i : Inode) : Inode :=
  mkInode (i_mode i) (i_data i) t (i_mtime i).

Definition setMtime (t : Timespec) (i : Inode) : Inode :=
  mkInode (i_mode i) (i_data i) (i_atime i) t.

Definition setData (d : list byte) (i : Inode) : Inode :=
  mkInode (i_mode i) d (i_atime i) (i_mtime i).

(** How many bytes a read moves: what the buffer holds and the file has left,
    cut down to the script's limit but not below one byte. *)
Definition readCount (lim : option Z) (len left : Z) : Z :=
  let want := Z.min len left in
  match lim with
  | Some k => Z.min (Z.max 1 k) want
  | None => want
  end.

(** How many bytes a write moves: all of them, or as many as the script
    allows, which may be none. *)
Definition writeCount (lim : option Z) (all : Z) : Z :=
  match lim with
  | Some k => Z.min (Z.max 0 k) all
  | None => all
  end.

(** [syscall.Pread(fd, buf, offset)] for a buffer of [len] bytes.  The result
    is the slice [buf[:n]] that the call filled, [n] being its length: at
    least one byte unless nothing is left at [offset] or the buffer is empty,
    at most what the script allows. *)
Definition Pread (fd : Z) (len : Z) (offset : Z) (w : World)
  : (Errno + list byte) * World :=
  let r := response w in
  let w := advance w in
  let '(res, w) :=
    match fault r with
    | Some e => (inl e, w)
    | None =>
        match fdInode w fd with
        | None => (inl EBADF, w)
        | Some (ino, i) =>
            if offset <? 0 then (inl EINVAL, w)
            else
              let rest := drop (Z.to_nat offset) (i_data i) in
              let n := readCount (limit r) len (Z.of_nat (length rest)) in
              let got := take (Z.to_nat n) rest in
              let w := match got with
                       | [] => w
                       | _ => setInodes (<[ino := setAtime (now r) i]> (w_inodes w)) w
                       end in
              (inr got, w)
        end
    end in
  (res, emit (EvPread fd len offset
                (match res with
                 | inl e => inl e
                 | inr got => inr (Z.of_nat (length got))
                 end)) w).

(** [syscall.Pwrite(fd, data, offset)]: the count written, which the script
    may cut short, down to zero. *)
Definition Pwrite (fd : Z) (data : list byte) (offset : Z) (w : World)
  : (Errno + Z) * World :=
  let r := response w in
  let w := advance w in
  let '(res, w) :=
    match fault r with
    | Some e => (inl e, w)
    | None =>
        match fdInode w fd with
        | None => (inl EBADF, w)
        | Some (ino, i) =>
            if offset <? 0 then (inl EINVAL, w)
            else
              let n := writeCount (limit r) (Z.of_nat (length data)) in
              let put := take (Z.to_nat n) data in
              let w := match put with
                       | [] => w
                       | _ =>
                           setInodes
                             (<[ino := setMtime (now r)
                                         (setData (splice (i_data i) (Z.to_nat offset) put) i)]>
                                (w_inodes w)) w
                       end in
              (inr n, w)
        end
    end in
  (res, emit (EvPwrite fd data offset res) w).

(** [syscall.Futimes(fd, tv)] with [tv] of length two. *)
Definition Futimes (fd : Z) (atv mtv : Timeval) (w : World)
  : option Errno * World :=
  let r := response w in
  let w := advance w in
  let '(res, w) :=
    match fault r with
    | Some e => (Some e, w)
    | None =>
        match fdInode w fd with
        | None => (Some EBADF, w)
        | Some (ino, i) =>
            (None,
             setInodes
               (<[ino := setMtime (timevalToTimespec mtv)
                           (setAtime (timevalToTimespec atv) i)]> (w_inodes w)) w)
        end
    end in
  (res, emit (EvFutimes fd atv mtv res) w).

(** [syscall.Close(fd)]; the program ignores its result. *)
Definition Close (fd : Z) (w : World) : World :=
  let w := advance w in
  emit (EvClose fd) (setFds (delete fd (w_fds w)) w).

(** ** The program: logging *)

Definition logWarning (format : string) (args : list LogArg) (w : World) : World :=
  emit (EvLog format args) w.

Definition logWarningWithError (err : Errno) (format : string)
    (args : list LogArg) (w : World) : World :=
  emit (EvLog "%s: %v." [AMsg format args; AErr err]) w.

Definition logVerbose (format : string) (args : list LogArg) (w : World) : World :=
  if negb (verbose w) then w else emit (EvLog format args) w.

(** ** The program: [statTimes] *)

Definition zeroTimespec : Timespec := mkTimespec 0 0.

Definition statTimes (sb : Stat_t) : Timespec * Timespec * bool :=
  match FieldByName sb "Atim", FieldByName sb "Mtim" with
  | Some atim, Some mtim => (atim, mtim, true)
  | _, _ =>
      match FieldByName sb "Atimespec", FieldByName sb "Mtimespec" with
      | Some atim, Some mtim => (atim, mtim, true)
      | _, _ => (zeroTimespec, zeroTimespec, false)
      end
  end.

(** ** The program: [rewriteFile] *)

(** How a call ends: it returns, it panics, or the model ran out of fuel
    before the call was over. *)
Inductive Outcome (A : Type) :=
  | Returned (a : A)
  | Panicked (msg : string)
  | OutOfFuel.
Arguments Returned {A} a.
Arguments Panicked {A} msg.
Arguments OutOfFuel {A}.

(** [make([]byte, n)]: the length of the new slice; a negative or too large
    length panics. *)
Definition make (p : Platform) (n : Z) : option Z :=
  if (n <? 0) || (Z.of_N (maxAlloc p) <? n) then None else Some n.

(** One pass through the body of the copy loop. *)
Inductive Step :=
  | Continue (offset : Z)     (* next iteration, at this offset *)
  | Break                     (* [break]: end of file *)
  | Fail.                     (* [return false] *)

Definition copyStep (path : string) (fd : Z) (buf : Z) (offset : Z) (w : World)
  : Step * World :=
  match Pread fd buf offset w with
  | (inl err, w) =>
      (Fail, logWarningWithError err "Read from %s at offset %d failed"
               [AStr path; AInt offset] w)
  | (inr got, w) =>
      let rdone := Z.of_nat (length got) in
      if rdone =? 0 then (Break, w)
      else
        let w := logVerbose "Read %d from %s at offset %d."
                   [AInt rdone; AStr path; AInt offset] w in
        match Pwrite fd got offset w with
        | (inl err, w) =>
            (Fail, logWarningWithError err "Write %s at offset %d failed"
                     [AStr path; AInt offset] w)
        | (inr wdone, w) =>
            if wdone =? 0
            then (Fail, logWarning "Wrote nothing to %s at offset %d."
                          [AStr path; AInt offset] w)
            else
              let w := logVerbose "Wrote %d to %s at offset %d."
                         [AInt wdone; AStr path; AInt offset] w in
              let w :=
                if wdone <? rdone
                then logWarning
                       "Short write to %s at offset %d (wrote %d instead of %d)."
                       [AStr path; AInt offset; AInt wdone; AInt rdone] w
                else w in
              (Continue (wrap64 (offset + wdone)), w)
        end
  end.

(** The [for] loop; [None] when [fuel] iterations were not enough. *)
Fixpoint copyLoop (fuel : nat) (path : string) (fd : Z) (buf : Z) (offset : Z)
    (w : World) : option bool * World :=
  match fuel with
  | O => (None, w)
  | S fuel' =>
      match copyStep path fd buf offset w with
      | (Continue offset', w) => copyLoop fuel' path fd buf offset' w
      | (Break, w) => (Some true, w)
      | (Fail, w) => (Some false, w)
      end
  end.

(** What follows the loop: the timestamps are taken from [sb] and put back. *)
Definition restoreTimes (path : string) (fd : Z) (sb : Stat_t) (w : World)
  : bool * World :=
  let '(atime, mtime, ok) := statTimes sb in
  if negb ok
  then (false,
        logWarning
          "Unable to restore access and modification times on %s: unsupported stat timestamp fields."
          [AStr path] w)
  else
    match Futimes fd (NsecToTimeval (TimespecToNsec atime))
                     (NsecToTimeval (TimespecToNsec mtime)) w with
    | (Some err, w) =>
        (false,
         logWarningWithError err
           "Unable to restore access and modification times on %s" [AStr path] w)
    | (None, w) =>
        (true, logVerbose "Restored access and modification times on %s."
                 [AStr path] w)
    end.

(** The part of [rewriteFile] that runs with the descriptor open. *)
Definition rewriteOpen (fuel : nat) (path : string) (fd : Z) (buf : Z) (w : World)
  : option bool * World :=
  match Fstat fd w with
  | (inl err, w) =>
      (Some false, logWarningWithError err "Unable to stat %s" [AStr path] w)
  | (inr sb, w) =>
      if negb (Z.land (Mode sb) S_IFMT =? S_IFREG)
      then (Some false, logWarning "%s is not a regular file, skipping." [AStr path] w)
      else
        match copyLoop fuel path fd buf 0 w with
        | (None, w) => (None, w)
        | (Some false, w) => (Some false, w)
        | (Some true, w) =>
            let '(ret, w) := restoreTimes path fd sb w in (Some ret, w)
        end
  end.

Definition rewriteFile (fuel : nat) (path : string) (bufferSizeBytes : Z)
    (w : World) : Outcome bool * World :=
  match make (w_platform w) bufferSizeBytes with
  | None => (Panicked "makeslice: len out of range", w)
  | Some buf =>
      match Open path w with
      | (inl err, w) =>
          (Returned false, logWarningWithError err "Unable to open %s" [AStr path] w)
      | (inr fd, w) =>
          match rewriteOpen fuel path fd buf w with
          | (Some ret, w) => (Returned ret, Close fd w)   (* [defer syscall.Close(fd)] *)
          | (None, w) => (OutOfFuel, w)
          end
      end
  end.

(** ** Package [strings] *)

Definition HasPrefix (s prefix : string) : bool := String.prefix prefix s.

Definition strFrom (n : nat) (s : string) : string :=
  String.substring n (String.length s - n)%nat s.       (* [s[n:]] *)

Definition strTo (n : nat) (s : string) : string :=
  String.substring 0 n s.                                 (* [s[:n]] *)

Definition TrimPrefix (s prefix : string) : string :=
  if HasPrefix s prefix then strFrom (String.length prefix) s else s.

Definition Index (s substr : string) : Z :=
  match String.index 0 substr s with
  | Some i => Z.of_nat i
  | None => -1
  end.

(** ** Package [pflag]: the flag set of the program *)

(** The variable a flag is bound to. *)
Inductive BoolVar := PtrVerbose | PtrHelp.
Inductive FlagValue :=
  | boolValue (p : BoolVar)
  | intValue.                   (* bound to [bufferSizeMB] *)

Record Flag := mkFlag {
  Name : string;
  Shorthand : ascii;
  Value : FlagValue;
  NoOptDefVal : string
}.

(** [BoolVarP] and [IntVarP] as [main] calls them. *)
Definition CommandLine : list Flag :=
  [ mkFlag "verbose" "v"%char (boolValue PtrVerbose) "true";
    mkFlag "buffersize" "b"%char intValue "";
    mkFlag "help" "h"%char (boolValue PtrHelp) "true" ].

Definition Lookup (fs : list Flag) (name : string) : option Flag :=
  List.find (fun f => String.eqb (Name f) name) fs.

Definition lookupShorthand (fs : list Flag) (c : ascii) : option Flag :=
  List.find (fun f => Ascii.eqb (Shorthand f) c) fs.

(** ** The program: [normalizeGoStyleLongFlags] *)

Definition normalizeArg (fs : list Flag) (arg : string) : string :=
  if negb (HasPrefix arg "-") || HasPrefix arg "--" || String.eqb arg "-"
  then arg
  else if (String.length arg <=? 2)%nat then arg
  else
    let name := TrimPrefix arg "-" in
    let idx := Index name "=" in
    let '(name, value) :=
      if 0 <=? idx
      then (strTo (Z.to_nat idx) name, strFrom (Z.to_nat idx) name)
      else (name, ""%string) in
    match Lookup fs name with
    | Some _ => ("--" ++ name ++ value)%string
    | None => arg
    end.

Definition normalizeGoStyleLongFlags (args : list string) (fs : list Flag)
  : list string :=
  fold_left (fun normalized arg => normalized ++ [normalizeArg fs arg]) args [].

(** The values of the three flag variables, and the positional arguments
    collected so far. *)
Record Flags := mkFlags {
  f_verbose : bool;
  f_bufferSizeMB : Z;
  f_help : bool;
  f_args : list string
}.

Definition initialFlags : Flags := mkFlags false 8 false [].

(** [strconv.ParseBool] *)
Definition ParseBool (s : string) : option bool :=
  if bool_decide (s ∈ ["1"; "t"; "T"; "TRUE"; "true"; "True"]%string) then Some true
  else if bool_decide (s ∈ ["0"; "f"; "F"; "FALSE"; "false"; "False"]%string) then Some false
  else None.

Definition addArgs (l : list string) (st : Flags) : Flags :=
  mkFlags (f_verbose st) (f_bufferSizeMB st) (f_help st) (f_args st ++ l).

Section Driver.

(** [strconv.ParseInt(s, 0, 64)]: the value of a numeral that fits 64 bits,
    nothing for any other string.  The standard library is not part of the
    program; the driver is verified for whatever this function accepts. *)
Variable ParseInt : string -> option Z.

(** [Value.Set]: parse the text and store it in the bound variable. *)
Definition setFlag (p : Platform) (flag : Flag) (value : string) (st : Flags)
  : option Flags :=
  match Value flag with
  | boolValue PtrVerbose =>
      b ← ParseBool value;
      Some (mkFlags b (f_bufferSizeMB st) (f_help st) (f_args st))
  | boolValue PtrHelp =>
      b ← ParseBool value;
      Some (mkFlags (f_verbose st) (f_bufferSizeMB st) b (f_args st))
  | intValue =>
      v ← ParseInt value;
      Some (mkFlags (f_verbose st) (wrap (intBits p) v) (f_help st) (f_args st))
  end.

(** [parseLongArg] for [s] = [--...]: the new state and whether the next
    argument was taken as the value. *)
Definition parseLongArg (p : Platform) (fs : list Flag) (s : string)
    (next : option string) (st : Flags) : option (Flags * bool) :=
  let name := strFrom 2 s in
  if (String.length name =? 0)%nat || HasPrefix name "-" || HasPrefix name "="
  then None
  else
    let idx := Index name "=" in
    let '(name, value) :=
      if 0 <=? idx
      then (strTo (Z.to_nat idx) name, Some (strFrom (Z.to_nat idx + 1) name))
      else (name, None) in
    match Lookup fs name with
    | None => None
    | Some flag =>
        match value with
        | Some v => st ← setFlag p flag v st; Some (st, false)
        | None =>
            if negb (String.eqb (NoOptDefVal flag) "")
            then st ← setFlag p flag (NoOptDefVal flag) st; Some (st, false)
            else
              match next with
              | Some v => st ← setFlag p flag v st; Some (st, true)
              | None => None
              end
        end
    end.

(** [parseShortArg], the loop over [parseSingleShortArg]. *)
Fixpoint parseShortArg (p : Platform) (fs : list Flag) (shorthands : string)
    (next : option string) (st : Flags) : option (Flags * bool) :=
  match shorthands with
  | EmptyString => Some (st, false)
  | String c outShorts =>
      match lookupShorthand fs c with
      | None => None
      | Some flag =>
          if (2 <? String.length shorthands)%nat && HasPrefix outShorts "="
          then st ← setFlag p flag (strFrom 2 shorthands) st; Some (st, false)
          else if negb (String.eqb (NoOptDefVal flag) "")
          then st ← setFlag p flag (NoOptDefVal flag) st;
               parseShortArg p fs outShorts next st
          else if (1 <? String.length shorthands)%nat
          then st ← setFlag p flag outShorts st; Some (st, false)
          else
            match next with
            | Some v => st ← setFlag p flag v st; Some (st, true)
            | None => None
            end
      end
  end.

(** [FlagSet.parseArgs]; nothing when the arguments are refused. *)
Fixpoint parseArgs (p : Platform) (fs : list Flag) (args : list string)
    (st : Flags) : option Flags :=
  match args with
  | [] => Some st
  | s :: args =>
      if (String.length s =? 0)%nat || negb (HasPrefix s "-")
         || (String.length s =? 1)%nat
      then parseArgs p fs args (addArgs [s] st)
      else if String.eqb s "--"
      then Some (addArgs args st)               (* "--" terminates the flags *)
      else
        match (if HasPrefix s "--"
               then parseLongArg p fs s (head args) st
               else parseShortArg p fs (strFrom 1 s) (head args) st) with
        | None => None
        | Some (st, false) => parseArgs p fs args st
        | Some (st, true) =>
            match args with
            | [] => Some st
            | _ :: args => parseArgs p fs args st
            end
        end
  end.

Definition Parse (p : Platform) (arguments : list string) : option Flags :=
  parseArgs p CommandLine arguments initialFlags.

(** ** The program: [main] *)

(** How the process ends: [os.Exit], a panic nobody recovers, or the model
    ran out of fuel. *)
Inductive ProcessEnd :=
  | Exit (code : Z)
  | Crash (msg : string)
  | Unfinished.

(** The status the parent sees; the Go runtime ends a panicking process with
    status 2. *)
Definition exitStatus (e : ProcessEnd) : option Z :=
  match e with
  | Exit code => Some code
  | Crash _ => Some 2
  | Unfinished => None
  end.

(** [bufferSizeMB * 1024 * 1024] on [int]. *)
Definition bufferSizeBytesOf (p : Platform) (bufferSizeMB : Z) : Z :=
  wrap (intBits p) (wrap (intBits p) (bufferSizeMB * 1024) * 1024).

(** The loop over the paths, from [ret] so far. *)
Fixpoint rewriteAll (fuel : nat) (args : list string) (bufferSizeBytes : Z)
    (ret : Z) (w : World) : ProcessEnd * World :=
  match args with
  | [] => (Exit ret, w)
  | path :: args =>
      let w := logVerbose "Rewriting %s..." [AStr path] w in
      match rewriteFile fuel path bufferSizeBytes w with
      | (Returned ok, w) =>
          rewriteAll fuel args bufferSizeBytes (if negb ok then 1 else ret) w
      | (Panicked msg, w) => (Crash msg, w)
      | (OutOfFuel, w) => (Unfinished, w)
      end
  end.

(** [main], for [osArgs] = [os.Args[1:]]. *)
Definition main (fuel : nat) (osArgs : list string) (w : World)
  : ProcessEnd * World :=
  let normalizedArgs := normalizeGoStyleLongFlags osArgs CommandLine in
  match Parse (w_platform w) normalizedArgs with
  | None => (Exit 2, emit EvUsage w)
  | Some flags =>
      let w := setVerbose (f_verbose flags) w in
      let help := f_help flags in
      let bufferSizeMB := f_bufferSizeMB flags in
      if help then (Exit 0, emit EvUsage w)
      else
        let args := f_args flags in
        if (length args =? 0)%nat then (Exit 2, emit EvUsage w)
        else if bufferSizeMB <=? 0
        then (Exit 2,
              logWarning "invalid buffer size %d MB: must be greater than 0"
                [AInt bufferSizeMB] w)
        else
          let bufferSizeBytes := bufferSizeBytesOf (w_platform w) bufferSizeMB in
          rewriteAll fuel args bufferSizeBytes 0 w
  end.

End Driver.

(** ** Hosts, scripts and files used in the examples *)

Definition linux_amd64 : Platform := mkPlatform 64 (2 ^ 48) Atim_Mtim.
Definition darwin_arm64 : Platform := mkPlatform 64 (2 ^ 48) Atimespec_Mtimespec.
Definition linux_386 : Platform := mkPlatform 32 (2 ^ 31 - 1) Atim_Mtim.
Definition exotic : Platform := mkPlatform 64 (2 ^ 48) OtherNames.

(** A kernel that never fails and always moves all the bytes asked for. *)
Definition calm : nat -> Response :=
  fun _ => mkResponse None None (mkTimespec 1800000000 0).

(** A kernel that moves at most [k] bytes per call. *)
Definition stingy (k : Z) : nat -> Response :=
  fun _ => mkResponse None (Some k) (mkTimespec 1800000000 0).

(** A kernel whose call number [n] fails with [e], and which is calm
    otherwise. *)
Definition failingAt (n : nat) (e : Errno) : nat -> Response :=
  fun k => if (k =? n)%nat then mkResponse (Some e) None (mkTimespec 1800000000 0)
           else calm k.

(** A kernel whose call number [n] moves at most [k] bytes, and which is calm
    otherwise. *)
Definition shortAt (n : nat) (k : Z) : nat -> Response :=
  fun j => if (j =? n)%nat then mkResponse None (Some k) (mkTimespec 1800000000 0)
           else calm j.

(** [strconv.ParseInt] on plain decimal numerals, with an optional sign. *)
Definition digitValue (c : ascii) : option Z :=
  let n := Z.of_nat (nat_of_ascii c) in
  if (48 <=? n) && (n <=? 57) then Some (n - 48) else None.

Fixpoint parseDigits (s : string) (acc : Z) : option Z :=
  match s with
  | EmptyString => Some acc
  | String c s => d ← digitValue c; parseDigits s (10 * acc + d)
  end.

Definition parseDecimal (s : string) : option Z :=
  let '(neg, body) :=
    match s with
    | String "-" r => (true, r)
    | String "+" r => (false, r)
    | _ => (false, s)
    end in
  match body with
  | EmptyString => None
  | _ =>
      v ← parseDigits body 0;
      let v := if neg : bool then - v else v in
      if (minInt64 <=? v) && (v <=? maxInt64) then Some v else None
  end.

Definition sampleData : list byte :=
  [Byte.x66; Byte.x69; Byte.x6c; Byte.x65; Byte.x21].     (* "file!" *)

Definition sampleFile : Inode :=
  mkInode (S_IFREG + 0x1A4) sampleData
          (mkTimespec 1700000000 123000000) (mkTimespec 1700000100 456000000).

Definition emptyFile : Inode :=
  mkInode (S_IFREG + 0x1A4) [] (mkTimespec 1700000000 1) (mkTimespec 1700000100 2).

Definition sampleDir : Inode :=
  mkInode (S_IFDIR + 0x1ED) [] (mkTimespec 1700000000 0) (mkTimespec 1700000000 0).

(** A file system with a data file, an empty file, a directory, and a file
    whose name starts with a dash. *)
Definition sampleWorld (p : Platform) (script : nat -> Response) : World :=
  mkWorld p
    (<["data.bin" := 1%nat]> (<["empty" := 2%nat]> (<["dir" := 3%nat]>
       (<["-verbose" := 4%nat]> ∅))))
    (<[1%nat := sampleFile]> (<[2%nat := emptyFile]> (<[3%nat := sampleDir]>
       (<[4%nat := sampleFile]> ∅))))
    ∅ 0 script [] false.

(** * Vocabulary of the specification *)

(** Mode and bytes of a file, without its timestamps. *)
Definition content (i : Inode) : Z * list byte := (i_mode i, i_data i).

(** [w'] comes after [w]: the same host, names, script and verbosity, the
    same content in every file, and a trace that continues the one of [w]. *)
Record evolves (w w' : World) : Prop := mkEvolves {
  ev_platform : w_platform w' = w_platform w;
  ev_names : w_names w' = w_names w;
  ev_script : w_script w' = w_script w;
  ev_verbose : verbose w' = verbose w;
  ev_content : forall ino, content <$> (w_inodes w' !! ino) = content <$> (w_inodes w !! ino);
  ev_trace : w_trace w `prefix_of` w_trace w'
}.

(** The events added between [w] and [w']. *)
Definition news (w w' : World) : list Event :=
  drop (length (w_trace w)) (w_trace w').

(** The event a read leaves in the trace: its count, not its bytes. *)
Definition preadEvent (fd len offset : Z) (res : Errno + list byte) : Event :=
  EvPread fd len offset
    (match res with
     | inl e => inl e
     | inr got => inr (Z.of_nat (length got))
     end).

(** The event [Fstat] leaves in the trace. *)
Definition fstatEvent (fd : Z) (res : Errno + Stat_t) : Event :=
  EvFstat fd (match res with inl e => Some e | inr _ => None end).

(** [w'] comes after [w], and the events in between are exactly [l]. *)
Definition yields (w w' : World) (l : list Event) : Prop :=
  evolves w w' /\ news w w' = l.

(** The line [logVerbose] prints, if any. *)
Definition vlog (v : bool) (format : string) (args : list LogArg) : list Event :=
  if v then [EvLog format args] else [].

(** The size of the file behind a descriptor. *)
Definition fdSize (w : World) (fd : Z) : Z :=
  match fdInode w fd with
  | Some (_, i) => Z.of_nat (length (i_data i))
  | None => 0
  end.

(** The events of one pass through the loop body, for each way it can go;
    [v] is the verbosity. *)
Inductive StepTrace (path : string) (fd buf off : Z) (v : bool)
  : Step -> list Event -> Prop :=
  | ReadFailed (e : Errno) :
      StepTrace path fd buf off v Fail
        [EvPread fd buf off (inl e);
         EvLog "%s: %v." [AMsg "Read from %s at offset %d failed" [AStr path; AInt off];
                          AErr e]]
  | ReadNothing :
      StepTrace path fd buf off v Break [EvPread fd buf off (inr 0)]
  | WriteFailed (got : list byte) (e : Errno) :
      got <> [] ->
      StepTrace path fd buf off v Fail
        ([EvPread fd buf off (inr (Z.of_nat (length got)))]
           ++ vlog v "Read %d from %s at offset %d."
                [AInt (Z.of_nat (length got)); AStr path; AInt off]
           ++ [EvPwrite fd got off (inl e);
               EvLog "%s: %v." [AMsg "Write %s at offset %d failed" [AStr path; AInt off];
                                AErr e]])
  | WroteNothing (got : list byte) :
      got <> [] ->
      StepTrace path fd buf off v Fail
        ([EvPread fd buf off (inr (Z.of_nat (length got)))]
           ++ vlog v "Read %d from %s at offset %d."
                [AInt (Z.of_nat (length got)); AStr path; AInt off]
           ++ [EvPwrite fd got off (inr 0);
               EvLog "Wrote nothing to %s at offset %d." [AStr path; AInt off]])
  | Wrote (got : list byte) (wdone : Z) :
      0 < wdone <= Z.of_nat (length got) ->
      StepTrace path fd buf off v (Continue (wrap64 (off + wdone)))
        ([EvPread fd buf off (inr (Z.of_nat (length got)))]
           ++ vlog v "Read %d from %s at offset %d."
                [AInt (Z.of_nat (length got)); AStr path; AInt off]
           ++ [EvPwrite fd got off (inr wdone)]
           ++ vlog v "Wrote %d to %s at offset %d." [AInt wdone; AStr path; AInt off]
           ++ (if wdone <? Z.of_nat (length got)
               then [EvLog "Short write to %s at offset %d (wrote %d instead of %d)."
                       [AStr path; AInt off; AInt wdone; AInt (Z.of_nat (length got))]]
               else [])).

(** The events of the whole loop, started at an offset. *)
Inductive LoopTrace (path : string) (fd buf : Z) (v : bool)
  : Z -> option bool -> list Event -> Prop :=
  | LoopUnfinished (off : Z) :
      LoopTrace path fd buf v off None []
  | LoopBroke (off : Z) (l : list Event) :
      StepTrace path fd buf off v Break l ->
      LoopTrace path fd buf v off (Some true) l
  | LoopFailed (off : Z) (l : list Event) :
      StepTrace path fd buf off v Fail l ->
      LoopTrace path fd buf v off (Some false) l
  | LoopContinued (off off' : Z) (l l' : list Event) (r : option bool) :
      StepTrace path fd buf off v (Continue off') l ->
      LoopTrace path fd buf v off' r l' ->
      LoopTrace path fd buf v off r (l ++ l').

Definition unsupportedMsg : string :=
  "Unable to restore access and modification times on %s: unsupported stat timestamp fields.".

(** The report that the snapshot has no timestamp fields the program knows. *)
Definition report (path : string) : Event := EvLog unsupportedMsg [AStr path].

(** What happens between [Open] and [Close], for verbosity [v] on a host with
    layout [lay]. *)
Inductive BodyTrace (path : string) (fd buf : Z) (v : bool) (lay : StatLayout)
  : bool -> list Event -> Prop :=
  | StatFailed (e : Errno) :
      BodyTrace path fd buf v lay false
        [EvFstat fd (Some e);
         EvLog "%s: %v." [AMsg "Unable to stat %s" [AStr path]; AErr e]]
  | NotRegular :
      BodyTrace path fd buf v lay false
        [EvFstat fd None; EvLog "%s is not a regular file, skipping." [AStr path]]
  | CopyFailed (l : list Event) :
      LoopTrace path fd buf v 0 (Some false) l ->
      BodyTrace path fd buf v lay false ([EvFstat fd None] ++ l)
  | Unsupported (l : list Event) :
      lay = OtherNames ->
      LoopTrace path fd buf v 0 (Some true) l ->
      BodyTrace path fd buf v lay false ([EvFstat fd None] ++ l ++ [report path])
  | RestoreFailed (l : list Event) (atv mtv : Timeval) (e : Errno) :
      lay <> OtherNames ->
      LoopTrace path fd buf v 0 (Some true) l ->
      BodyTrace path fd buf v lay false
        ([EvFstat fd None] ++ l
           ++ [EvFutimes fd atv mtv (Some e);
               EvLog "%s: %v."
                 [AMsg "Unable to restore access and modification times on %s" [AStr path];
                  AErr e]])
  | Restored (l : list Event) (atv mtv : Timeval) :
      lay <> OtherNames ->
      LoopTrace path fd buf v 0 (Some true) l ->
      BodyTrace path fd buf v lay true
        ([EvFstat fd None] ++ l ++ [EvFutimes fd atv mtv None]
           ++ vlog v "Restored access and modification times on %s." [AStr path]).

(** The events of a call of [rewriteFile] that returns [ret]. *)
Inductive FileTrace (path : string) (buf : Z) (v : bool) (lay : StatLayout)
  : bool -> list Event -> Prop :=
  | OpenFailed (e : Errno) :
      FileTrace path buf v lay false
        [EvOpen path (inl e);
         EvLog "%s: %v." [AMsg "Unable to open %s" [AStr path]; AErr e]]
  | Opened (fd : Z) (ret : bool) (body : list Event) :
      BodyTrace path fd buf v lay ret body ->
      FileTrace path buf v lay ret ([EvOpen path (inr fd)] ++ body ++ [EvClose fd]).

(** Sizes of files fit the signed 64-bit offset, and [fuel] exceeds them. *)
Definition fits (fuel : nat) (w : World) : Prop :=
  forall ino i, w_inodes w !! ino = Some i ->
    Z.of_nat (length (i_data i)) <= maxInt64 /\ (length (i_data i) < fuel)%nat.

(** Kinds of events. *)
Definition isTransfer (ev : Event) : bool :=
  match ev with
  | EvPread _ _ _ _ | EvPwrite _ _ _ _ => true
  | _ => false
  end.

Definition isWrite (ev : Event) : bool :=
  match ev with
  | EvPwrite _ _ _ _ => true
  | _ => false
  end.

Definition isFutimes (ev : Event) : bool :=
  match ev with
  | EvFutimes _ _ _ _ => true
  | _ => false
  end.

(** What the copy loop can add to the trace: transfers, and log lines other
    than the report of unsupported timestamp fields. *)
Definition isLoopEvent (ev : Event) : bool :=
  match ev with
  | EvPread _ _ _ _ | EvPwrite _ _ _ _ => true
  | EvLog format _ => negb (String.eqb format unsupportedMsg)
  | _ => false
  end.

(** Bytes, times and kind of the file a path names. *)
Definition fileData (w : World) (path : string) : option (list byte) :=
  match pathInode w path with
  | Some (_, i) => Some (i_data i)
  | None => None
  end.

Definition fileTimes (w : World) (path : string) : option (Timespec * Timespec) :=
  match pathInode w path with
  | Some (_, i) => Some (i_atime i, i_mtime i)
  | None => None
  end.

Definition isRegular (w : World) (path : string) : Prop :=
  exists ino i, pathInode w path = Some (ino, i) /\ fileType i = S_IFREG.

(** A time at or after the epoch, with a normalised nanosecond part, far from
    the ends of the 64-bit range. *)
Definition ordinaryTime (ts : Timespec) : Prop :=
  0 <= ts_Sec ts <= 9000000000 /\ 0 <= ts_Nsec ts < 1000000000.

(** A transfer that neither failed nor, for a write, moved nothing. *)
Definition wentWell (ev : Event) : bool :=
  match ev with
  | EvPread _ _ _ (inl _) => false
  | EvPwrite _ _ _ (inl _) => false
  | EvPwrite _ _ _ (inr n) => 0 <? n
  | _ => true
  end.

(** [fits], checked by computation. *)
Definition fitsb (fuel : nat) (w : World) : bool :=
  forallb (fun e : nat * Inode =>
             (Z.of_nat (length (i_data e.2)) <=? maxInt64)
             && (length (i_data e.2) <? fuel)%nat)
          (map_to_list (w_inodes w)).

(** No call fails, and every transfer may move at least one byte. *)
Definition obliging (script : nat -> Response) : Prop :=
  forall k, fault (script k) = None /\
            forall n, limit (script k) = Some n -> 0 < n.

(** Splits a membership in a list built from [++] and [::] into its cases,
    dropping those that equate different events. *)
Ltac elem_cases H :=
  first
    [ apply elem_of_nil in H; destruct H
    | apply elem_of_cons in H as [H|H]; [try discriminate H | elem_cases H]
    | apply elem_of_app in H as [H|H]; [elem_cases H | elem_cases H]
    | idtac ].

(** The claim C4 as the specification states it: on a host whose snapshot
    has no timestamp fields the program knows, the call fails and has written
    nothing. *)
Definition unsupported_fields_fail_before_any_write : Prop :=
  forall fuel path bs w r w',
    statLayout (w_platform w) = OtherNames ->
    rewriteFile fuel path bs w = (Returned r, w') ->
    r = false /\ Forall (fun ev => isWrite ev = false) (news w w').

(** The paths the program tried to open, in order. *)
Definition openedPath (ev : Event) : option string :=
  match ev with
  | EvOpen path _ => Some path
  | _ => None
  end.

Definition openedPaths (l : list Event) : list string := omap openedPath l.

(** The calls the driver makes: [rewriteFile] on each path in turn, each
    from the state the one before left, with the result of each. *)
Inductive EngineRuns (fuel : nat) (bs : Z)
  : list string -> list bool -> World -> World -> Prop :=
  | RunsDone (w : World) : EngineRuns fuel bs [] [] w w
  | RunsNext (path : string) (paths : list string) (r : bool) (rs : list bool)
      (w w1 w2 : World) :
      rewriteFile fuel path bs (logVerbose "Rewriting %s..." [AStr path] w)
      = (Returned r, w1) ->
      EngineRuns fuel bs paths rs w1 w2 ->
      EngineRuns fuel bs (path :: paths) (r :: rs) w w2.

Definition invalidBufferSizeMsg : string :=
  "invalid buffer size %d MB: must be greater than 0".

Definition isSyscall (ev : Event) : bool :=
  match ev with
  | EvLog _ _ | EvUsage => false
  | _ => true
  end.

(** The claim C6 as the specification states it, for the arguments the flag
    parser accepts: a buffer size that is not positive, or an empty list of
    paths, ends the process with status 2 before any system call, and a
    buffer size that is not positive is reported with its value. *)
Definition bad_configuration_always_exits_2 (ParseInt : string -> option Z) : Prop :=
  forall fuel osArgs w flags,
    Parse ParseInt (w_platform w) (normalizeGoStyleLongFlags osArgs CommandLine)
    = Some flags ->
    f_bufferSizeMB flags <= 0 \/ f_args flags = [] ->
    exitStatus (main ParseInt fuel osArgs w).1 = Some 2 /\
    Forall (fun ev => isSyscall ev = false)
           (news w (main ParseInt fuel osArgs w).2) /\
    (f_bufferSizeMB flags <= 0 ->
     EvLog invalidBufferSizeMsg [AInt (f_bufferSizeMB flags)]
     ∈ news w (main ParseInt fuel osArgs w).2).

(** The part of a single-dash argument that names the flag: what follows the
    dash, up to the first [=]. *)
Definition flagNameOf (arg : string) : string :=
  let name := TrimPrefix arg "-" in
  let idx := Index name "=" in
  if 0 <=? idx then strTo (Z.to_nat idx) name else name.

(** An argument that does not begin with a dash. *)
Definition plain (s : string) : Prop := HasPrefix s "-" = false.

(** [Covers content from l to]: the writes in [l] succeeded, each one at the
    offset where the one before ended, starting at [from] and ending at
    [to], and each put back the bytes that [content] has at its offset. *)
Inductive Covers (content : list byte) : Z -> list Event -> Z -> Prop :=
  | CoversNil (cur : Z) : Covers content cur [] cur
  | CoversWrite (fd : Z) (data : list byte) (off n : Z) (l : list Event) (fin : Z) :
      0 < n <= Z.of_nat (length data) ->
      take (Z.to_nat n) data = take (Z.to_nat n) (drop (Z.to_nat off) content) ->
      Covers content (off + n) l fin ->
      Covers content off (EvPwrite fd data off (inr n) :: l) fin
  | CoversOther (ev : Event) (l : list Event) (cur fin : Z) :
      isWrite ev = false ->
      Covers content cur l fin ->
      Covers content cur (ev :: l) fin.

(** The formats of the lines printed only with [-v]. *)
Definition verboseFormats : list string :=
  ["Rewriting %s..."; "Read %d from %s at offset %d.";
   "Wrote %d to %s at offset %d.";
   "Restored access and modification times on %s."]%string.

(** [l] ends with a warning, followed at most by the closing of a
    descriptor. *)
Definition endsWithWarning (l : list Event) : Prop :=
  exists l0 format args,
    (format ∉ verboseFormats) /\
    (l = l0 ++ [EvLog format args] \/
     exists fd, l = l0 ++ [EvLog format args; EvClose fd]).

(** Events other than the lines of the verbose mode. *)
Definition essential (ev : Event) : bool :=
  match ev with
  | EvLog format _ => negb (existsb (String.eqb format) verboseFormats)
  | _ => true
  end.

(** The world as it would be seen without the verbose mode: the lines of the
    verbose mode are struck from the trace, and the mode is off. *)
Definition quiet (w : World) : World :=
  mkWorld (w_platform w) (w_names w) (w_inodes w) (w_fds w) (w_tick w)
          (w_script w) (List.filter essential (w_trace w)) false.

(** A time at least a microsecond before the epoch, with a normalised
    nanosecond part, far from the ends of the 64-bit range. *)
Definition beforeEpoch (ts : Timespec) : Prop :=
  -9000000000 <= ts_Sec ts /\ 0 <= ts_Nsec ts < 1000000000 /\ nanos ts <= -1000.

(** A file last read and written one hundred seconds before the epoch. *)
Definition oldFile : Inode :=
  mkInode (S_IFREG + 0x1A4) sampleData (mkTimespec (-100) 2) (mkTimespec (-100) 0).

Definition oldWorld : World :=
  mkWorld linux_amd64 (<["old.bin" := 1%nat]> ∅) (<[1%nat := oldFile]> ∅)
          ∅ 0 calm [] false.

(** * Verification *)

(** ** Arithmetic and lists *)

Lemma pow2_split (bits : Z) : 0 < bits -> 2 ^ bits = 2 * 2 ^ (bits - 1).
Proof.
  intros Hb. replace bits with (Z.succ (bits - 1)) at 1 by lia.
  rewrite Z.pow_succ_r; lia.
Qed.

Lemma wrap_small (bits z : Z) :
  0 < bits -> - 2 ^ (bits - 1) <= z < 2 ^ (bits - 1) -> wrap bits z = z.
Proof.
  intros Hb Hz. unfold wrap. rewrite (pow2_split bits Hb).
  rewrite Z.mod_small; lia.
Qed.

Lemma wrap_mod (bits z : Z) :
  0 < bits -> wrap bits z `mod` 2 ^ bits = z `mod` 2 ^ bits.
Proof.
  intros Hb. unfold wrap.
  assert (Hp : 0 < 2 ^ bits) by (apply Z.pow_pos_nonneg; lia).
  rewrite Zminus_mod, Zmod_mod, <- Zminus_mod.
  f_equal. lia.
Qed.

Lemma wrap_congr (bits a b : Z) :
  0 < bits -> a `mod` 2 ^ bits = b `mod` 2 ^ bits -> wrap bits a = wrap bits b.
Proof.
  intros Hb Hab. unfold wrap.
  rewrite (Zplus_mod a), (Zplus_mod b), Hab. reflexivity.
Qed.

Lemma minInt64_value : minInt64 = -9223372036854775808.
Proof. reflexivity. Qed.

Lemma maxInt64_value : maxInt64 = 9223372036854775807.
Proof. reflexivity. Qed.

Lemma wrap64_within (z : Z) :
  -9223372036854775808 <= z <= 9223372036854775807 -> wrap64 z = z.
Proof.
  intros Hz. unfold wrap64, wrap.
  change (2 ^ (64 - 1)) with 9223372036854775808.
  change (2 ^ 64) with 18446744073709551616.
  rewrite Z.mod_small; lia.
Qed.

Lemma wrap64_small (z : Z) : minInt64 <= z <= maxInt64 -> wrap64 z = z.
Proof. rewrite minInt64_value, maxInt64_value. apply wrap64_within. Qed.

Lemma splice_prefix (data put : list byte) (off : nat) :
  put ≠ [] -> put `prefix_of` drop off data -> splice data off put = data.
Proof.
  intros Hne [k Hk]. unfold splice.
  assert (Hlt : (off < length data)%nat).
  { destruct (decide (off < length data)%nat) as [|Hge]; [done|].
    rewrite drop_ge in Hk by lia. by destruct put. }
  replace (off - length data)%nat with 0%nat by lia. simpl.
  rewrite <- drop_drop, Hk, drop_app_length.
  rewrite <- Hk. apply take_drop.
Qed.

Lemma take_prefix_of_drop (data : list byte) (off n : nat) :
  take n (drop off data) `prefix_of` drop off data.
Proof. exists (drop n (drop off data)). by rewrite take_drop. Qed.

(** ** What no operation of the program changes *)

Lemma evolves_refl (w : World) : evolves w w.
Proof. by constructor. Qed.

Lemma evolves_trans (w1 w2 w3 : World) :
  evolves w1 w2 -> evolves w2 w3 -> evolves w1 w3.
Proof.
  intros [P1 N1 S1 V1 C1 T1] [P2 N2 S2 V2 C2 T2].
  constructor; [congruence | congruence | congruence | congruence | |].
  - intros ino. by rewrite C2, C1.
  - by etrans.
Qed.

Lemma news_same_trace (w w' : World) : w_trace w' = w_trace w -> news w w' = [].
Proof. intros E. unfold news. by rewrite E, drop_all. Qed.

Lemma news_refl (w : World) : news w w = [].
Proof. by apply news_same_trace. Qed.

Lemma trace_news (w w' : World) :
  evolves w w' -> w_trace w' = w_trace w ++ news w w'.
Proof.
  intros [_ _ _ _ _ [k Hk]]. unfold news. by rewrite Hk, drop_app_length.
Qed.

Lemma news_trans (w1 w2 w3 : World) :
  evolves w1 w2 -> evolves w2 w3 -> news w1 w3 = news w1 w2 ++ news w2 w3.
Proof.
  intros H12 H23. pose proof (trace_news _ _ H12) as E12.
  pose proof (trace_news _ _ H23) as E23.
  unfold news at 1. rewrite E23, E12, <- (assoc (++)), drop_app_length. done.
Qed.

Lemma emit_evolves (ev : Event) (w : World) : evolves w (emit ev w).
Proof. constructor; try done. by exists [ev]. Qed.

Lemma emit_news (ev : Event) (w : World) : news w (emit ev w) = [ev].
Proof. unfold news, emit. simpl. by rewrite drop_app_length. Qed.

Lemma advance_evolves (w : World) : evolves w (advance w).
Proof. by constructor. Qed.

Lemma advance_news (w : World) : news w (advance w) = [].
Proof. by apply news_same_trace. Qed.

Lemma setFds_evolves (m : gmap Z nat) (w : World) : evolves w (setFds m w).
Proof. by constructor. Qed.

Lemma setFds_news (m : gmap Z nat) (w : World) : news w (setFds m w) = [].
Proof. by apply news_same_trace. Qed.

Lemma setVerbose_news (b : bool) (w : World) : news w (setVerbose b w) = [].
Proof. by apply news_same_trace. Qed.

(** Replacing an inode by one with the same content. *)
Lemma setInodes_evolves (ino : nat) (i i' : Inode) (w : World) :
  w_inodes w !! ino = Some i -> content i' = content i ->
  evolves w (setInodes (<[ino := i']> (w_inodes w)) w).
Proof.
  intros Hi Hc. constructor; try done. intros k. simpl.
  destruct (decide (ino = k)) as [<-|Hne].
  - rewrite lookup_insert_eq, Hi. simpl. by rewrite Hc.
  - by rewrite lookup_insert_ne.
Qed.

Lemma setInodes_news (m : gmap nat Inode) (w : World) :
  news w (setInodes m w) = [].
Proof. by apply news_same_trace. Qed.

Lemma fdInode_lookup (w : World) (fd : Z) (ino : nat) (i : Inode) :
  fdInode w fd = Some (ino, i) ->
  w_fds w !! fd = Some ino /\ w_inodes w !! ino = Some i.
Proof.
  unfold fdInode. destruct (w_fds w !! fd) as [k|]; [|done].
  destruct (w_inodes w !! k) eqn:E; [|done]. by intros [= <- <-].
Qed.

Lemma fdInode_intro (w : World) (fd : Z) (ino : nat) (i : Inode) :
  w_fds w !! fd = Some ino -> w_inodes w !! ino = Some i ->
  fdInode w fd = Some (ino, i).
Proof. unfold fdInode. by intros -> ->. Qed.

(** ** The system calls, one by one *)

Lemma step_intro (w w' : World) (l : list Event) :
  w_platform w' = w_platform w -> w_names w' = w_names w ->
  w_script w' = w_script w -> verbose w' = verbose w ->
  (forall ino, content <$> (w_inodes w' !! ino) = content <$> (w_inodes w !! ino)) ->
  w_trace w' = w_trace w ++ l ->
  evolves w w' /\ news w w' = l.
Proof.
  intros HP HN HS HV HC HT. split.
  - constructor; try done. by exists l.
  - unfold news. by rewrite HT, drop_app_length.
Qed.

Lemma insert_same_content (m : gmap nat Inode) (n : nat) (i i' : Inode) :
  m !! n = Some i -> content i' = content i ->
  forall k, content <$> (<[n := i']> m !! k) = content <$> (m !! k).
Proof.
  intros Hi Hc k. destruct (decide (n = k)) as [<-|Hne].
  - rewrite lookup_insert_eq, Hi. simpl. by rewrite Hc.
  - by rewrite lookup_insert_ne.
Qed.

Lemma Pread_spec (fd len off : Z) (w w' : World) (res : Errno + list byte) :
  Pread fd len off w = (res, w') ->
  (evolves w w' /\ news w w' = [preadEvent fd len off res]) /\
  w_fds w' = w_fds w /\ w_tick w' = S (w_tick w).
Proof.
  unfold Pread. intros H.
  repeat case_match; simplify_eq.
  all: split; [|done].
  all: apply step_intro; simpl; try done.
  all: match goal with H : fdInode _ _ = Some _ |- _ =>
         apply fdInode_lookup in H as [_ H]; simpl in H end.
  all: by eapply insert_same_content.
Qed.

(** What a successful read returns, and from which file. *)
Lemma Pread_got (fd len off : Z) (w w' : World) (got : list byte) :
  Pread fd len off w = (inr got, w') ->
  fault (response w) = None /\ 0 <= off /\
  exists ino i i',
    fdInode w fd = Some (ino, i) /\ fdInode w' fd = Some (ino, i') /\
    content i' = content i /\
    got = take (Z.to_nat (readCount (limit (response w)) len
                            (Z.of_nat (length (drop (Z.to_nat off) (i_data i))))))
               (drop (Z.to_nat off) (i_data i)).
Proof.
  unfold Pread. intros H.
  destruct (fault (response w)) eqn:Ef; [simplify_eq|].
  destruct (fdInode (advance w) fd) as [[ino i]|] eqn:Ei; [|simplify_eq].
  destruct (off <? 0) eqn:Eo; [simplify_eq|].
  apply Z.ltb_ge in Eo. split; [done|]. split; [done|].
  exists ino, i.
  pose proof (fdInode_lookup _ _ _ _ Ei) as [Hfd Hino]. simpl in Hfd, Hino.
  match type of H with context [take ?n ?l] => destruct (take n l) eqn:Et end;
    simplify_eq.
  - exists i. by rewrite (fdInode_intro w fd ino i).
  - exists (setAtime (now (response w)) i).
    split; [by apply fdInode_intro|]. split; [|done].
    apply fdInode_intro; simpl; [done|]. by rewrite lookup_insert_eq.
Qed.

Lemma readCount_bounds (lim : option Z) (len left : Z) :
  0 <= left ->
  readCount lim len left <= left /\ readCount lim len left <= len /\
  (readCount lim len left <= 0 -> len <= 0 \/ left = 0) /\
  (0 < len -> 0 < left -> 0 < readCount lim len left).
Proof. unfold readCount. destruct lim; lia. Qed.

Lemma writeCount_bounds (lim : option Z) (all : Z) :
  0 <= all -> 0 <= writeCount lim all <= all.
Proof. unfold writeCount. destruct lim; lia. Qed.

(** Writing back bytes that are in the file at that offset leaves every file
    as it is. *)
Lemma Pwrite_spec (fd : Z) (data : list byte) (off : Z) (w w' : World)
    (res : Errno + Z) :
  Pwrite fd data off w = (res, w') ->
  (forall ino i, fdInode w fd = Some (ino, i) ->
                 data `prefix_of` drop (Z.to_nat off) (i_data i)) ->
  (evolves w w' /\ news w w' = [EvPwrite fd data off res]) /\
  w_fds w' = w_fds w /\ w_tick w' = S (w_tick w).
Proof.
  unfold Pwrite. intros H Hpre.
  repeat case_match; simplify_eq.
  all: split; [|done].
  all: apply step_intro; simpl; try done.
  all: match goal with H : fdInode _ _ = Some _ |- _ =>
         pose proof (Hpre _ _ H) as Hp;
         apply fdInode_lookup in H as [_ H]; simpl in H end.
  all: eapply insert_same_content; [done|].
  all: unfold content; simpl; f_equal.
  all: apply splice_prefix; [done|].
  all: match goal with H : take ?n ?d = _ |- _ => rewrite <- H end.
  all: etrans; [apply prefix_take | done].
Qed.

Lemma Pwrite_done (fd : Z) (data : list byte) (off : Z) (w w' : World) (n : Z) :
  Pwrite fd data off w = (inr n, w') ->
  fault (response w) = None /\ 0 <= off /\
  n = writeCount (limit (response w)) (Z.of_nat (length data)).
Proof.
  unfold Pwrite. intros H.
  repeat case_match; simplify_eq.
  all: split; [done|]; split; [lia|done].
Qed.

Lemma Fstat_spec (fd : Z) (w w' : World) (res : Errno + Stat_t) :
  Fstat fd w = (res, w') ->
  (evolves w w' /\ news w w' = [fstatEvent fd res]) /\
  w_fds w' = w_fds w /\ w_inodes w' = w_inodes w /\ w_tick w' = S (w_tick w) /\
  match res with
  | inl e => True
  | inr sb => fault (response w) = None /\
              exists ino i, fdInode w fd = Some (ino, i) /\
                            sb = statOf (w_platform w) i
  end.
Proof.
  unfold Fstat. intros H. simplify_eq.
  split; [by apply step_intro|]. do 3 (split; [done|]).
  repeat case_match; simplify_eq; try done.
  split; [done|]. eauto.
Qed.

Lemma Futimes_spec (fd : Z) (atv mtv : Timeval) (w w' : World) (res : option Errno) :
  Futimes fd atv mtv w = (res, w') ->
  (evolves w w' /\ news w w' = [EvFutimes fd atv mtv res]) /\
  w_fds w' = w_fds w /\ w_tick w' = S (w_tick w) /\
  match res with
  | Some e => w_inodes w' = w_inodes w
  | None => fault (response w) = None /\
            exists ino i, fdInode w fd = Some (ino, i) /\
              w_inodes w' =
                <[ino := setMtime (timevalToTimespec mtv)
                           (setAtime (timevalToTimespec atv) i)]> (w_inodes w)
  end.
Proof.
  unfold Futimes. intros H.
  repeat case_match; simplify_eq.
  all: split; [|simpl; eauto 10].
  all: apply step_intro; simpl; try done.
  match goal with H : fdInode _ _ = Some _ |- _ =>
    apply fdInode_lookup in H as [_ H]; simpl in H end.
  by eapply insert_same_content.
Qed.

Lemma Close_spec (fd : Z) (w : World) :
  (evolves w (Close fd w) /\ news w (Close fd w) = [EvClose fd]) /\
  w_inodes (Close fd w) = w_inodes w /\ w_fds (Close fd w) = delete fd (w_fds w).
Proof. unfold Close. split; [by apply step_intro|done]. Qed.

Lemma Open_spec (path : string) (w w' : World) (res : Errno + Z) :
  Open path w = (res, w') ->
  (evolves w w' /\ news w w' = [EvOpen path res]) /\
  w_inodes w' = w_inodes w /\ w_tick w' = S (w_tick w) /\
  match res with
  | inl e => w_fds w' = w_fds w
  | inr fd => fault (response w) = None /\
              exists ino i, pathInode w path = Some (ino, i) /\
                            fdInode w' fd = Some (ino, i) /\
                            fileType i <> S_IFLNK /\ fileType i <> S_IFDIR /\
                            w_fds w' = <[fd := ino]> (w_fds w)
  end.
Proof.
  unfold Open. intros H. simplify_eq.
  split; [apply step_intro; by repeat case_match|].
  split; [by repeat case_match|]. split; [by repeat case_match|].
  destruct (fault (response w)) eqn:Ef; [done|].
  destruct (pathInode (advance w) path) as [[ino i]|] eqn:Ep; [|done].
  assert (Hn : w_names w !! path = Some ino /\ w_inodes w !! ino = Some i).
  { revert Ep. unfold pathInode. simpl. repeat case_match; naive_solver. }
  destruct Hn as [Hn Hi]. simpl. rewrite Hn.
  destruct (fileType i =? S_IFLNK) eqn:E1; [done|].
  destruct (fileType i =? S_IFDIR) eqn:E2; [done|].
  apply Z.eqb_neq in E1, E2.
  split; [done|]. exists ino, i. split; [|split; [|done]].
  - unfold pathInode. by rewrite Hn, Hi.
  - apply fdInode_intro; simpl; [by rewrite lookup_insert_eq|done].
Qed.

(** ** Runs and their events *)

Lemma yields_refl (w : World) : yields w w [].
Proof. split; [apply evolves_refl | apply news_refl]. Qed.

Lemma yields_trans (w1 w2 w3 : World) (l1 l2 : list Event) :
  yields w1 w2 l1 -> yields w2 w3 l2 -> yields w1 w3 (l1 ++ l2).
Proof.
  intros [E1 N1] [E2 N2]. split; [by eapply evolves_trans|].
  by rewrite (news_trans w1 w2 w3), N1, N2.
Qed.

Lemma yields_trace (w w' : World) (l : list Event) :
  yields w w' l -> w_trace w' = w_trace w ++ l.
Proof. intros [E <-]. by apply trace_news. Qed.

Lemma logWarning_yields (format : string) (args : list LogArg) (w : World) :
  yields w (logWarning format args w) [EvLog format args].
Proof. by apply step_intro. Qed.

Lemma logWarningWithError_yields (e : Errno) (format : string)
    (args : list LogArg) (w : World) :
  yields w (logWarningWithError e format args w)
         [EvLog "%s: %v." [AMsg format args; AErr e]].
Proof. by apply step_intro. Qed.

Lemma logVerbose_yields (format : string) (args : list LogArg) (w : World) :
  yields w (logVerbose format args w) (vlog (verbose w) format args).
Proof.
  unfold logVerbose, vlog. destruct (verbose w); simpl.
  - by apply step_intro.
  - apply yields_refl.
Qed.

Lemma logVerbose_fds (format : string) (args : list LogArg) (w : World) :
  w_fds (logVerbose format args w) = w_fds w.
Proof. unfold logVerbose. by destruct (verbose w). Qed.

Lemma logVerbose_inodes (format : string) (args : list LogArg) (w : World) :
  w_inodes (logVerbose format args w) = w_inodes w.
Proof. unfold logVerbose. by destruct (verbose w). Qed.

Lemma logVerbose_fdInode (format : string) (args : list LogArg) (w : World) (fd : Z) :
  fdInode (logVerbose format args w) fd = fdInode w fd.
Proof. unfold fdInode. by rewrite logVerbose_fds, logVerbose_inodes. Qed.

Lemma evolves_fdInode (w w' : World) (fd : Z) (ino : nat) (i : Inode) :
  evolves w w' -> w_fds w' = w_fds w -> fdInode w fd = Some (ino, i) ->
  exists i', fdInode w' fd = Some (ino, i') /\ content i' = content i.
Proof.
  intros E Hf H. apply fdInode_lookup in H as [H1 H2].
  pose proof (ev_content _ _ E ino) as C. rewrite H2 in C.
  destruct (w_inodes w' !! ino) as [i'|] eqn:Ei; [|done].
  exists i'. split; [apply fdInode_intro; congruence|].
  simpl in C. congruence.
Qed.

Lemma evolves_fdSize (w w' : World) (fd : Z) :
  evolves w w' -> w_fds w' = w_fds w -> fdSize w' fd = fdSize w fd.
Proof.
  intros E Hf. unfold fdSize.
  destruct (fdInode w fd) as [[ino i]|] eqn:H.
  - destruct (evolves_fdInode _ _ _ _ _ E Hf H) as (i' & -> & C).
    unfold content in C. congruence.
  - destruct (fdInode w' fd) as [[ino i']|] eqn:H'; [|done].
    exfalso. apply fdInode_lookup in H' as [H1 H2].
    pose proof (ev_content _ _ E ino) as C. rewrite H2 in C.
    destruct (w_inodes w !! ino) as [i|] eqn:Ei; [|done].
    rewrite Hf in H1. by rewrite (fdInode_intro w fd ino i) in H.
Qed.

Lemma Pread_prefix (fd len off : Z) (w w' : World) (got : list byte) :
  Pread fd len off w = (inr got, w') ->
  forall ino i, fdInode w' fd = Some (ino, i) ->
                got `prefix_of` drop (Z.to_nat off) (i_data i).
Proof.
  intros H ino i Hi.
  destruct (Pread_got _ _ _ _ _ _ H) as (_ & _ & ino0 & i0 & i' & _ & Hi' & C & ->).
  rewrite Hi in Hi'. injection Hi' as -> ->.
  unfold content in C. injection C as _ ->. apply take_prefix_of_drop.
Qed.

Lemma copyStep_spec (path : string) (fd buf off : Z) (w w' : World) (s : Step) :
  copyStep path fd buf off w = (s, w') ->
  w_fds w' = w_fds w /\
  exists l, yields w w' l /\ StepTrace path fd buf off (verbose w) s l.
Proof.
  unfold copyStep.
  destruct (Pread fd buf off w) as [[e|got] w1] eqn:ER;
    pose proof (Pread_spec _ _ _ _ _ _ ER) as (Y1 & F1 & _).
  { intros [= <- <-]. split; [done|]. eexists. split.
    - eapply yields_trans; [exact Y1 | apply logWarningWithError_yields].
    - apply ReadFailed. }
  assert (V1 : verbose w1 = verbose w) by apply Y1.
  destruct (Z.of_nat (length got) =? 0) eqn:E0.
  { intros [= <- <-]. split; [done|]. eexists. split; [exact Y1|].
    apply Z.eqb_eq in E0. unfold preadEvent. rewrite E0. apply ReadNothing. }
  apply Z.eqb_neq in E0.
  assert (Hne : got <> []) by (by intros ->).
  set (w2 := logVerbose _ _ w1).
  assert (Y2 : yields w1 w2 (vlog (verbose w) "Read %d from %s at offset %d."
                  [AInt (Z.of_nat (length got)); AStr path; AInt off])).
  { rewrite <- V1. apply logVerbose_yields. }
  assert (F2 : w_fds w2 = w_fds w1) by apply logVerbose_fds.
  assert (V2 : verbose w2 = verbose w) by (rewrite <- V1; apply Y2).
  destruct (Pwrite fd got off w2) as [[e|wdone] w3] eqn:EW.
  all: destruct (Pwrite_spec _ _ _ _ _ _ EW) as (Y3 & F3 & _);
    [intros ino i Hi; unfold w2 in Hi; rewrite logVerbose_fdInode in Hi;
     by eapply Pread_prefix|].
  { intros [= <- <-]. split; [simpl; congruence|]. eexists. split.
    - eapply yields_trans; [exact Y1|]. eapply yields_trans; [exact Y2|].
      eapply yields_trans; [exact Y3 | apply logWarningWithError_yields].
    - by apply WriteFailed. }
  destruct (wdone =? 0) eqn:Ew.
  { apply Z.eqb_eq in Ew. subst wdone.
    intros [= <- <-]. split; [simpl; congruence|]. eexists. split.
    - eapply yields_trans; [exact Y1|]. eapply yields_trans; [exact Y2|].
      eapply yields_trans; [exact Y3 | apply logWarning_yields].
    - by apply WroteNothing. }
  apply Z.eqb_neq in Ew.
  destruct (Pwrite_done _ _ _ _ _ _ EW) as (_ & _ & Hn).
  pose proof (writeCount_bounds (limit (response w2)) (Z.of_nat (length got))
                ltac:(lia)) as Hb.
  rewrite <- Hn in Hb.
  assert (V3 : verbose w3 = verbose w) by (rewrite <- V2; apply Y3).
  set (w4 := logVerbose "Wrote %d to %s at offset %d."
               [AInt wdone; AStr path; AInt off] w3).
  assert (Y4 : yields w3 w4 (vlog (verbose w) "Wrote %d to %s at offset %d."
                               [AInt wdone; AStr path; AInt off])).
  { rewrite <- V3. apply logVerbose_yields. }
  assert (F4 : w_fds w4 = w_fds w3) by apply logVerbose_fds.
  set (short := "Short write to %s at offset %d (wrote %d instead of %d)."%string).
  set (w5 := if wdone <? Z.of_nat (length got)
             then logWarning short
                    [AStr path; AInt off; AInt wdone; AInt (Z.of_nat (length got))] w4
             else w4).
  assert (Y5 : yields w4 w5
                 (if wdone <? Z.of_nat (length got)
                  then [EvLog short [AStr path; AInt off; AInt wdone;
                                     AInt (Z.of_nat (length got))]]
                  else [])).
  { unfold w5. destruct (wdone <? Z.of_nat (length got));
      [apply logWarning_yields | apply yields_refl]. }
  assert (F5 : w_fds w5 = w_fds w4).
  { unfold w5. by destruct (wdone <? Z.of_nat (length got)). }
  intros [= <- <-]. split; [congruence|].
  eexists. split.
  - eapply yields_trans; [exact Y1|]. eapply yields_trans; [exact Y2|].
    eapply yields_trans; [exact Y3|].
    eapply yields_trans; [exact Y4 | exact Y5].
  - apply Wrote. lia.
Qed.

(** A pass that continues has written at least one byte, all of them inside
    the file. *)
Lemma copyStep_progress (path : string) (fd buf off off' : Z) (w w' : World) :
  copyStep path fd buf off w = (Continue off', w') ->
  0 <= off /\
  exists wdone, 0 < wdone /\ off + wdone <= fdSize w fd /\
                off' = wrap64 (off + wdone).
Proof.
  unfold copyStep.
  destruct (Pread fd buf off w) as [[e|got] w1] eqn:ER; [done|].
  destruct (Z.of_nat (length got) =? 0) eqn:E0; [done|].
  apply Z.eqb_neq in E0.
  destruct (Pwrite fd got off _) as [[e|wdone] w3] eqn:EW; [done|].
  destruct (wdone =? 0) eqn:Ew; [done|].
  apply Z.eqb_neq in Ew. intros [= <- <-].
  destruct (Pread_got _ _ _ _ _ _ ER) as (_ & Hoff & ino & i & i' & Hi & _ & _ & Hgot).
  destruct (Pwrite_done _ _ _ _ _ _ EW) as (_ & _ & Hn).
  pose proof (writeCount_bounds (limit (response (logVerbose
     "Read %d from %s at offset %d."
     [AInt (Z.of_nat (length got)); AStr path; AInt off] w1)))
     (Z.of_nat (length got)) ltac:(lia)) as Hb.
  rewrite <- Hn in Hb.
  split; [done|]. exists wdone. split; [lia|]. split; [|done].
  unfold fdSize. rewrite Hi.
  assert (Hlen : (length got <= length (drop (Z.to_nat off) (i_data i)))%nat).
  { rewrite Hgot at 1. rewrite length_take. lia. }
  rewrite length_drop in Hlen. lia.
Qed.

Lemma copyLoop_spec (fuel : nat) (path : string) (fd buf off : Z) (w w' : World)
    (r : option bool) :
  copyLoop fuel path fd buf off w = (r, w') ->
  w_fds w' = w_fds w /\
  exists l, yields w w' l /\ LoopTrace path fd buf (verbose w) off r l.
Proof.
  revert off w. induction fuel as [|fuel IH]; intros off w; simpl.
  { intros [= <- <-]. split; [done|]. exists []. split; [apply yields_refl|].
    apply LoopUnfinished. }
  destruct (copyStep path fd buf off w) as [s w1] eqn:ES.
  destruct (copyStep_spec _ _ _ _ _ _ _ ES) as (F1 & l1 & Y1 & T1).
  destruct s as [off'| |].
  - intros H. destruct (IH _ _ H) as (F2 & l2 & Y2 & T2).
    split; [congruence|]. exists (l1 ++ l2). split; [by eapply yields_trans|].
    eapply LoopContinued; [exact T1|].
    replace (verbose w) with (verbose w1); [done | apply Y1].
  - intros [= <- <-]. split; [done|]. exists l1. split; [done|]. by apply LoopBroke.
  - intros [= <- <-]. split; [done|]. exists l1. split; [done|]. by apply LoopFailed.
Qed.

(** The loop ends: with more fuel than bytes left in the file, it reaches
    [break] or [return false]. *)
Lemma copyLoop_terminates (fuel : nat) (path : string) (fd buf off : Z) (w : World) :
  fdSize w fd <= maxInt64 -> 0 <= off ->
  (Z.to_nat (fdSize w fd - off) < fuel)%nat ->
  (copyLoop fuel path fd buf off w).1 <> None.
Proof.
  revert off w. induction fuel as [|fuel IH]; intros off w Hmax Hoff Hfuel; [lia|].
  simpl. destruct (copyStep path fd buf off w) as [s w1] eqn:ES.
  destruct s as [off'| |]; [|done..].
  destruct (copyStep_progress _ _ _ _ _ _ _ ES) as (_ & wdone & Hw & Hin & ->).
  destruct (copyStep_spec _ _ _ _ _ _ _ ES) as (F1 & l1 & [E1 _] & _).
  pose proof (evolves_fdSize _ _ fd E1 F1) as Hsz.
  rewrite wrap64_small by (rewrite minInt64_value; lia).
  apply IH; rewrite ?Hsz; lia.
Qed.

(** ** [statTimes] on the snapshot the kernel fills in *)

Lemma statTimes_statOf (p : Platform) (i : Inode) :
  statTimes (statOf p i) =
  match statLayout p with
  | OtherNames => (zeroTimespec, zeroTimespec, false)
  | _ => (i_atime i, i_mtime i, true)
  end.
Proof. unfold statTimes, statOf, FieldByName. by destruct (statLayout p). Qed.

Lemma Mode_statOf (p : Platform) (i : Inode) : Mode (statOf p i) = i_mode i.
Proof. unfold statOf. by destruct (statLayout p). Qed.

(** ** The events of a whole call of [rewriteFile] *)

(** What [restoreTimes] does to the file behind the descriptor. *)
Lemma restoreTimes_spec (path : string) (fd : Z) (p : Platform) (i0 : Inode)
    (w w' : World) (ret : bool) :
  restoreTimes path fd (statOf p i0) w = (ret, w') ->
  w_fds w' = w_fds w /\
  exists l, yields w w' l /\
    match statLayout p with
    | OtherNames => ret = false /\ l = [report path] /\ w_inodes w' = w_inodes w
    | _ =>
        exists atv mtv,
          atv = NsecToTimeval (TimespecToNsec (i_atime i0)) /\
          mtv = NsecToTimeval (TimespecToNsec (i_mtime i0)) /\
          if ret
          then l = [EvFutimes fd atv mtv None]
                     ++ vlog (verbose w) "Restored access and modification times on %s."
                          [AStr path] /\
               exists ino i, fdInode w fd = Some (ino, i) /\
                 w_inodes w' = <[ino := setMtime (timevalToTimespec mtv)
                                          (setAtime (timevalToTimespec atv) i)]> (w_inodes w)
          else exists e,
               l = [EvFutimes fd atv mtv (Some e);
                    EvLog "%s: %v."
                      [AMsg "Unable to restore access and modification times on %s"
                         [AStr path]; AErr e]] /\
               w_inodes w' = w_inodes w
    end.
Proof.
  unfold restoreTimes. rewrite statTimes_statOf.
  destruct (statLayout p) eqn:EL; simpl.
  3: { intros [= <- <-]. split; [done|]. eexists. split; [apply logWarning_yields|done]. }
  all: destruct (Futimes _ _ _ w) as [[e|] w1] eqn:EF;
    destruct (Futimes_spec _ _ _ _ _ _ EF) as (Y1 & F1 & _ & HI);
    intros [= <- <-].
  all: split; [by rewrite ?logVerbose_fds|].
  all: eexists; split;
    [eapply yields_trans; [exact Y1|];
     first [apply logWarningWithError_yields | apply logVerbose_yields]|].
  all: do 2 eexists; split; [done|]; split; [done|].
  all: try (exists e; split; done).
  all: replace (verbose w1) with (verbose w) by (symmetry; apply Y1).
  all: split; [done|]; destruct HI as (_ & ino & i & Hi & HI);
    exists ino, i; by rewrite logVerbose_inodes.
Qed.

Lemma LoopTrace_verbose (path : string) (fd buf off : Z) (v v' : bool)
    (r : option bool) (l : list Event) :
  v = v' -> LoopTrace path fd buf v off r l -> LoopTrace path fd buf v' off r l.
Proof. by intros ->. Qed.

Lemma rewriteOpen_spec (fuel : nat) (path : string) (fd buf : Z) (w w' : World)
    (ret : bool) (ino : nat) (i : Inode) :
  fdInode w fd = Some (ino, i) ->
  rewriteOpen fuel path fd buf w = (Some ret, w') ->
  w_fds w' = w_fds w /\
  exists l, yields w w' l /\
    BodyTrace path fd buf (verbose w) (statLayout (w_platform w)) ret l /\
    (ret = true ->
     fileType i = S_IFREG /\
     exists i', w_inodes w' !! ino = Some i' /\ content i' = content i /\
                i_atime i' = restoredTime (i_atime i) /\
                i_mtime i' = restoredTime (i_mtime i)).
Proof.
  intros Hfd. unfold rewriteOpen.
  destruct (Fstat fd w) as [[e|sb] w1] eqn:ES;
    destruct (Fstat_spec _ _ _ _ ES) as (Y1 & F1 & I1 & _ & Hsb).
  { intros [= <- <-]. split; [done|]. eexists. split.
    - eapply yields_trans; [exact Y1 | apply logWarningWithError_yields].
    - split; [apply StatFailed | done]. }
  destruct Hsb as (_ & ino1 & i1 & Hfd1 & ->).
  rewrite Hfd in Hfd1. injection Hfd1 as <- <-.
  rewrite Mode_statOf.
  destruct (Z.land (i_mode i) S_IFMT =? S_IFREG) eqn:Ereg; simpl.
  2: { intros [= <- <-]. split; [done|]. eexists. split.
       - eapply yields_trans; [exact Y1 | apply logWarning_yields].
       - split; [apply NotRegular | done]. }
  apply Z.eqb_eq in Ereg.
  destruct (copyLoop fuel path fd buf 0 w1) as [[[]|] w2] eqn:EL; [| |done];
    destruct (copyLoop_spec _ _ _ _ _ _ _ _ EL) as (F2 & l2 & Y2 & T2);
    apply (LoopTrace_verbose _ _ _ _ _ (verbose w)) in T2; try apply Y1.
  2: { intros [= <- <-]. split; [congruence|]. eexists. split.
       - eapply yields_trans; [exact Y1 | exact Y2].
       - split; [by apply CopyFailed | done]. }
  destruct (restoreTimes path fd (statOf (w_platform w) i) w2) as [ret' w3] eqn:ER.
  intros [= <- <-].
  destruct (restoreTimes_spec _ _ _ _ _ _ _ ER) as (F3 & l3 & Y3 & H3).
  split; [congruence|].
  exists (([fstatEvent fd (inr (statOf (w_platform w) i))] ++ l2) ++ l3).
  split; [eapply yields_trans; [eapply yields_trans; [exact Y1 | exact Y2] | exact Y3]|].
  assert (V2 : verbose w2 = verbose w).
  { transitivity (verbose w1); [apply Y2 | apply Y1]. }
  destruct (statLayout (w_platform w)) eqn:ELay.
  3: { destruct H3 as (-> & -> & _). split; [|done].
       rewrite <- (assoc (++)). by apply Unsupported. }
  all: destruct H3 as (atv & mtv & Ha & Hm & H3).
  all: destruct ret'.
  all: try (destruct H3 as (e & -> & _); split; [|done];
            rewrite <- (assoc (++)); by apply RestoreFailed).
  all: destruct H3 as (-> & ino3 & i3 & Hfd3 & HI3).
  all: split; [rewrite <- (assoc (++)), V2; by apply Restored|].
  all: intros _; split; [done|].
  all: assert (E02 : evolves w w2) by (eapply evolves_trans; [apply Y1 | apply Y2]).
  all: destruct (evolves_fdInode w w2 fd ino i E02 ltac:(congruence) Hfd)
         as (i2 & Hfd2 & C2).
  all: rewrite Hfd3 in Hfd2; injection Hfd2 as -> ->.
  all: eexists; split; [rewrite HI3; apply lookup_insert_eq|].
  all: unfold restoredTime; rewrite <- Ha, <- Hm; by split.
Qed.

Lemma make_Some (p : Platform) (n buf : Z) :
  make p n = Some buf -> buf = n /\ 0 <= n <= Z.of_N (maxAlloc p).
Proof.
  unfold make. destruct (n <? 0) eqn:E1; [done|].
  destruct (Z.of_N (maxAlloc p) <? n) eqn:E2; [done|].
  apply Z.ltb_ge in E1, E2. simpl. intros [= <-]. lia.
Qed.

Lemma make_None (p : Platform) (n : Z) :
  make p n = None <-> n < 0 \/ Z.of_N (maxAlloc p) < n.
Proof.
  unfold make. destruct (n <? 0) eqn:E1; destruct (Z.of_N (maxAlloc p) <? n) eqn:E2;
    simpl; try apply Z.ltb_lt in E1; try apply Z.ltb_lt in E2;
    try apply Z.ltb_ge in E1; try apply Z.ltb_ge in E2; split; try done; lia.
Qed.

(** Everything a returning call of [rewriteFile] does. *)
Lemma rewriteFile_spec (fuel : nat) (path : string) (bs : Z) (w w' : World) (r : bool) :
  rewriteFile fuel path bs w = (Returned r, w') ->
  evolves w w' /\
  FileTrace path bs (verbose w) (statLayout (w_platform w)) r (news w w') /\
  (r = true ->
   exists ino i i',
     pathInode w path = Some (ino, i) /\ pathInode w' path = Some (ino, i') /\
     fileType i = S_IFREG /\ content i' = content i /\
     i_atime i' = restoredTime (i_atime i) /\
     i_mtime i' = restoredTime (i_mtime i)).
Proof.
  unfold rewriteFile.
  destruct (make (w_platform w) bs) as [buf|] eqn:EM; [|done].
  apply make_Some in EM as [-> _].
  destruct (Open path w) as [[e|fd] w1] eqn:EO;
    destruct (Open_spec _ _ _ _ EO) as (Y1 & I1 & _ & HO).
  { intros [= <- <-].
    pose proof (yields_trans _ _ _ _ _ Y1 (logWarningWithError_yields e
                  "Unable to open %s" [AStr path] w1)) as [E N].
    split; [done|]. split; [|done]. rewrite N. apply OpenFailed. }
  destruct HO as (_ & ino & i & Hp & Hfd & _ & _ & _).
  destruct (rewriteOpen fuel path fd bs w1) as [[ret|] w2] eqn:ER; [|done].
  intros [= <- <-].
  destruct (rewriteOpen_spec _ _ _ _ _ _ _ _ _ Hfd ER) as (F2 & l & Y2 & T & HT).
  destruct (Close_spec fd w2) as (Y3 & I3 & _).
  pose proof (yields_trans _ _ _ _ _ Y1 (yields_trans _ _ _ _ _ Y2 Y3)) as [E N].
  split; [done|]. split.
  { rewrite N. apply Opened.
    replace (verbose w) with (verbose w1) by apply Y1.
    replace (w_platform w) with (w_platform w1) by apply Y1. done. }
  intros Hr. destruct (HT Hr) as (Hreg & i' & Hi' & C & Ha & Hm).
  exists ino, i, i'. split; [done|]. split; [|done].
  unfold pathInode in *. rewrite (ev_names _ _ E), I3.
  destruct (w_names w !! path) as [k|]; [|done].
  destruct (w_inodes w !! k); [|done]. injection Hp as -> ->. by rewrite Hi'.
Qed.

Lemma rewriteFile_panics (fuel : nat) (path : string) (bs : Z) (w w' : World)
    (msg : string) :
  rewriteFile fuel path bs w = (Panicked msg, w') <->
  (bs < 0 \/ Z.of_N (maxAlloc (w_platform w)) < bs) /\ w' = w /\
  msg = "makeslice: len out of range"%string.
Proof.
  unfold rewriteFile. rewrite <- make_None.
  destruct (make (w_platform w) bs) as [buf|].
  - split; [|by intros [? _]].
    destruct (Open path w) as [[e|fd] w1]; [done|].
    by destruct (rewriteOpen fuel path fd buf w1) as [[ret|] w2].
  - split; [by intros [= <- <-] | by intros (_ & -> & ->)].
Qed.

Lemma fits_evolves (fuel : nat) (w w' : World) :
  evolves w w' -> fits fuel w -> fits fuel w'.
Proof.
  intros E H ino i' Hi'. pose proof (ev_content _ _ E ino) as C.
  rewrite Hi' in C. destruct (w_inodes w !! ino) as [i|] eqn:Hi; [|done].
  simpl in C. injection C as _ ->. eauto.
Qed.

(** With enough fuel the model of [rewriteFile] reaches the end of the call. *)
Lemma rewriteFile_terminates (fuel : nat) (path : string) (bs : Z) (w : World) :
  fits fuel w -> (rewriteFile fuel path bs w).1 <> OutOfFuel.
Proof.
  intros Hfit. unfold rewriteFile.
  destruct (make (w_platform w) bs) as [buf|]; [|done].
  destruct (Open path w) as [[e|fd] w1] eqn:EO; [done|].
  destruct (Open_spec _ _ _ _ EO) as (_ & I1 & _ & _ & ino & i & _ & Hfd & _).
  destruct (rewriteOpen fuel path fd buf w1) as [[ret|] w2] eqn:ER; [done|].
  exfalso. revert ER. unfold rewriteOpen.
  destruct (Fstat fd w1) as [[e|sb] w1'] eqn:ES; [done|].
  destruct (Fstat_spec _ _ _ _ ES) as (_ & F2 & I2 & _).
  destruct (negb _); [done|].
  pose proof (copyLoop_terminates fuel path fd buf 0 w1') as HT.
  destruct (copyLoop fuel path fd buf 0 w1') as [[[]|] w2'] eqn:EL;
    [by destruct (restoreTimes _ _ _ _) | done |].
  intros _.
  assert (Hfd' : fdInode w1' fd = Some (ino, i)).
  { unfold fdInode in *. by rewrite F2, I2. }
  apply fdInode_lookup in Hfd as [_ Hi]. rewrite I1 in Hi.
  destruct (Hfit _ _ Hi) as [Hmax Hfuel].
  apply HT; [| lia | | done]; unfold fdSize; rewrite Hfd'; lia.
Qed.

(** ** Kinds of events *)

Lemma StepTrace_events (path : string) (fd buf off : Z) (v : bool) (s : Step)
    (l : list Event) :
  StepTrace path fd buf off v s l -> Forall (fun ev => isLoopEvent ev) l.
Proof.
  intros H. destruct H; destruct v; simpl;
    try match goal with |- context [?a <? ?b] => destruct (a <? b) end;
    by repeat constructor.
Qed.

Lemma LoopTrace_events (path : string) (fd buf off : Z) (v : bool)
    (r : option bool) (l : list Event) :
  LoopTrace path fd buf v off r l -> Forall (fun ev => isLoopEvent ev) l.
Proof.
  induction 1 as [| ? ? H | ? ? H | ? ? ? ? ? H _ IH].
  - constructor.
  - by eapply StepTrace_events.
  - by eapply StepTrace_events.
  - apply Forall_app. split; [by eapply StepTrace_events | done].
Qed.

(** ** The file a path names *)

Lemma evolves_data (w w' : World) (ino : nat) :
  evolves w w' -> i_data <$> (w_inodes w' !! ino) = i_data <$> (w_inodes w !! ino).
Proof.
  intros E. pose proof (ev_content _ _ E ino) as C.
  destruct (w_inodes w' !! ino), (w_inodes w !! ino); simpl in *;
    unfold content in *; congruence.
Qed.

Lemma evolves_fileData (w w' : World) (path : string) :
  evolves w w' -> fileData w' path = fileData w path.
Proof.
  intros E. unfold fileData, pathInode. rewrite (ev_names _ _ E).
  destruct (w_names w !! path) as [ino|]; [|done].
  pose proof (evolves_data _ _ ino E) as C.
  destruct (w_inodes w' !! ino), (w_inodes w !! ino); simpl in *; congruence.
Qed.

Lemma rewriteFile_evolves (fuel : nat) (path : string) (bs : Z) (w w' : World)
    (r : bool) :
  rewriteFile fuel path bs w = (Returned r, w') -> evolves w w'.
Proof. intros H. by apply rewriteFile_spec in H as [E _]. Qed.

(** * The claims *)

(** C1. Byte fidelity.  If [rewriteFile] reports success for a positive
    buffer size, the path names a regular file and every byte of it, and of
    every other file, is what it was before the call, whatever the size of the
    file and of the buffer; two successful calls from the same state with two
    buffer sizes leave the same file behind, bytes and timestamps. *)
Theorem rewriteFile_preserves_bytes (fuel : nat) (path : string) (bs : Z)
    (w w' : World) :
  0 < bs ->
  rewriteFile fuel path bs w = (Returned true, w') ->
  isRegular w path /\
  fileData w' path = fileData w path /\
  (forall ino, i_data <$> (w_inodes w' !! ino) = i_data <$> (w_inodes w !! ino)) /\
  (forall fuel2 bs2 w2,
     0 < bs2 -> rewriteFile fuel2 path bs2 w = (Returned true, w2) ->
     fileData w2 path = fileData w' path /\ fileTimes w2 path = fileTimes w' path).
Proof.
  intros Hbs H.
  destruct (rewriteFile_spec _ _ _ _ _ _ H) as (E & _ & HT).
  destruct (HT eq_refl) as (ino & i & i' & Hp & Hp' & Hreg & C & Ha & Hm).
  split; [by exists ino, i|]. split; [by apply evolves_fileData|].
  split; [intros k; by apply evolves_data|].
  intros fuel2 bs2 w2 Hbs2 H2.
  destruct (rewriteFile_spec _ _ _ _ _ _ H2) as (E2 & _ & HT2).
  destruct (HT2 eq_refl) as (ino2 & i2 & i2' & Hq & Hq' & _ & C2 & Ha2 & Hm2).
  rewrite Hp in Hq. injection Hq as <- <-.
  split.
  - by rewrite (evolves_fileData _ _ _ E2), (evolves_fileData _ _ _ E).
  - unfold fileTimes. rewrite Hp', Hq'. congruence.
Qed.

(** C1, on a file of five bytes rewritten through buffers of 2 and of 7
    bytes. *)
Lemma rewriteFile_preserves_bytes_witness :
  let w := sampleWorld linux_amd64 calm in
  let w' := (rewriteFile 10 "data.bin" 2 w).2 in
  let w2 := (rewriteFile 10 "data.bin" 7 w).2 in
  fileData w' "data.bin" = Some sampleData /\
  fileData w2 "data.bin" = fileData w' "data.bin".
Proof.
  intros w w' w2.
  destruct (rewriteFile_preserves_bytes 10 "data.bin" 2 w w') as (_ & Hd & _ & Hind);
    [lia | vm_compute; reflexivity |].
  split; [exact Hd|].
  apply (Hind 10%nat 7); [lia | vm_compute; reflexivity].
Defined.

(** ** Precision of the restored timestamps *)

Lemma TimespecToNsec_nanos (ts : Timespec) :
  ordinaryTime ts -> TimespecToNsec ts = nanos ts.
Proof.
  intros [HS HN]. unfold TimespecToNsec, nanos.
  rewrite (wrap64_within (ts_Sec ts * 1000000000)) by lia.
  apply wrap64_within. lia.
Qed.

(** The restored time is the captured one rounded up to the microsecond. *)
Lemma restoredTime_precision (ts : Timespec) :
  ordinaryTime ts ->
  0 <= nanos (restoredTime ts) - nanos ts < 1000 /\
  nanos (restoredTime ts) `mod` 1000 = 0 /\
  0 <= ts_Nsec (restoredTime ts) < 1000000000 /\
  (ts_Nsec ts `mod` 1000 = 0 -> restoredTime ts = ts).
Proof.
  intros Hord. pose proof Hord as [HS HN].
  unfold restoredTime. rewrite (TimespecToNsec_nanos ts Hord).
  unfold NsecToTimeval.
  assert (Hn : 0 <= nanos ts <= 9000000000 * 1000000000 + 999999999)
    by (unfold nanos; lia).
  rewrite (wrap64_within (nanos ts + 999)) by lia.
  set (n := nanos ts + 999) in *.
  pose proof (Z.mod_pos_bound n 1000000000 ltac:(lia)) as B1.
  rewrite Z.rem_mod_nonneg by lia.
  rewrite (Z.quot_div_nonneg (n `mod` 1000000000) 1000) by lia.
  rewrite (Z.quot_div_nonneg n 1000000000) by lia.
  assert (Hu : 0 <= (n `mod` 1000000000) `div` 1000 < 1000000).
  { pose proof (Z.mod_pos_bound n 1000000000). split.
    - apply Z.div_pos; lia.
    - apply Z.div_lt_upper_bound; lia. }
  destruct (_ <? 0) eqn:E; [apply Z.ltb_lt in E; lia|]. clear E.
  pose proof (Z.div_mod n 1000000000 ltac:(lia)) as D1.
  pose proof (Z.div_mod (n `mod` 1000000000) 1000 ltac:(lia)) as D2.
  pose proof (Z.mod_pos_bound (n `mod` 1000000000) 1000 ltac:(lia)) as B2.
  assert (Hn' : n = nanos ts + 999) by done.
  clearbody n.
  remember (n `div` 1000000000) as sec eqn:Hsec.
  remember ((n `mod` 1000000000) `div` 1000) as usec eqn:Husec.
  remember (n `mod` 1000000000) as rem9 eqn:Hrem9.
  remember (rem9 `mod` 1000) as rem3 eqn:Hrem3.
  unfold timevalToTimespec, nanos in *. cbn [ts_Sec ts_Nsec tv_Sec tv_Usec].
  split; [lia|]. split.
  { replace (sec * 1000000000 + usec * 1000)
      with ((sec * 1000000 + usec) * 1000) by lia.
    apply Z_mod_mult. }
  split; [lia|].
  intros Hm. destruct ts as [s ns]. unfold nanos in *. simpl in *.
  pose proof (Z.div_mod ns 1000 ltac:(lia)) as D3.
  assert (Hq : sec = s /\ rem9 = ns + 999).
  { apply (Z.div_mod_unique 1000000000 sec s rem9 (ns + 999)); lia. }
  destruct Hq as [-> Hr]. f_equal.
  rewrite Husec, Hr.
  assert ((ns + 999) `div` 1000 = ns `div` 1000).
  { symmetry. apply (Z.div_unique _ _ _ 999); lia. }
  lia.
Qed.

(** Timestamp fidelity at or after the epoch.  After a successful call the
    access and the modification time of the file are the ones of the
    snapshot taken right after opening, as [Futimes] stores them; for a
    captured time at or after the epoch that is the time rounded up to the
    microsecond: less than a microsecond later, and equal when the captured
    time has whole microseconds.  If the restoring call fails the result is
    failure, although the copy loop had run to its end and the bytes are in
    place. *)
Theorem rewriteFile_restores_timestamps (fuel : nat) (path : string) (bs : Z)
    (w w' : World) (r : bool) :
  rewriteFile fuel path bs w = (Returned r, w') ->
  (r = true ->
   exists ino i i',
     pathInode w path = Some (ino, i) /\ pathInode w' path = Some (ino, i') /\
     i_atime i' = restoredTime (i_atime i) /\
     i_mtime i' = restoredTime (i_mtime i) /\
     (ordinaryTime (i_atime i) ->
      0 <= nanos (i_atime i') - nanos (i_atime i) < 1000 /\
      (ts_Nsec (i_atime i) `mod` 1000 = 0 -> i_atime i' = i_atime i)) /\
     (ordinaryTime (i_mtime i) ->
      0 <= nanos (i_mtime i') - nanos (i_mtime i) < 1000 /\
      (ts_Nsec (i_mtime i) `mod` 1000 = 0 -> i_mtime i' = i_mtime i))) /\
  (forall fd atv mtv e,
     EvFutimes fd atv mtv (Some e) ∈ news w w' ->
     r = false /\ fileData w' path = fileData w path /\
     exists l post,
       news w w' = [EvOpen path (inr fd); EvFstat fd None] ++ l
                     ++ EvFutimes fd atv mtv (Some e) :: post /\
       LoopTrace path fd bs (verbose w) 0 (Some true) l).
Proof.
  intros H.
  destruct (rewriteFile_spec _ _ _ _ _ _ H) as (E & T & HT).
  split.
  { intros Hr. destruct (HT Hr) as (ino & i & i' & Hp & Hp' & _ & _ & Ha & Hm).
    exists ino, i, i'. do 4 (split; [done|]).
    split; intros Ho; destruct (restoredTime_precision _ Ho) as (P1 & _ & _ & P2);
      rewrite ?Ha, ?Hm; split; [done | | done |]; intros Hz;
      rewrite (P2 Hz); done. }
  intros fd atv mtv e Hin.
  assert (Hnot : forall l, Forall (fun ev => isLoopEvent ev) l ->
                           EvFutimes fd atv mtv (Some e) ∈ l -> False).
  { intros l Hl Hel. rewrite Forall_forall in Hl. by apply Hl in Hel. }
  destruct T as [e0 | fd0 ret body B].
  { apply elem_of_cons in Hin as [Hin|Hin]; [discriminate|].
    apply elem_of_cons in Hin as [Hin|Hin]; [discriminate|].
    by apply elem_of_nil in Hin. }
  apply elem_of_cons in Hin as [Hin|Hin]; [discriminate|].
  apply elem_of_app in Hin as [Hin|Hin].
  2: { apply elem_of_cons in Hin as [Hin|Hin]; [discriminate|].
       by apply elem_of_nil in Hin. }
  destruct B as [e1 | | l L | l HL L | l atv0 mtv0 e1 HL L | l atv0 mtv0 HL L].
  all: try apply LoopTrace_events in L as HF.
  all: apply elem_of_cons in Hin as [Hin|Hin]; [discriminate|].
  all: repeat (apply elem_of_app in Hin as [Hin|Hin]; [exfalso; by eapply Hnot|]).
  all: try (apply elem_of_cons in Hin as [Hin|Hin]; [discriminate|]).
  all: try (by apply elem_of_nil in Hin).
  all: try (exfalso; by eapply Hnot).
  - apply elem_of_cons in Hin as [Hin|Hin].
    2: { apply elem_of_cons in Hin as [Hin|Hin]; [discriminate|].
         by apply elem_of_nil in Hin. }
    injection Hin as -> -> -> ->.
    split; [done|]. split; [by apply evolves_fileData|].
    exists l. eexists. split; [|done]. simpl. rewrite <- !(assoc (++)). done.
  - unfold vlog in Hin. destruct (verbose w).
    + apply elem_of_cons in Hin as [Hin|Hin]; [discriminate|].
      by apply elem_of_nil in Hin.
    + by apply elem_of_nil in Hin.
Qed.

(** The same on a run that succeeds and on one whose [Futimes] (system call
    number 5) fails with [EIO]. *)
Lemma rewriteFile_restores_timestamps_witness :
  let w := sampleWorld linux_amd64 calm in
  let wf := sampleWorld linux_amd64 (failingAt 5 EIO) in
  ((rewriteFile 10 "data.bin" 7 w).1 = Returned true /\
   exists ino i i',
     pathInode w "data.bin" = Some (ino, i) /\
     pathInode (rewriteFile 10 "data.bin" 7 w).2 "data.bin" = Some (ino, i') /\
     i_atime i' = restoredTime (i_atime i) /\
     i_mtime i' = restoredTime (i_mtime i)) /\
  ((rewriteFile 10 "data.bin" 7 wf).1 = Returned false /\
   fileData (rewriteFile 10 "data.bin" 7 wf).2 "data.bin" = Some sampleData).
Proof.
  intros w wf. split.
  - assert (H : rewriteFile 10 "data.bin" 7 w
                = (Returned true, (rewriteFile 10 "data.bin" 7 w).2))
      by (vm_compute; reflexivity).
    split; [vm_compute; reflexivity|].
    destruct (rewriteFile_restores_timestamps _ _ _ _ _ _ H) as [HT _].
    destruct (HT eq_refl) as (ino & i & i' & H1 & H2 & H3 & H4 & _).
    exists ino, i, i'. exact (conj H1 (conj H2 (conj H3 H4))).
  - assert (H : rewriteFile 10 "data.bin" 7 wf
                = (Returned false, (rewriteFile 10 "data.bin" 7 wf).2))
      by (vm_compute; reflexivity).
    destruct (rewriteFile_restores_timestamps _ _ _ _ _ _ H) as [_ HF].
    destruct (HF 3 (mkTimeval 1700000000 123000) (mkTimeval 1700000100 456000) EIO)
      as (Hr & Hd & _).
    + apply (list_elem_of_lookup_2 _ 5%nat). vm_compute. reflexivity.
    + split; [vm_compute; reflexivity|]. rewrite Hd. vm_compute. reflexivity.
Defined.

(** ** Timestamps before the epoch *)

(** [NsecToTimeval] adds 999 and then divides with truncation toward zero,
    which for a negative count rounds up once more: a time before the epoch
    comes back between 999 and 1998 nanoseconds later, and a whole number of
    microseconds comes back one microsecond later. *)
Lemma restoredTime_before_epoch (ts : Timespec) :
  beforeEpoch ts ->
  999 <= nanos (restoredTime ts) - nanos ts <= 1998 /\
  (ts_Nsec ts `mod` 1000 = 0 -> nanos (restoredTime ts) = nanos ts + 1000).
Proof.
  intros (HS & HN & Hneg). unfold nanos in Hneg.
  unfold restoredTime, TimespecToNsec.
  rewrite (wrap64_within (ts_Sec ts * 1000000000)) by lia.
  rewrite (wrap64_within (ts_Sec ts * 1000000000 + ts_Nsec ts)) by lia.
  unfold NsecToTimeval.
  rewrite (wrap64_within (ts_Sec ts * 1000000000 + ts_Nsec ts + 999)) by lia.
  pose proof (Z.div_mod (ts_Nsec ts) 1000 ltac:(lia)) as D.
  unfold nanos.
  generalize dependent (ts_Nsec ts `div` 1000). intros k D.
  generalize dependent (ts_Nsec ts `mod` 1000). intros j D.
  generalize dependent (ts_Nsec ts). intros ns HN Hneg D.
  generalize dependent (ts_Sec ts). intros s HS Hneg.
  set (n := s * 1000000000 + ns + 999).
  assert (Hn : n = s * 1000000000 + ns + 999 /\ n <= 0) by (unfold n; lia).
  clearbody n. destruct Hn as [Hn Hn0].
  pose proof (Z.quot_rem' n 1000000000) as Q1.
  pose proof (Z.rem_bound_pos_neg n 1000000000 ltac:(lia) Hn0) as B1.
  generalize dependent (Z.rem n 1000000000). intros r Q1 B1.
  generalize dependent (Z.quot n 1000000000). intros q Q1.
  pose proof (Z.quot_rem' r 1000) as Q2.
  pose proof (Z.rem_bound_pos_neg r 1000 ltac:(lia) ltac:(lia)) as B2.
  generalize dependent (Z.rem r 1000). intros r2 Q2 B2.
  generalize dependent (Z.quot r 1000). intros u Q2.
  destruct (u <? 0) eqn:Eu; unfold timevalToTimespec, nanos;
    cbn [tv_Sec tv_Usec ts_Sec ts_Nsec].
  - apply Z.ltb_lt in Eu.
    rewrite (wrap64_within (q - 1)), (wrap64_within (u + 1000000)) by lia.
    split; [lia|]. intros ->.
    assert (E : r2 + 1 = 1000 * (s * 1000000 + k - q * 1000000 - u + 1)) by lia.
    lia.
  - apply Z.ltb_ge in Eu. split; [lia|]. intros ->.
    assert (E : r2 + 1 = 1000 * (s * 1000000 + k - q * 1000000 - u + 1)) by lia.
    lia.
Qed.

(** C2. Timestamp fidelity fails before the epoch.  A successful call leaves
    in the file the times of the snapshot as converted by [NsecToTimeval],
    and for a captured time before the epoch these are not the captured
    ones to the microsecond of the restoring call: the file's time ends
    between 999 and 1998 nanoseconds later than the one captured, and a
    captured time of whole microseconds, which [Futimes] could store as it
    is, ends exactly one microsecond later.  Every rewrite of such a file
    moves its times forward again. *)
Theorem rewriteFile_moves_times_before_epoch (fuel : nat) (path : string) (bs : Z)
    (w w' : World) (ino : nat) (i : Inode) :
  rewriteFile fuel path bs w = (Returned true, w') ->
  pathInode w path = Some (ino, i) ->
  exists i',
    pathInode w' path = Some (ino, i') /\
    (beforeEpoch (i_atime i) ->
     999 <= nanos (i_atime i') - nanos (i_atime i) <= 1998 /\
     (ts_Nsec (i_atime i) `mod` 1000 = 0 ->
      nanos (i_atime i') = nanos (i_atime i) + 1000)) /\
    (beforeEpoch (i_mtime i) ->
     999 <= nanos (i_mtime i') - nanos (i_mtime i) <= 1998 /\
     (ts_Nsec (i_mtime i) `mod` 1000 = 0 ->
      nanos (i_mtime i') = nanos (i_mtime i) + 1000)).
Proof.
  intros H Hp.
  destruct (rewriteFile_spec _ _ _ _ _ _ H) as (_ & _ & HT).
  destruct (HT eq_refl) as (ino0 & i0 & i' & Hp0 & Hp' & _ & _ & Ha & Hm).
  rewrite Hp in Hp0. injection Hp0 as <- <-.
  exists i'. split; [exact Hp'|].
  rewrite Ha, Hm. split; apply restoredTime_before_epoch.
Qed.

(** C2, on a file whose times are one hundred seconds before the epoch: the
    call succeeds, the access time goes from 2 to 2000 nanoseconds past the
    second and the modification time, a whole second, goes to 1000; a second
    call moves both by another microsecond. *)
Lemma rewriteFile_moves_times_before_epoch_witness :
  let w := oldWorld in
  let w1 := (rewriteFile 10 "old.bin" 4 w).2 in
  let w2 := (rewriteFile 10 "old.bin" 4 w1).2 in
  (rewriteFile 10 "old.bin" 4 w).1 = Returned true /\
  fileTimes w "old.bin" = Some (mkTimespec (-100) 2, mkTimespec (-100) 0) /\
  fileTimes w1 "old.bin" = Some (mkTimespec (-100) 2000, mkTimespec (-100) 1000) /\
  fileTimes w2 "old.bin" = Some (mkTimespec (-100) 3000, mkTimespec (-100) 2000) /\
  exists i',
    pathInode w1 "old.bin" = Some (1%nat, i') /\
    nanos (i_atime i') - nanos (i_atime oldFile) = 1998 /\
    nanos (i_mtime i') = nanos (i_mtime oldFile) + 1000.
Proof.
  intros w w1 w2.
  split; [vm_compute; reflexivity|]. split; [vm_compute; reflexivity|].
  split; [vm_compute; reflexivity|]. split; [vm_compute; reflexivity|].
  destruct (rewriteFile_moves_times_before_epoch 10 "old.bin" 4 w w1 1%nat oldFile)
    as (i' & Hp' & _ & Hm); [vm_compute; reflexivity | vm_compute; reflexivity |].
  exists i'. split; [exact Hp'|].
  assert (Hi : i' = mkInode (S_IFREG + 0x1A4) sampleData
                      (mkTimespec (-100) 2000) (mkTimespec (-100) 1000)).
  { assert (Hc : pathInode w1 "old.bin"
                 = Some (1%nat, mkInode (S_IFREG + 0x1A4) sampleData
                                  (mkTimespec (-100) 2000) (mkTimespec (-100) 1000)))
      by (vm_compute; reflexivity).
    rewrite Hp' in Hc. injection Hc as ->. reflexivity. }
  split; [rewrite Hi; reflexivity|].
  apply Hm; [unfold beforeEpoch, nanos; simpl; lia | reflexivity].
Defined.

(** ** Zero-byte and short writes *)

Lemma StepTrace_head (path : string) (fd buf off : Z) (v : bool) (s : Step)
    (l : list Event) :
  StepTrace path fd buf off v s l ->
  exists res, head l = Some (EvPread fd buf off res).
Proof. intros []; simpl; eauto. Qed.

Lemma StepTrace_wentWell (path : string) (fd buf off : Z) (v : bool) (s : Step)
    (l : list Event) :
  StepTrace path fd buf off v s l -> s <> Fail ->
  Forall (fun ev => wentWell ev) l.
Proof.
  intros H Hs. destruct H as [ | | | | got wdone Hw]; try done.
  - by repeat constructor.
  - assert (Hpos : (0 <? wdone) = true) by (apply Z.ltb_lt; lia).
    destruct v; simpl; destruct (wdone <? _); repeat constructor; simpl;
      by rewrite ?Hpos.
Qed.

Lemma LoopTrace_wentWell (path : string) (fd buf off : Z) (v : bool)
    (l : list Event) :
  LoopTrace path fd buf v off (Some true) l -> Forall (fun ev => wentWell ev) l.
Proof.
  intros H. remember (Some true) as r eqn:Hr.
  induction H as [| ? ? H | ? ? H | ? ? ? ? ? H _ IH]; try done.
  - by eapply StepTrace_wentWell.
  - apply Forall_app. split; [by eapply StepTrace_wentWell | by apply IH].
Qed.

(** In a call that reports success every transfer went well. *)
Lemma rewriteFile_success_wentWell (fuel : nat) (path : string) (bs : Z)
    (w w' : World) :
  rewriteFile fuel path bs w = (Returned true, w') ->
  Forall (fun ev => wentWell ev) (news w w').
Proof.
  intros H. destruct (rewriteFile_spec _ _ _ _ _ _ H) as (_ & T & _).
  set (evs := news w w') in *. clearbody evs.
  inversion T as [| fd ret body B]; subst.
  inversion B as [| | | | | l atv mtv HL L]; subst.
  apply LoopTrace_wentWell in L.
  rewrite !Forall_app, !Forall_cons, Forall_nil.
  repeat split; try done.
  by destruct (verbose w); repeat constructor.
Qed.

(** C3. Zero-byte and short writes in the copy loop.  In a pass where the
    read returned [n > 0] bytes: a write that reports zero bytes makes the
    pass, the loop and the whole call fail; a write of [0 < wdone < n] bytes
    does not fail, the offset advances by [wdone] and not by [n], the next
    pass starts with a read at that offset, and the bytes that were not
    written are still in the file at that offset, to be read again. *)
Theorem copyStep_zero_and_short_writes :
  (forall path fd buf off w got w1 wdone w2,
     Pread fd buf off w = (inr got, w1) -> got <> [] ->
     Pwrite fd got off
       (logVerbose "Read %d from %s at offset %d."
          [AInt (Z.of_nat (length got)); AStr path; AInt off] w1)
     = (inr wdone, w2) ->
     fdSize w fd <= maxInt64 ->
     (wdone = 0 ->
      (copyStep path fd buf off w).1 = Fail /\
      forall fuel, (copyLoop (S fuel) path fd buf off w).1 = Some false) /\
     (0 < wdone < Z.of_nat (length got) ->
      exists w3,
        copyStep path fd buf off w = (Continue (off + wdone), w3) /\
        (forall fuel, copyLoop (S fuel) path fd buf off w
                      = copyLoop fuel path fd buf (off + wdone) w3) /\
        (forall s w4, copyStep path fd buf (off + wdone) w3 = (s, w4) ->
           exists res, head (news w3 w4) = Some (EvPread fd buf (off + wdone) res)) /\
        exists ino i,
          fdInode w3 fd = Some (ino, i) /\
          drop (Z.to_nat wdone) got <> [] /\
          drop (Z.to_nat wdone) got
            `prefix_of` drop (Z.to_nat (off + wdone)) (i_data i))) /\
  (forall fuel path bs w r w' fd data off,
     rewriteFile fuel path bs w = (Returned r, w') ->
     EvPwrite fd data off (inr 0) ∈ news w w' -> r = false).
Proof.
  split.
  - intros path fd buf off w got w1 wdone w2 ER Hne EW Hmax.
    assert (Hlen : (Z.of_nat (length got) =? 0) = false).
    { apply Z.eqb_neq. destruct got; [done | simpl; lia]. }
    assert (Estep : copyStep path fd buf off w =
              if wdone =? 0
              then (Fail, logWarning "Wrote nothing to %s at offset %d."
                            [AStr path; AInt off] w2)
              else
                let w := logVerbose "Wrote %d to %s at offset %d."
                           [AInt wdone; AStr path; AInt off] w2 in
                let w :=
                  if wdone <? Z.of_nat (length got)
                  then logWarning
                         "Short write to %s at offset %d (wrote %d instead of %d)."
                         [AStr path; AInt off; AInt wdone;
                          AInt (Z.of_nat (length got))] w
                  else w in
                (Continue (wrap64 (off + wdone)), w)).
    { unfold copyStep. rewrite ER, Hlen, EW. done. }
    split.
    + intros ->. simpl in Estep. split; [by rewrite Estep|].
      intros fuel. simpl. by rewrite Estep.
    + intros Hw.
      assert (Ez : (wdone =? 0) = false) by (apply Z.eqb_neq; lia).
      rewrite Ez in Estep. cbv zeta in Estep.
      destruct (copyStep_progress _ _ _ _ _ _ _ Estep) as (Hoff & wd & Hwd & Hin & Hwrap).
      destruct (copyStep_spec _ _ _ _ _ _ _ Estep) as (F3 & l3 & [E3 _] & _).
      assert (Hsmall : wrap64 (off + wdone) = off + wdone).
      { destruct (Pread_got _ _ _ _ _ _ ER) as (_ & _ & ino & i & i' & Hi & _ & _ & Hg).
        apply wrap64_small. rewrite minInt64_value. split; [lia|].
        assert (Z.of_nat (length got)
                <= Z.of_nat (length (drop (Z.to_nat off) (i_data i)))).
        { rewrite Hg at 1. rewrite length_take. lia. }
        rewrite length_drop in H. unfold fdSize in Hmax. rewrite Hi in Hmax. lia. }
      rewrite Hsmall in Estep.
      eexists. split; [exact Estep|]. split; [|split].
      * intros fuel. simpl. by rewrite Estep.
      * intros s w4 ES. destruct (copyStep_spec _ _ _ _ _ _ _ ES) as (_ & l & [_ <-] & T).
        by eapply StepTrace_head.
      * destruct (Pread_got _ _ _ _ _ _ ER) as (_ & _ & ino & i & i' & Hi & _ & _ & Hg).
        destruct (evolves_fdInode _ _ fd ino i E3 F3 Hi) as (i3 & Hi3 & C3).
        exists ino, i3. split; [done|].
        assert (Hd : i_data i3 = i_data i) by (unfold content in C3; congruence).
        split.
        { intros Hnil. apply (f_equal length) in Hnil.
          rewrite length_drop in Hnil. simpl in Hnil. lia. }
        rewrite Hd, Z2Nat.inj_add, <- drop_drop by lia.
        assert (Hp : got `prefix_of` drop (Z.to_nat off) (i_data i)).
        { rewrite Hg. apply take_prefix_of_drop. }
        destruct Hp as [k ->]. rewrite drop_app_le by lia. by eexists.
  - intros fuel path bs w r w' fd data off H Hin.
    destruct r; [|done]. exfalso.
    pose proof (rewriteFile_success_wentWell _ _ _ _ _ H) as HF.
    rewrite Forall_forall in HF. by apply HF in Hin.
Qed.

(** C3, on the five-byte file behind descriptor 3 and a buffer of four
    bytes: the first write (system call number 3) moves two bytes in one
    run and none in the other. *)
Lemma copyStep_zero_and_short_writes_witness :
  let opened script :=
    (Fstat 3 (Open "data.bin" (sampleWorld linux_amd64 script)).2).2 in
  let ws := opened (shortAt 3 2) in
  let wz := opened (shortAt 3 0) in
  (copyStep "data.bin" 3 4 0 wz).1 = Fail /\
  (exists w3, copyStep "data.bin" 3 4 0 ws = (Continue (0 + 2), w3)) /\
  (rewriteFile 10 "data.bin" 4 (sampleWorld linux_amd64 (shortAt 3 0))).1
  = Returned false.
Proof.
  intros opened ws wz.
  pose (got := [Byte.x66; Byte.x69; Byte.x6c; Byte.x65]).
  pose (note := logVerbose "Read %d from %s at offset %d."
                  [AInt (Z.of_nat (length got)); AStr "data.bin"; AInt 0]).
  destruct copyStep_zero_and_short_writes as [Hstep Hcall].
  split; [|split].
  - destruct (Hstep "data.bin" 3 4 0 wz got (Pread 3 4 0 wz).2 0
                (Pwrite 3 got 0 (note (Pread 3 4 0 wz).2)).2) as [Hz _];
      [vm_compute; reflexivity | discriminate | vm_compute; reflexivity
       | vm_compute; discriminate |].
    exact (proj1 (Hz eq_refl)).
  - destruct (Hstep "data.bin" 3 4 0 ws got (Pread 3 4 0 ws).2 2
                (Pwrite 3 got 0 (note (Pread 3 4 0 ws).2)).2) as [_ Hs];
      [vm_compute; reflexivity | discriminate | vm_compute; reflexivity
       | vm_compute; discriminate |].
    destruct Hs as (w3 & E3 & _); [vm_compute; split; reflexivity|].
    exists w3. exact E3.
  - pose (w := sampleWorld linux_amd64 (shortAt 3 0)).
    assert (H : exists r, rewriteFile 10 "data.bin" 4 w
                          = (Returned r, (rewriteFile 10 "data.bin" 4 w).2)).
    { exists false. vm_compute. reflexivity. }
    destruct H as [r H]. fold w. rewrite H. simpl. f_equal.
    apply (Hcall 10%nat "data.bin" 4 w r _ 3 got 0 H).
    apply (list_elem_of_lookup_2 _ 3%nat). vm_compute. reflexivity.
Defined.

(** ** Termination *)

(** Fuel beyond what the loop needs changes nothing. *)
Lemma copyLoop_more_fuel (fuel extra : nat) (path : string) (fd buf off : Z)
    (w w' : World) (r : bool) :
  copyLoop fuel path fd buf off w = (Some r, w') ->
  copyLoop (fuel + extra) path fd buf off w = (Some r, w').
Proof.
  revert off w. induction fuel as [|fuel IH]; intros off w; simpl; [done|].
  destruct (copyStep path fd buf off w) as [[off'| |] w1]; [apply IH|done..].
Qed.

(** A pass that continues: the write it made, and where it leaves the
    offset. *)
Lemma copyStep_wrote (path : string) (fd buf off off' : Z) (w w' : World) :
  copyStep path fd buf off w = (Continue off', w') ->
  exists got wdone,
    0 <= off /\ 0 < wdone <= Z.of_nat (length got) /\
    off + Z.of_nat (length got) <= fdSize w fd /\
    off' = wrap64 (off + wdone) /\
    EvPwrite fd got off (inr wdone) ∈ news w w'.
Proof.
  intros ES. pose proof ES as ES'. revert ES'. unfold copyStep.
  destruct (Pread fd buf off w) as [[e|got] w1] eqn:ER; [done|].
  destruct (Z.of_nat (length got) =? 0) eqn:E0; [done|].
  apply Z.eqb_neq in E0.
  set (w2 := logVerbose _ _ w1).
  destruct (Pwrite fd got off w2) as [[e|wdone] w3] eqn:EW; [done|].
  destruct (wdone =? 0) eqn:Ew; [done|].
  apply Z.eqb_neq in Ew.
  set (w4 := logVerbose _ _ w3).
  set (w5 := if wdone <? _ then _ else w4).
  intros [= <- <-].
  destruct (Pread_got _ _ _ _ _ _ ER) as (_ & Hoff & ino & i & i' & Hi & _ & _ & Hgot).
  destruct (Pwrite_done _ _ _ _ _ _ EW) as (_ & _ & Hn).
  pose proof (writeCount_bounds (limit (response w2)) (Z.of_nat (length got))
                ltac:(lia)) as Hb.
  rewrite <- Hn in Hb.
  exists got, wdone. split; [done|]. split; [lia|]. split; [|split; [done|]].
  { unfold fdSize. rewrite Hi.
    assert (Hlen : (length got <= length (drop (Z.to_nat off) (i_data i)))%nat).
    { rewrite Hgot at 1. rewrite length_take. lia. }
    rewrite length_drop in Hlen. lia. }
  destruct (Pread_spec _ _ _ _ _ _ ER) as ([E1 _] & _).
  assert (E2 : evolves w w2).
  { eapply evolves_trans; [exact E1 | apply logVerbose_yields]. }
  destruct (Pwrite_spec _ _ _ _ _ _ EW) as ([E3 N3] & _).
  { intros k j Hk. unfold w2 in Hk. rewrite logVerbose_fdInode in Hk.
    by eapply Pread_prefix. }
  assert (E5 : evolves w3 w5).
  { apply (evolves_trans _ w4); [apply logVerbose_yields|]. unfold w5.
    destruct (wdone <? _); [apply logWarning_yields | apply evolves_refl]. }
  rewrite (news_trans w w3 w5), (news_trans w w2 w3), N3;
    [| done | done | by eapply evolves_trans | done].
  apply elem_of_app. left. apply elem_of_app. right. apply elem_of_cons. by left.
Qed.

(** C9. The copy loop terminates.  A pass that does not fail either reads
    zero bytes and leaves the loop, or writes at least one byte and moves the
    offset strictly forward, never past the end of the file, whose size does
    not change; so the loop is over after at most one pass per remaining byte
    and one more, and [rewriteFile] returns (or panics in [make]) for every
    file. *)
Theorem copyLoop_terminates_by_progress :
  (forall path fd buf off w s w',
     copyStep path fd buf off w = (s, w') ->
     fdSize w fd <= maxInt64 ->
     match s with
     | Break => news w w' = [EvPread fd buf off (inr 0)]
     | Continue off' =>
         (exists got wdone,
            EvPwrite fd got off (inr wdone) ∈ news w w' /\ 0 < wdone /\
            off' = off + wdone) /\
         off < off' <= fdSize w fd /\ fdSize w' fd = fdSize w fd
     | Fail => True
     end) /\
  (forall fuel path fd buf off w,
     fdSize w fd <= maxInt64 -> 0 <= off ->
     (Z.to_nat (fdSize w fd - off) < fuel)%nat ->
     exists r w', copyLoop fuel path fd buf off w = (Some r, w')) /\
  (forall fuel path bs w,
     fits fuel w -> (rewriteFile fuel path bs w).1 <> OutOfFuel).
Proof.
  split; [|split].
  - intros path fd buf off w s w' ES Hmax.
    destruct (copyStep_spec _ _ _ _ _ _ _ ES) as (F & l & [E N] & T).
    destruct s as [off'| |]; [| |done].
    + destruct (copyStep_wrote _ _ _ _ _ _ _ ES)
        as (got & wdone & Hoff & Hwd & Hin & Hwrap & Hev).
      rewrite wrap64_small in Hwrap by (rewrite minInt64_value; lia).
      split; [exists got, wdone; split; [done | lia]|].
      split; [lia | by apply evolves_fdSize].
    + rewrite N. by inversion T.
  - intros fuel path fd buf off w Hmax Hoff Hfuel.
    pose proof (copyLoop_terminates fuel path fd buf off w Hmax Hoff Hfuel) as H.
    destruct (copyLoop fuel path fd buf off w) as [[r|] w']; [eauto|done].
  - intros fuel path bs w. apply rewriteFile_terminates.
Qed.

Lemma fitsb_fits (fuel : nat) (w : World) : fitsb fuel w = true -> fits fuel w.
Proof.
  unfold fitsb, fits. rewrite forallb_forall. intros H ino i Hi.
  apply elem_of_map_to_list, list_elem_of_In in Hi.
  apply H in Hi. simpl in Hi. apply andb_true_iff in Hi as [H1 H2].
  apply Z.leb_le in H1. apply Nat.ltb_lt in H2. done.
Qed.

(** C9, on the five-byte file read through a buffer of two bytes: six passes
    are enough. *)
Lemma copyLoop_terminates_by_progress_witness :
  let w := sampleWorld linux_amd64 calm in
  let wo := (Fstat 3 (Open "data.bin" w).2).2 in
  (exists r w', copyLoop 6 "data.bin" 3 2 0 wo = (Some r, w')) /\
  (rewriteFile 6 "data.bin" 2 w).1 <> OutOfFuel.
Proof.
  intros w wo. destruct copyLoop_terminates_by_progress as (_ & Hloop & Hcall).
  split.
  - apply Hloop; [vm_compute; discriminate | lia | vm_compute; lia].
  - apply Hcall. apply fitsb_fits. vm_compute. reflexivity.
Defined.

(** ** System calls that the kernel lets through *)

Lemma pathInode_advance (w : World) (path : string) :
  pathInode (advance w) path = pathInode w path.
Proof. done. Qed.

Lemma Open_ok (path : string) (w : World) (ino : nat) (i : Inode) :
  fault (response w) = None ->
  pathInode w path = Some (ino, i) ->
  fileType i <> S_IFLNK -> fileType i <> S_IFDIR ->
  Open path w =
  (inr (allocFd (w_fds w)),
   emit (EvOpen path (inr (allocFd (w_fds w))))
     (setFds (<[allocFd (w_fds w) := ino]> (w_fds w)) (advance w))).
Proof.
  intros Hf Hp H1 H2. unfold Open. rewrite Hf, pathInode_advance, Hp.
  apply Z.eqb_neq in H1, H2. rewrite H1, H2. simpl.
  unfold pathInode in Hp. destruct (w_names w !! path) as [k|]; [|done].
  destruct (w_inodes w !! k); [|done]. by injection Hp as -> ->.
Qed.

Lemma Fstat_ok (fd : Z) (w : World) (ino : nat) (i : Inode) :
  fault (response w) = None -> fdInode w fd = Some (ino, i) ->
  Fstat fd w = (inr (statOf (w_platform w) i), emit (EvFstat fd None) (advance w)).
Proof.
  intros Hf Hi. unfold Fstat. rewrite Hf.
  replace (fdInode (advance w) fd) with (fdInode w fd) by done.
  by rewrite Hi.
Qed.

Lemma Futimes_ok (fd : Z) (atv mtv : Timeval) (w : World) (ino : nat) (i : Inode) :
  fault (response w) = None -> fdInode w fd = Some (ino, i) ->
  Futimes fd atv mtv w =
  (None,
   emit (EvFutimes fd atv mtv None)
     (setInodes (<[ino := setMtime (timevalToTimespec mtv)
                             (setAtime (timevalToTimespec atv) i)]> (w_inodes w))
        (advance w))).
Proof.
  intros Hf Hi. unfold Futimes. rewrite Hf.
  replace (fdInode (advance w) fd) with (fdInode w fd) by done.
  by rewrite Hi.
Qed.

(** Reading into an empty buffer returns no byte and touches nothing. *)
Lemma Pread_empty_buffer (fd off : Z) (w : World) (ino : nat) (i : Inode) :
  fault (response w) = None -> fdInode w fd = Some (ino, i) -> 0 <= off ->
  Pread fd 0 off w = (inr [], emit (EvPread fd 0 off (inr 0)) (advance w)).
Proof.
  intros Hf Hi Hoff. unfold Pread. rewrite Hf.
  replace (fdInode (advance w) fd) with (fdInode w fd) by done.
  rewrite Hi. apply Z.ltb_ge in Hoff. rewrite Hoff.
  assert (Hn : readCount (limit (response w)) 0
                 (Z.of_nat (length (drop (Z.to_nat off) (i_data i)))) <= 0).
  { unfold readCount. destruct (limit (response w)); lia. }
  replace (Z.to_nat _) with 0%nat by lia. done.
Qed.

Lemma Pread_ok (fd len off : Z) (w : World) (ino : nat) (i : Inode) :
  fault (response w) = None -> fdInode w fd = Some (ino, i) -> 0 <= off ->
  exists got w', Pread fd len off w = (inr got, w').
Proof.
  intros Hf Hi Hoff. unfold Pread. rewrite Hf.
  replace (fdInode (advance w) fd) with (fdInode w fd) by done.
  rewrite Hi. apply Z.ltb_ge in Hoff. rewrite Hoff. by eauto.
Qed.

Lemma Pwrite_ok (fd : Z) (data : list byte) (off : Z) (w : World) (ino : nat)
    (i : Inode) :
  fault (response w) = None -> fdInode w fd = Some (ino, i) -> 0 <= off ->
  exists w', Pwrite fd data off w
             = (inr (writeCount (limit (response w)) (Z.of_nat (length data))), w').
Proof.
  intros Hf Hi Hoff. unfold Pwrite. rewrite Hf.
  replace (fdInode (advance w) fd) with (fdInode w fd) by done.
  rewrite Hi. apply Z.ltb_ge in Hoff. rewrite Hoff. by eauto.
Qed.

(** ** A kernel that lets every call through *)

Lemma copyStep_obliging (path : string) (fd buf off : Z) (w : World)
    (ino : nat) (i : Inode) :
  obliging (w_script w) -> fdInode w fd = Some (ino, i) -> 0 <= off ->
  (copyStep path fd buf off w).1 <> Fail.
Proof.
  intros Hob Hi Hoff. unfold copyStep.
  destruct (Pread_ok fd buf off w ino i) as (got & w1 & ER);
    [apply Hob | done | done |].
  rewrite ER. destruct (Z.of_nat (length got) =? 0) eqn:E0; [done|].
  apply Z.eqb_neq in E0.
  destruct (Pread_spec _ _ _ _ _ _ ER) as ([E1 _] & F1 & _).
  destruct (evolves_fdInode _ _ _ _ _ E1 F1 Hi) as (i1 & Hi1 & _).
  set (w2 := logVerbose _ _ w1).
  assert (Hs2 : w_script w2 = w_script w).
  { transitivity (w_script w1); [|apply E1].
    apply (ev_script _ _ (proj1 (logVerbose_yields _ _ w1))). }
  assert (Hob2 : fault (response w2) = None /\
                 forall n, limit (response w2) = Some n -> 0 < n).
  { unfold response. rewrite Hs2. apply Hob. }
  destruct (Pwrite_ok fd got off w2 ino i1) as (w3 & EW);
    [apply Hob2 | by unfold w2; rewrite logVerbose_fdInode | done |].
  rewrite EW.
  assert (Hpos : 0 < writeCount (limit (response w2)) (Z.of_nat (length got))).
  { unfold writeCount. destruct (limit (response w2)) as [n|] eqn:El; [|lia].
    pose proof (proj2 Hob2 n eq_refl). lia. }
  destruct (_ =? 0) eqn:Ew; [apply Z.eqb_eq in Ew; lia | done].
Qed.

Lemma copyLoop_obliging (fuel : nat) (path : string) (fd buf off : Z) (w : World)
    (ino : nat) (i : Inode) :
  obliging (w_script w) -> fdInode w fd = Some (ino, i) ->
  fdSize w fd <= maxInt64 -> 0 <= off ->
  (Z.to_nat (fdSize w fd - off) < fuel)%nat ->
  exists w', copyLoop fuel path fd buf off w = (Some true, w').
Proof.
  revert off w i. induction fuel as [|fuel IH];
    intros off w i Hob Hi Hmax Hoff Hfuel; [lia|].
  simpl. pose proof (copyStep_obliging path fd buf off w ino i Hob Hi Hoff) as Hnf.
  destruct (copyStep path fd buf off w) as [s w1] eqn:ES.
  destruct s as [off'| |]; [|by eauto|done].
  destruct (copyStep_progress _ _ _ _ _ _ _ ES) as (_ & wdone & Hw & Hin & ->).
  destruct (copyStep_spec _ _ _ _ _ _ _ ES) as (F1 & l1 & [E1 _] & _).
  pose proof (evolves_fdSize _ _ fd E1 F1) as Hsz.
  destruct (evolves_fdInode _ _ _ _ _ E1 F1 Hi) as (i1 & Hi1 & _).
  rewrite wrap64_small by (rewrite minInt64_value; lia).
  apply (IH _ _ i1); rewrite ?Hsz, ?(ev_script _ _ E1); try done; lia.
Qed.

(** On an obliging kernel, a regular file on a host with known timestamp
    fields is rewritten with success, for every buffer size that can be
    allocated. *)
Lemma rewriteFile_succeeds (fuel : nat) (path : string) (bs : Z) (w : World)
    (ino : nat) (i : Inode) :
  obliging (w_script w) -> fits fuel w ->
  pathInode w path = Some (ino, i) -> fileType i = S_IFREG ->
  statLayout (w_platform w) <> OtherNames ->
  0 <= bs <= Z.of_N (maxAlloc (w_platform w)) ->
  exists w', rewriteFile fuel path bs w = (Returned true, w').
Proof.
  intros Hob Hfit Hp Hreg Hlay Hbs.
  assert (Hino : w_inodes w !! ino = Some i).
  { unfold pathInode in Hp. destruct (w_names w !! path) as [k|]; [|done].
    destruct (w_inodes w !! k) eqn:Ek; [|done]. by injection Hp as -> ->. }
  unfold rewriteFile.
  assert (Hmake : make (w_platform w) bs = Some bs).
  { destruct (make (w_platform w) bs) as [b|] eqn:E.
    - by apply make_Some in E as [-> _].
    - apply make_None in E. lia. }
  rewrite Hmake.
  rewrite (Open_ok path w ino i); [| apply Hob | done | |];
    [| rewrite Hreg; unfold S_IFREG, S_IFLNK; lia
     | rewrite Hreg; unfold S_IFREG, S_IFDIR; lia].
  set (fd := allocFd (w_fds w)). set (w1 := emit _ (setFds _ (advance w))).
  assert (Hfd1 : fdInode w1 fd = Some (ino, i)).
  { apply fdInode_intro; simpl; [apply lookup_insert_eq | done]. }
  unfold rewriteOpen.
  rewrite (Fstat_ok fd w1 ino i); [| apply Hob | done].
  set (w2 := emit _ (advance w1)).
  rewrite Mode_statOf. fold (fileType i). rewrite Hreg. simpl negb. cbv iota.
  assert (Hfd2 : fdInode w2 fd = Some (ino, i)) by done.
  destruct (Hfit _ _ Hino) as [Hmax Hfuel].
  destruct (copyLoop_obliging fuel path fd bs 0 w2 ino i) as (w3 & EL);
    [done | done | | lia | |]; [unfold fdSize; rewrite Hfd2; lia..|].
  rewrite EL.
  destruct (copyLoop_spec _ _ _ _ _ _ _ _ EL) as (F3 & l & [E3 _] & _).
  destruct (evolves_fdInode _ _ _ _ _ E3 F3 Hfd2) as (i3 & Hfd3 & _).
  unfold restoreTimes. rewrite statTimes_statOf.
  replace (w_platform w1) with (w_platform w) by done.
  assert (Hst : match statLayout (w_platform w) with
                | OtherNames => (zeroTimespec, zeroTimespec, false)
                | _ => (i_atime i, i_mtime i, true)
                end = (i_atime i, i_mtime i, true)).
  { by destruct (statLayout (w_platform w)). }
  rewrite Hst. simpl negb. cbv iota.
  rewrite (Futimes_ok fd _ _ w3 ino i3); [by eauto | | done].
  unfold response. rewrite (ev_script _ _ E3). apply Hob.
Qed.

(** C8. A buffer of zero bytes.  For a regular file on a host whose
    timestamp fields the program knows, and a kernel that reports no error,
    [rewriteFile] with a buffer size of 0 returns success: the one read it
    makes returns zero bytes, the loop ends as at end of file, it writes
    nothing, the bytes of the file are untouched and the timestamps are put
    back. *)
Theorem rewriteFile_zero_buffer (fuel : nat) (path : string) (w : World)
    (ino : nat) (i : Inode) :
  pathInode w path = Some (ino, i) -> fileType i = S_IFREG ->
  (forall k, fault (w_script w k) = None) ->
  statLayout (w_platform w) <> OtherNames ->
  exists fd w',
    rewriteFile (S fuel) path 0 w = (Returned true, w') /\
    news w w' =
      [EvOpen path (inr fd); EvFstat fd None; EvPread fd 0 0 (inr 0);
       EvFutimes fd (NsecToTimeval (TimespecToNsec (i_atime i)))
                    (NsecToTimeval (TimespecToNsec (i_mtime i))) None]
        ++ vlog (verbose w) "Restored access and modification times on %s."
             [AStr path]
        ++ [EvClose fd] /\
    pathInode w' path =
      Some (ino, mkInode (i_mode i) (i_data i) (restoredTime (i_atime i))
                         (restoredTime (i_mtime i))).
Proof.
  intros Hp Hreg Hnf Hlay.
  assert (Hn : w_names w !! path = Some ino /\ w_inodes w !! ino = Some i).
  { unfold pathInode in Hp. destruct (w_names w !! path) as [k|]; [|done].
    destruct (w_inodes w !! k) eqn:Ek; [|done]. by injection Hp as -> ->. }
  destruct Hn as [Hname Hino].
  set (fd := allocFd (w_fds w)).
  exists fd. eexists.
  unfold rewriteFile.
  assert (Hmake : make (w_platform w) 0 = Some 0).
  { unfold make. destruct (Z.of_N (maxAlloc (w_platform w)) <? 0) eqn:E; [|done].
    apply Z.ltb_lt in E. lia. }
  rewrite Hmake.
  rewrite (Open_ok path w ino i); [| apply Hnf | done | |];
    [| rewrite Hreg; unfold S_IFREG, S_IFLNK; lia
     | rewrite Hreg; unfold S_IFREG, S_IFDIR; lia].
  fold fd. set (w1 := emit _ (setFds _ (advance w))).
  assert (Hfd1 : fdInode w1 fd = Some (ino, i)).
  { apply fdInode_intro; simpl; [apply lookup_insert_eq | done]. }
  unfold rewriteOpen.
  rewrite (Fstat_ok fd w1 ino i); [| apply Hnf | done].
  set (w2 := emit _ (advance w1)).
  rewrite Mode_statOf. fold (fileType i). rewrite Hreg. simpl negb. cbv iota.
  assert (Hfd2 : fdInode w2 fd = Some (ino, i)) by done.
  assert (Hstep : copyStep path fd 0 0 w2
                  = (Break, emit (EvPread fd 0 0 (inr 0)) (advance w2))).
  { unfold copyStep. rewrite (Pread_empty_buffer fd 0 w2 ino i); [done | apply Hnf | done | lia]. }
  simpl copyLoop. rewrite Hstep.
  set (w3 := emit _ (advance w2)).
  assert (Hfd3 : fdInode w3 fd = Some (ino, i)) by done.
  unfold restoreTimes. rewrite statTimes_statOf.
  replace (w_platform w1) with (w_platform w) by done.
  assert (Hst : match statLayout (w_platform w) with
                | OtherNames => (zeroTimespec, zeroTimespec, false)
                | _ => (i_atime i, i_mtime i, true)
                end = (i_atime i, i_mtime i, true)).
  { by destruct (statLayout (w_platform w)). }
  rewrite Hst. simpl negb. cbv iota.
  rewrite (Futimes_ok fd _ _ w3 ino i); [| apply Hnf | done].
  split; [reflexivity|]. split.
  - unfold news, logVerbose, vlog. simpl.
    destruct (verbose w); simpl; rewrite <- !(assoc (++)); simpl;
      by rewrite drop_app_length.
  - unfold pathInode, logVerbose. simpl.
    destruct (verbose w); simpl; rewrite Hname, lookup_insert_eq; done.
Qed.

(** C8, on the five-byte file. *)
Lemma rewriteFile_zero_buffer_witness :
  let w := sampleWorld linux_amd64 calm in
  exists w',
    rewriteFile 1 "data.bin" 0 w = (Returned true, w') /\
    Forall (fun ev => isWrite ev = false) (news w w') /\
    fileData w' "data.bin" = Some sampleData.
Proof.
  intros w.
  destruct (rewriteFile_zero_buffer 0 "data.bin" w 1 sampleFile)
    as (fd & w' & H & N & P);
    [vm_compute; reflexivity | vm_compute; reflexivity | reflexivity | discriminate |].
  exists w'. split; [exact H|]. split.
  - rewrite N. repeat constructor.
  - unfold fileData. rewrite P. reflexivity.
Defined.

(** ** When the snapshot has no known timestamp fields *)

Lemma lookup_around {A : Type} (pre post : list A) (x y : A) (n : nat) :
  (pre ++ x :: post) !! n = Some y ->
  (y ∈ pre /\ (n < length pre)%nat) \/ (y = x /\ n = length pre)
  \/ (y ∈ post /\ (length pre < n)%nat).
Proof.
  intros H. apply lookup_app_Some in H as [H|[Hle H]].
  - left. split; [by eapply list_elem_of_lookup_2 | by eapply lookup_lt_Some].
  - destruct (n - length pre)%nat as [|k] eqn:Ek; simpl in H.
    + right. left. split; [congruence | lia].
    + right. right. split; [by eapply list_elem_of_lookup_2 | lia].
Qed.

Lemma report_not_loop_event (path : string) (l : list Event) :
  Forall (fun ev => isLoopEvent ev) l -> report path ∉ l.
Proof. intros H Hin. rewrite Forall_forall in H. by apply H in Hin. Qed.

Lemma transfer_not_report (path : string) (ev : Event) :
  isTransfer ev = true -> ev <> report path.
Proof. by intros H ->. Qed.

(** C4 does not hold as stated: on such a host the five-byte file is written
    in full before the call fails. *)
Lemma unsupported_fields_fail_before_any_write_fails :
  ~ unsupported_fields_fail_before_any_write.
Proof.
  intros H.
  destruct (H 10%nat "data.bin"%string 4 (sampleWorld exotic calm) false
              (rewriteFile 10 "data.bin" 4 (sampleWorld exotic calm)).2)
    as [_ HF]; [reflexivity | vm_compute; reflexivity |].
  rewrite Forall_forall in HF.
  specialize (HF (EvPwrite 3 [Byte.x66; Byte.x69; Byte.x6c; Byte.x65] 0 (inr 4))).
  assert (Hin : EvPwrite 3 [Byte.x66; Byte.x69; Byte.x6c; Byte.x65] 0 (inr 4)
                ∈ news (sampleWorld exotic calm)
                    (rewriteFile 10 "data.bin" 4 (sampleWorld exotic calm)).2).
  { apply (list_elem_of_lookup_2 _ 3%nat). vm_compute. reflexivity. }
  apply HF in Hin. discriminate Hin.
Qed.

(** C4, amended.  On a host whose snapshot has no timestamp fields the
    program knows, [rewriteFile] returns failure and never calls [Futimes];
    the missing fields are found out when the timestamps are to be restored,
    after the copy loop: when they are reported the loop has run to its end,
    every read and write of the file comes before the report, and only the
    closing of the descriptor comes after it. *)
Theorem unsupported_fields_fail_after_copy (fuel : nat) (path : string) (bs : Z)
    (w w' : World) (r : bool) :
  statLayout (w_platform w) = OtherNames ->
  rewriteFile fuel path bs w = (Returned r, w') ->
  r = false /\
  Forall (fun ev => isFutimes ev = false) (news w w') /\
  (forall n, news w w' !! n = Some (report path) ->
     (exists fd l,
        news w w' = [EvOpen path (inr fd); EvFstat fd None] ++ l
                      ++ [report path; EvClose fd] /\
        LoopTrace path fd bs (verbose w) 0 (Some true) l) /\
     forall m ev, news w w' !! m = Some ev -> isTransfer ev = true -> (m < n)%nat).
Proof.
  intros Hlay H.
  destruct (rewriteFile_spec _ _ _ _ _ _ H) as (_ & T & _).
  rewrite Hlay in T. set (evs := news w w') in *. clearbody evs.
  assert (Hfut : forall l, Forall (fun ev => isLoopEvent ev) l ->
                           Forall (fun ev => isFutimes ev = false) l).
  { intros l Hl. eapply Forall_impl; [exact Hl|]. by intros []. }
  inversion T as [e | fd ret body B]; subst.
  { split; [done|]. split; [by repeat constructor|].
    intros [|[|n]] Hn; simpl in Hn; discriminate Hn. }
  inversion B as [e | | l L | l _ L | l atv mtv e HL L | l atv mtv HL L]; subst;
    try done.
  - split; [done|]. split; [by repeat constructor|].
    intros [|[|[|[|n]]]] Hn; simpl in Hn; discriminate Hn.
  - split; [done|]. split; [by repeat constructor|].
    intros [|[|[|[|n]]]] Hn; simpl in Hn; discriminate Hn.
  - apply LoopTrace_events in L as HF.
    split; [done|]. split.
    { rewrite !Forall_app, !Forall_cons, Forall_nil. repeat split; try done; auto. }
    intros n Hn. exfalso. apply list_elem_of_lookup_2 in Hn.
    elem_cases Hn. exact (report_not_loop_event path l HF Hn).
  - apply LoopTrace_events in L as HF.
    split; [done|]. split.
    { rewrite !Forall_app, !Forall_cons, Forall_nil. repeat split; try done; auto. }
    intros n Hn.
    assert (Hshape : [EvOpen path (inr fd)] ++ ([EvFstat fd None] ++ l ++ [report path])
                       ++ [EvClose fd]
                     = ([EvOpen path (inr fd); EvFstat fd None] ++ l)
                         ++ report path :: [EvClose fd]).
    { simpl. by rewrite <- !(assoc (++)). }
    rewrite Hshape in *.
    assert (Hpre : report path ∉ [EvOpen path (inr fd); EvFstat fd None] ++ l).
    { intros Hin. elem_cases Hin. exact (report_not_loop_event path l HF Hin). }
    assert (Hn' : n = length ([EvOpen path (inr fd); EvFstat fd None] ++ l)).
    { apply lookup_around in Hn as [[Hin _]|[[_ ->]|[Hin _]]]; [done | done |].
      apply elem_of_cons in Hin as [Hin|Hin]; [discriminate|].
      by apply elem_of_nil in Hin. }
    split.
    { exists fd, l. split; [by rewrite <- (assoc (++))|done]. }
    intros m ev Hm Htr.
    apply lookup_around in Hm as [[_ Hlt]|[[-> _]|[Hin _]]]; [lia | done |].
    apply elem_of_cons in Hin as [->|Hin]; [done|].
    by apply elem_of_nil in Hin.
Qed.

(** C4 amended, on the five-byte file of a host with other field names: the
    call fails, and the report is event number 7, after the writes. *)
Lemma unsupported_fields_fail_after_copy_witness :
  let w := sampleWorld exotic calm in
  let w' := (rewriteFile 10 "data.bin" 4 w).2 in
  (rewriteFile 10 "data.bin" 4 w).1 = Returned false /\
  Forall (fun ev => isFutimes ev = false) (news w w') /\
  forall m ev, news w w' !! m = Some ev -> isTransfer ev = true -> (m < 7)%nat.
Proof.
  intros w w'.
  assert (H : rewriteFile 10 "data.bin" 4 w = (Returned false, w'))
    by (vm_compute; reflexivity).
  destruct (unsupported_fields_fail_after_copy 10 "data.bin" 4 w w' false eq_refl H)
    as (_ & HF & HR).
  split; [vm_compute; reflexivity|]. split; [exact HF|].
  apply (HR 7%nat). vm_compute. reflexivity.
Defined.

(** ** The driver *)

Lemma normalizeGoStyleLongFlags_map (args : list string) (fs : list Flag) :
  normalizeGoStyleLongFlags args fs = map (normalizeArg fs) args.
Proof.
  unfold normalizeGoStyleLongFlags.
  assert (H : forall acc,
            fold_left (fun normalized arg => normalized ++ [normalizeArg fs arg]) args acc
            = acc ++ map (normalizeArg fs) args).
  { induction args as [|a args IH]; intros acc; simpl.
    - by rewrite app_nil_r.
    - by rewrite IH, <- (assoc (++)). }
  apply H.
Qed.

Lemma openedPaths_app (l1 l2 : list Event) :
  openedPaths (l1 ++ l2) = openedPaths l1 ++ openedPaths l2.
Proof. apply omap_app. Qed.

Lemma openedPaths_loop (l : list Event) :
  Forall (fun ev => isLoopEvent ev) l -> openedPaths l = [].
Proof.
  induction 1 as [|ev l Hev _ IH]; [done|].
  unfold openedPaths in *. destruct ev; try done; simpl; exact IH.
Qed.

Lemma openedPaths_vlog (v : bool) (format : string) (args : list LogArg) :
  openedPaths (vlog v format args) = [].
Proof. by destruct v. Qed.

(** A call of [rewriteFile] opens its path, once, and no other. *)
Lemma FileTrace_opened (path : string) (buf : Z) (v : bool) (lay : StatLayout)
    (r : bool) (l : list Event) :
  FileTrace path buf v lay r l -> openedPaths l = [path].
Proof.
  intros [e | fd ret body B]; [done|].
  rewrite !openedPaths_app.
  assert (Hb : openedPaths body = []).
  { destruct B as [| | k L | k HL L | k atv mtv e HL L | k atv mtv HL L];
      try done; apply LoopTrace_events, openedPaths_loop in L;
      rewrite ?openedPaths_app, ?L, ?openedPaths_vlog; done. }
  by rewrite Hb.
Qed.

Lemma EngineRuns_length (fuel : nat) (bs : Z) (paths : list string)
    (rs : list bool) (w w' : World) :
  EngineRuns fuel bs paths rs w w' -> length rs = length paths.
Proof. induction 1; simpl; congruence. Qed.

Lemma rewriteAll_spec (fuel : nat) (paths : list string) (bs ret : Z) (w : World) :
  0 <= bs <= Z.of_N (maxAlloc (w_platform w)) -> fits fuel w ->
  exists rs w',
    rewriteAll fuel paths bs ret w
    = (Exit (if forallb id rs then ret else 1), w') /\
    EngineRuns fuel bs paths rs w w' /\
    evolves w w' /\ openedPaths (news w w') = paths.
Proof.
  revert ret w. induction paths as [|path paths IH]; intros ret w Hbs Hfit; simpl.
  { exists [], w. split; [done|]. split; [constructor|].
    split; [apply evolves_refl | by rewrite news_refl]. }
  set (w0 := logVerbose "Rewriting %s..." [AStr path] w).
  destruct (logVerbose_yields "Rewriting %s..." [AStr path] w) as [E0 N0].
  fold w0 in E0, N0.
  pose proof (rewriteFile_terminates fuel path bs w0 (fits_evolves _ _ _ E0 Hfit)) as HT.
  destruct (rewriteFile fuel path bs w0) as [[r | msg |] w1] eqn:ER; [| |done].
  2: { apply rewriteFile_panics in ER as (Hbad & _).
       rewrite (ev_platform _ _ E0) in Hbad. lia. }
  destruct (rewriteFile_spec _ _ _ _ _ _ ER) as (E1 & T1 & _).
  assert (E01 : evolves w w1) by (by eapply evolves_trans).
  destruct (IH (if negb r then 1 else ret) w1) as (rs & w' & Hall & Hruns & E2 & O2).
  { by rewrite (ev_platform _ _ E01). }
  { by eapply fits_evolves. }
  exists (r :: rs), w'. split; [|split; [|split]].
  - rewrite Hall. simpl. by destruct r, (forallb id rs).
  - by eapply RunsNext.
  - by eapply evolves_trans.
  - rewrite (news_trans w w1 w'), (news_trans w w0 w1) by done.
    rewrite !openedPaths_app, N0, openedPaths_vlog, O2.
    by rewrite (FileTrace_opened _ _ _ _ _ _ T1).
Qed.

Lemma forallb_id_Forall (rs : list bool) :
  forallb id rs = true <-> Forall (fun r => r = true) rs.
Proof.
  induction rs as [|r rs IH]; simpl; [by split; [constructor|]|].
  rewrite Forall_cons, <- IH. destruct r; simpl; [tauto|].
  split; [done | by intros [? _]].
Qed.

Lemma forallb_id_Exists (rs : list bool) :
  forallb id rs = false <-> Exists (fun r => r = false) rs.
Proof.
  induction rs as [|r rs IH]; simpl; [split; [done | by intros H%Exists_nil]|].
  rewrite Exists_cons, <- IH. destruct r; simpl; [|tauto].
  split; [tauto | by intros [?|?]].
Qed.

(** C5. The driver.  When the arguments are accepted, help is not asked
    for, there is at least one path, the buffer size in megabytes is positive
    and the buffer can be allocated, [main] calls [rewriteFile] once on each
    path, in the order given, each call starting where the one before ended
    whatever that one returned; it exits with status 0 exactly when every
    call returned success and with status 1 exactly when at least one
    did not. *)
Theorem main_rewrites_every_path (ParseInt : string -> option Z) (fuel : nat)
    (osArgs : list string) (w : World) (flags : Flags) :
  Parse ParseInt (w_platform w) (normalizeGoStyleLongFlags osArgs CommandLine)
  = Some flags ->
  f_help flags = false -> f_args flags <> [] -> 0 < f_bufferSizeMB flags ->
  0 <= bufferSizeBytesOf (w_platform w) (f_bufferSizeMB flags)
    <= Z.of_N (maxAlloc (w_platform w)) ->
  fits fuel w ->
  exists rs w' code,
    main ParseInt fuel osArgs w = (Exit code, w') /\
    EngineRuns fuel (bufferSizeBytesOf (w_platform w) (f_bufferSizeMB flags))
      (f_args flags) rs (setVerbose (f_verbose flags) w) w' /\
    length rs = length (f_args flags) /\
    openedPaths (news w w') = f_args flags /\
    (code = 0 <-> Forall (fun r => r = true) rs) /\
    (code = 1 <-> Exists (fun r => r = false) rs).
Proof.
  intros HP Hh Ha Hmb Hbs Hfit. unfold main. rewrite HP, Hh.
  destruct (f_args flags) as [|a args] eqn:Eargs; [done|].
  change (length (a :: args) =? 0)%nat with false. cbv iota.
  assert (Hle : (f_bufferSizeMB flags <=? 0) = false) by (apply Z.leb_gt; lia).
  rewrite Hle.
  destruct (rewriteAll_spec fuel (a :: args)
              (bufferSizeBytesOf (w_platform w) (f_bufferSizeMB flags)) 0
              (setVerbose (f_verbose flags) w) Hbs Hfit)
    as (rs & w' & Hall & Hruns & _ & Ho).
  exists rs, w', (if forallb id rs then 0 else 1).
  split; [exact Hall|]. split; [exact Hruns|].
  split; [by apply EngineRuns_length in Hruns|]. split; [exact Ho|].
  destruct (forallb id rs) eqn:E.
  - split; [split; [intros _; by apply forallb_id_Forall | done]|].
    split; [done|]. intros H%forallb_id_Exists. congruence.
  - split; [|split; [intros _; by apply forallb_id_Exists | done]].
    split; [done|]. intros H%forallb_id_Forall. congruence.
Qed.

(** C5, on three paths of which the second does not exist, with a buffer of
    one megabyte. *)
Lemma main_rewrites_every_path_witness :
  let w := sampleWorld linux_amd64 calm in
  let osArgs := ["-b"; "1"; "data.bin"; "nope"; "empty"]%string in
  exists rs w' code,
    main parseDecimal 10 osArgs w = (Exit code, w') /\
    length rs = 3%nat /\
    openedPaths (news w w') = ["data.bin"; "nope"; "empty"]%string /\
    (code = 1 <-> Exists (fun r => r = false) rs).
Proof.
  intros w osArgs.
  destruct (main_rewrites_every_path parseDecimal 10 osArgs w
              (mkFlags false 1 false ["data.bin"; "nope"; "empty"]%string))
    as (rs & w' & code & Hmain & _ & Hlen & Ho & _ & H1);
    [vm_compute; reflexivity | reflexivity | discriminate | reflexivity
     | vm_compute; split; discriminate
     | apply fitsb_fits; vm_compute; reflexivity |].
  exists rs, w', code. exact (conj Hmain (conj Hlen (conj Ho H1))).
Defined.

(** ** Configuration errors *)

(** C6 does not hold as stated: [filerewrite -h] has no path argument and
    exits with status 0. *)
Lemma bad_configuration_always_exits_2_fails :
  ~ bad_configuration_always_exits_2 parseDecimal.
Proof.
  intros H.
  destruct (H 1%nat ["-h"]%string (sampleWorld linux_amd64 calm)
              (mkFlags false 8 true [])) as [Hexit _];
    [vm_compute; reflexivity | by right |].
  vm_compute in Hexit. discriminate Hexit.
Qed.

(** Nor is a buffer size that is not positive always reported:
    [filerewrite -b 0], without a path, prints the usage text only. *)
Lemma main_no_path_hides_invalid_size :
  let w := sampleWorld linux_amd64 calm in
  main parseDecimal 1 ["-b"; "0"]%string w = (Exit 2, emit EvUsage w).
Proof. vm_compute. reflexivity. Qed.

(** C6, amended.  When the arguments are accepted and help is not asked for:
    with no path argument, [main] prints the usage text and exits with status
    2; with a path argument and a buffer size that is not positive, it logs
    the invalid value and exits with status 2.  In both cases it makes no
    system call: no file is opened or written. *)
Theorem main_rejects_bad_configuration (ParseInt : string -> option Z)
    (fuel : nat) (osArgs : list string) (w : World) (flags : Flags) :
  Parse ParseInt (w_platform w) (normalizeGoStyleLongFlags osArgs CommandLine)
  = Some flags ->
  f_help flags = false ->
  f_bufferSizeMB flags <= 0 \/ f_args flags = [] ->
  exists w',
    main ParseInt fuel osArgs w = (Exit 2, w') /\
    news w w' =
      match f_args flags with
      | [] => [EvUsage]
      | _ => [EvLog invalidBufferSizeMsg [AInt (f_bufferSizeMB flags)]]
      end /\
    w_inodes w' = w_inodes w /\ w_fds w' = w_fds w /\ w_tick w' = w_tick w.
Proof.
  intros HP Hh Hbad. unfold main. rewrite HP, Hh.
  destruct (f_args flags) as [|a args] eqn:Ea; simpl.
  - eexists. split; [reflexivity|]. split; [|done].
    unfold news. simpl. by rewrite drop_app_length.
  - destruct Hbad as [Hmb|]; [|done].
    apply Z.leb_le in Hmb. rewrite Hmb.
    eexists. split; [reflexivity|]. split; [|done].
    unfold news. simpl. by rewrite drop_app_length.
Qed.

(** C6 amended, on [filerewrite -b 0 data.bin]. *)
Lemma main_rejects_bad_configuration_witness :
  let w := sampleWorld linux_amd64 calm in
  exists w',
    main parseDecimal 10 ["-b"; "0"; "data.bin"]%string w = (Exit 2, w') /\
    news w w' = [EvLog invalidBufferSizeMsg [AInt 0]] /\
    w_inodes w' = w_inodes w.
Proof.
  intros w.
  destruct (main_rejects_bad_configuration parseDecimal 10
              ["-b"; "0"; "data.bin"]%string w
              (mkFlags false 0 false ["data.bin"]%string))
    as (w' & Hmain & Hnews & Hino & _);
    [vm_compute; reflexivity | reflexivity | left; simpl; lia |].
  exists w'. exact (conj Hmain (conj Hnews Hino)).
Defined.

(** ** The buffer size in bytes *)

Lemma bufferSizeBytesOf_wrap (p : Platform) (mb : Z) :
  0 < intBits p ->
  bufferSizeBytesOf p mb = wrap (intBits p) (mb * 1024 * 1024).
Proof.
  intros Hb. unfold bufferSizeBytesOf. apply wrap_congr; [done|].
  rewrite Zmult_mod, (wrap_mod _ _ Hb), <- Zmult_mod. done.
Qed.

Lemma wrap_half (bits : Z) : 0 < bits -> wrap bits (2 ^ (bits - 1)) = - 2 ^ (bits - 1).
Proof.
  intros Hb. unfold wrap.
  replace (2 ^ (bits - 1) + 2 ^ (bits - 1)) with (2 ^ bits)
    by (rewrite (pow2_split bits Hb); ring).
  rewrite Z_mod_same_full. ring.
Qed.

Lemma wrap_full (bits : Z) : 0 < bits -> wrap bits (2 ^ bits) = 0.
Proof.
  intros Hb. unfold wrap.
  assert (Hp : 0 < 2 ^ (bits - 1)) by (apply Z.pow_pos_nonneg; lia).
  replace (2 ^ bits + 2 ^ (bits - 1)) with (2 ^ (bits - 1) + 1 * 2 ^ bits) by ring.
  rewrite Z_mod_plus_full, Z.mod_small; [ring|].
  rewrite (pow2_split bits Hb). split; [|set (h := 2 ^ (bits - 1)) in *]; lia.
Qed.

Lemma megabytes_overflow (p : Platform) :
  21 < intBits p ->
  bufferSizeBytesOf p (2 ^ (intBits p - 21)) = - 2 ^ (intBits p - 1) /\
  bufferSizeBytesOf p (2 ^ (intBits p - 20)) = 0 /\
  0 < 2 ^ (intBits p - 21) < 2 ^ (intBits p - 20) /\
  2 ^ (intBits p - 20) < 2 ^ (intBits p - 1).
Proof.
  intros Hb.
  assert (H20 : 1024 * 1024 = 2 ^ 20) by reflexivity.
  split; [|split; [|split]].
  - rewrite bufferSizeBytesOf_wrap by lia.
    rewrite <- Z.mul_assoc, H20, <- Z.pow_add_r by lia.
    replace (intBits p - 21 + 20) with (intBits p - 1) by lia.
    apply wrap_half. lia.
  - rewrite bufferSizeBytesOf_wrap by lia.
    rewrite <- Z.mul_assoc, H20, <- Z.pow_add_r by lia.
    replace (intBits p - 20 + 20) with (intBits p) by lia.
    apply wrap_full. lia.
  - split; [apply Z.pow_pos_nonneg; lia|]. apply Z.pow_lt_mono_r; lia.
  - apply Z.pow_lt_mono_r; lia.
Qed.

(** C10. The buffer size in bytes is [bufferSizeMB * 1024 * 1024] on the
    machine integer, wrapping modulo [2 ^ bits]; [main] checks only the
    megabyte value, before the product, and hands the product to
    [rewriteFile] as it is.  So no guard makes the byte count positive: on
    every host with more than 21 bits there are megabyte values that pass the
    check and give a negative byte count, and others that give zero. *)
Theorem bufferSizeBytes_not_guarded :
  (forall p mb, 0 < intBits p ->
     bufferSizeBytesOf p mb = wrap (intBits p) (mb * 1024 * 1024)) /\
  (forall ParseInt fuel osArgs w flags,
     Parse ParseInt (w_platform w) (normalizeGoStyleLongFlags osArgs CommandLine)
     = Some flags ->
     f_help flags = false -> f_args flags <> [] -> 0 < f_bufferSizeMB flags ->
     main ParseInt fuel osArgs w
     = rewriteAll fuel (f_args flags)
         (bufferSizeBytesOf (w_platform w) (f_bufferSizeMB flags)) 0
         (setVerbose (f_verbose flags) w)) /\
  (forall p, 21 < intBits p ->
     exists mb1 mb2,
       0 < mb1 < 2 ^ (intBits p - 1) /\ bufferSizeBytesOf p mb1 < 0 /\
       0 < mb2 < 2 ^ (intBits p - 1) /\ bufferSizeBytesOf p mb2 = 0).
Proof.
  split; [exact bufferSizeBytesOf_wrap|]. split.
  - intros ParseInt fuel osArgs w flags HP Hh Ha Hmb. unfold main.
    rewrite HP, Hh. destruct (f_args flags) as [|a args]; [done|].
    change (length (a :: args) =? 0)%nat with false. cbv iota.
    assert (Hle : (f_bufferSizeMB flags <=? 0) = false) by (apply Z.leb_gt; lia).
    by rewrite Hle.
  - intros p Hb.
    destruct (megabytes_overflow p Hb) as (H1 & H2 & H3 & H4).
    exists (2 ^ (intBits p - 21)), (2 ^ (intBits p - 20)).
    assert (Hp : 0 < 2 ^ (intBits p - 1)) by (apply Z.pow_pos_nonneg; lia).
    rewrite H1, H2. repeat split; lia.
Qed.

(** C10, on a 64-bit host: [-b 17592186044416] passes the check and gives a
    buffer of 0 bytes. *)
Lemma bufferSizeBytes_not_guarded_witness :
  let w := sampleWorld linux_amd64 calm in
  bufferSizeBytesOf linux_amd64 17592186044416 = 0 /\
  main parseDecimal 10 ["-b"; "17592186044416"; "data.bin"]%string w
  = rewriteAll 10 ["data.bin"]%string 0 0 w.
Proof.
  intros w. split; [reflexivity|].
  destruct bufferSizeBytes_not_guarded as (_ & Hmain & _).
  exact (Hmain parseDecimal 10%nat ["-b"; "17592186044416"; "data.bin"]%string w
           (mkFlags false 17592186044416 false ["data.bin"]%string)
           ltac:(vm_compute; reflexivity) eq_refl ltac:(discriminate)
           ltac:(reflexivity)).
Defined.

(** A megabyte value that passes the check and gives a negative byte count
    makes [make] panic in the first call of [rewriteFile]: the process dies
    with status 2 and no path is tried. *)
Lemma main_negative_byte_count_panics :
  let w := sampleWorld linux_amd64 calm in
  bufferSizeBytesOf linux_amd64 8796093022208 = -9223372036854775808 /\
  main parseDecimal 10 ["-b"; "8796093022208"; "data.bin"; "empty"]%string w
  = (Crash "makeslice: len out of range", w).
Proof. split; vm_compute; reflexivity. Qed.

(** ** The end-of-options marker *)

(** After [--] the flag parser takes every argument as a path. *)
Lemma parseArgs_after_dashdash (ParseInt : string -> option Z) (p : Platform)
    (rest : list string) (st : Flags) :
  parseArgs ParseInt p CommandLine ("--"%string :: rest) st = Some (addArgs rest st).
Proof. reflexivity. Qed.

(** ... but the arguments after [--] have been through
    [normalizeGoStyleLongFlags] like the others. *)
Lemma main_after_dashdash (ParseInt : string -> option Z) (p : Platform)
    (paths : list string) :
  Parse ParseInt p (normalizeGoStyleLongFlags ("--"%string :: paths) CommandLine)
  = Some (mkFlags false 8 false (map (normalizeArg CommandLine) paths)).
Proof. rewrite normalizeGoStyleLongFlags_map. reflexivity. Qed.

(** C7 fails on the program.  [filerewrite -- -verbose] is to rewrite the
    file named [-verbose]; the argument after [--] is turned into
    [--verbose] before the flags are parsed, so [rewriteFile] is called on
    [--verbose], a file that does not exist, and the process exits with
    status 1 without having opened [-verbose]. *)
Theorem dashdash_path_named_like_flag_is_changed :
  normalizeGoStyleLongFlags ["--"; "-verbose"]%string CommandLine
  = ["--"; "--verbose"]%string /\
  (forall ParseInt p,
     Parse ParseInt p (normalizeGoStyleLongFlags ["--"; "-verbose"]%string CommandLine)
     = Some (mkFlags false 8 false ["--verbose"]%string)) /\
  (forall ParseInt fuel,
     let w := sampleWorld linux_amd64 calm in
     let run := main ParseInt fuel ["--"; "-verbose"]%string w in
     isRegular w "-verbose" /\
     run.1 = Exit 1 /\
     news w run.2
     = [EvOpen "--verbose" (inl ENOENT);
        EvLog "%s: %v." [AMsg "Unable to open %s" [AStr "--verbose"]; AErr ENOENT]]).
Proof.
  split; [reflexivity|]. split; [reflexivity|].
  intros ParseInt fuel w run. split.
  - exists 4%nat, sampleFile. split; reflexivity.
  - split; reflexivity.
Qed.

(** * Further properties of the program *)

(** ** [normalizeGoStyleLongFlags] *)

Lemma substring_all (s : string) : String.substring 0 (String.length s) s = s.
Proof. induction s as [|c s IH]; simpl; [done | by rewrite IH]. Qed.

Lemma append_empty (s : string) : (s ++ "")%string = s.
Proof.
  induction s as [|c s IH]; [done|].
  change (String c (s +:+ "") = String c s). by rewrite IH.
Qed.

Lemma substring_split (n : nat) (s : string) :
  (strTo n s ++ strFrom n s)%string = s.
Proof.
  unfold strTo, strFrom. revert n. induction s as [|c s IH]; intros [|n]; simpl; try done.
  - by rewrite substring_all.
  - change (String c (String.substring 0 n s
                        +:+ String.substring n (String.length s - n) s) = String c s).
    f_equal. apply IH.
Qed.

Lemma HasPrefix_dash (s : string) :
  HasPrefix s "-" = true -> exists rest, s = String "-" rest.
Proof.
  unfold HasPrefix. intros H. apply String.prefix_correct in H.
  destruct s as [|c s]; [done|]. simpl in H.
  assert (H0 : String.substring 0 0 s = ""%string) by (by destruct s).
  rewrite H0 in H. injection H as ->. by eauto.
Qed.

Lemma TrimPrefix_dash (rest : string) : TrimPrefix (String "-" rest) "-" = rest.
Proof.
  unfold TrimPrefix, HasPrefix, strFrom.
  assert (H : String.prefix "-" (String "-" rest) = true).
  { apply String.prefix_correct. simpl. by destruct rest. }
  rewrite H. simpl. rewrite Nat.sub_0_r. apply substring_all.
Qed.

(** What [normalizeGoStyleLongFlags] does to one argument: nothing, or it
    puts one more dash in front of a single-dash argument of more than two
    bytes whose name is a defined long flag. *)
Lemma normalizeArg_cases (fs : list Flag) (arg : string) :
  normalizeArg fs arg = arg \/
  (normalizeArg fs arg = String "-" arg /\
   HasPrefix arg "-" = true /\ HasPrefix arg "--" = false /\
   (2 < String.length arg)%nat /\
   exists flag, Lookup fs (flagNameOf arg) = Some flag).
Proof.
  unfold normalizeArg, flagNameOf.
  destruct (HasPrefix arg "-") eqn:E1; simpl; [|by left].
  destruct (HasPrefix arg "--") eqn:E2; simpl; [by left|].
  destruct (String.eqb arg "-") eqn:E3; [by left|].
  destruct (String.length arg <=? 2)%nat eqn:E4; [by left|].
  apply Nat.leb_gt in E4.
  destruct (HasPrefix_dash _ E1) as [rest ->].
  rewrite TrimPrefix_dash.
  destruct (0 <=? Index rest "=") eqn:E5.
  - destruct (Lookup fs (strTo _ rest)) as [flag|] eqn:EL; [|by left].
    right. split; [|by eauto]. simpl. by rewrite substring_split.
  - destruct (Lookup fs rest) as [flag|] eqn:EL; [|by left].
    right. split; [|by eauto]. simpl. by rewrite append_empty.
Qed.

Lemma normalizeArg_dashdash (fs : list Flag) (arg : string) :
  HasPrefix arg "--" = true -> normalizeArg fs arg = arg.
Proof.
  intros H. unfold normalizeArg. rewrite H.
  by destruct (negb (HasPrefix arg "-")).
Qed.

Lemma normalizeArg_plain (fs : list Flag) (arg : string) :
  plain arg -> normalizeArg fs arg = arg.
Proof. unfold plain, normalizeArg. by intros ->. Qed.

Lemma HasPrefix_two_dashes (rest : string) :
  HasPrefix (String "-" rest) "-" = true ->
  HasPrefix (String "-" (String "-" rest)) "--" = true.
Proof.
  intros _. unfold HasPrefix. apply String.prefix_correct. simpl. by destruct rest.
Qed.

(** X1. [normalizeGoStyleLongFlags] keeps the number and the order of the
    arguments; it leaves an argument as it is or puts one more dash in front,
    and it does the latter only to an argument of more than two bytes that
    begins with one dash and whose name, up to the first [=], is a defined
    long flag. *)
Theorem normalizeGoStyleLongFlags_shape (fs : list Flag) (args : list string) :
  length (normalizeGoStyleLongFlags args fs) = length args /\
  forall (i : nat) (arg : string),
    args !! i = Some arg ->
    normalizeGoStyleLongFlags args fs !! i = Some arg \/
    (normalizeGoStyleLongFlags args fs !! i = Some (String "-" arg) /\
     HasPrefix arg "-" = true /\ HasPrefix arg "--" = false /\
     (2 < String.length arg)%nat /\
     exists flag, Lookup fs (flagNameOf arg) = Some flag).
Proof.
  rewrite normalizeGoStyleLongFlags_map. split; [apply length_map|].
  intros i arg Hi. rewrite list_lookup_fmap, Hi. simpl.
  destruct (normalizeArg_cases fs arg) as [->|(-> & H)]; [by left | by right].
Qed.

(** X1, on an argument list with a single-dash long flag. *)
Lemma normalizeGoStyleLongFlags_shape_witness :
  normalizeGoStyleLongFlags ["-buffersize=4"; "f"]%string CommandLine !! 0%nat
  = Some "--buffersize=4"%string /\
  normalizeGoStyleLongFlags ["-buffersize=4"; "f"]%string CommandLine !! 1%nat
  = Some "f"%string.
Proof.
  destruct (normalizeGoStyleLongFlags_shape CommandLine ["-buffersize=4"; "f"]%string)
    as [_ H].
  split.
  - destruct (H 0%nat "-buffersize=4"%string eq_refl) as [H0|[H0 _]];
      [vm_compute in H0; discriminate H0 | exact H0].
  - destruct (H 1%nat "f"%string eq_refl) as [H1|[_ [H1 _]]];
      [exact H1 | vm_compute in H1; discriminate H1].
Defined.

(** X2. Normalising twice is normalising once, so [main] treats the
    single-dash and the double-dash spelling of a long flag alike: run on
    arguments that are already normalised it does what it does on the
    original ones. *)
Theorem normalizeGoStyleLongFlags_idempotent :
  (forall fs args,
     normalizeGoStyleLongFlags (normalizeGoStyleLongFlags args fs) fs
     = normalizeGoStyleLongFlags args fs) /\
  (forall ParseInt fuel osArgs w,
     main ParseInt fuel (normalizeGoStyleLongFlags osArgs CommandLine) w
     = main ParseInt fuel osArgs w).
Proof.
  assert (H : forall fs args,
            normalizeGoStyleLongFlags (normalizeGoStyleLongFlags args fs) fs
            = normalizeGoStyleLongFlags args fs).
  { intros fs args. rewrite !normalizeGoStyleLongFlags_map.
    rewrite <- list_fmap_compose. apply list_fmap_ext. intros _ arg _. simpl.
    destruct (normalizeArg_cases fs arg) as [E|(-> & H1 & _)]; [by rewrite !E|].
    apply normalizeArg_dashdash.
    destruct (HasPrefix_dash _ H1) as [rest ->]. by apply HasPrefix_two_dashes. }
  split; [exact H|].
  intros ParseInt fuel osArgs w. unfold main. by rewrite H.
Qed.

(** ** [main] on plain arguments *)

Lemma addArgs_addArgs (l1 l2 : list string) (st : Flags) :
  addArgs l2 (addArgs l1 st) = addArgs (l1 ++ l2) st.
Proof. unfold addArgs. simpl. by rewrite <- (assoc (++)). Qed.

Lemma parseArgs_plain (ParseInt : string -> option Z) (p : Platform)
    (fs : list Flag) (args : list string) (st : Flags) :
  Forall plain args -> parseArgs ParseInt p fs args st = Some (addArgs args st).
Proof.
  intros H. revert st. induction H as [|s args Hs _ IH]; intros st; simpl.
  - unfold addArgs. rewrite app_nil_r. by destruct st.
  - unfold plain in Hs. rewrite Hs. simpl.
    rewrite orb_true_r. simpl. by rewrite IH, addArgs_addArgs.
Qed.

Lemma bufferSizeBytesOf_default (p : Platform) :
  25 <= intBits p -> bufferSizeBytesOf p 8 = 8388608.
Proof.
  intros Hb. unfold bufferSizeBytesOf.
  assert (Hp : 2 ^ 24 <= 2 ^ (intBits p - 1)) by (apply Z.pow_le_mono_r; lia).
  change (2 ^ 24) with 16777216 in Hp.
  rewrite (wrap_small _ (8 * 1024)) by lia.
  apply wrap_small; lia.
Qed.

(** X3. Called with paths only, none of them beginning with a dash, [main]
    hands every path to [rewriteFile] as it is, in order, with verbose
    logging off and the default buffer of 8 MB, that is 8388608 bytes. *)
Theorem main_plain_paths (ParseInt : string -> option Z) (fuel : nat)
    (paths : list string) (w : World) :
  Forall plain paths -> paths <> [] -> 25 <= intBits (w_platform w) ->
  main ParseInt fuel paths w
  = rewriteAll fuel paths 8388608 0 (setVerbose false w).
Proof.
  intros Hplain Hne Hbits. unfold main.
  assert (Hn : normalizeGoStyleLongFlags paths CommandLine = paths).
  { rewrite normalizeGoStyleLongFlags_map.
    induction Hplain as [|s l Hs _ IH]; [done|]. simpl.
    rewrite (normalizeArg_plain _ _ Hs). f_equal.
    destruct l; [done | by apply IH]. }
  rewrite Hn. unfold Parse. rewrite (parseArgs_plain _ _ _ _ _ Hplain).
  simpl. destruct paths as [|a l]; [done|]. simpl.
  by rewrite bufferSizeBytesOf_default.
Qed.

(** X3, on two paths. *)
Lemma main_plain_paths_witness :
  let w := sampleWorld linux_amd64 calm in
  main parseDecimal 10 ["data.bin"; "empty"]%string w
  = rewriteAll 10 ["data.bin"; "empty"]%string 8388608 0 (setVerbose false w).
Proof.
  intros w. apply main_plain_paths; [| discriminate | vm_compute; discriminate].
  repeat constructor.
Defined.

(** ** The exit status *)

Lemma rewriteAll_status (fuel : nat) (paths : list string) (bs ret : Z) (w : World) :
  ret = 0 \/ ret = 1 ->
  (match (rewriteAll fuel paths bs ret w).1 with
   | Exit code => code = 0 \/ code = 1
   | Crash _ => bs < 0 \/ Z.of_N (maxAlloc (w_platform w)) < bs
   | Unfinished => ~ fits fuel w
   end).
Proof.
  revert ret w. induction paths as [|path paths IH]; intros ret w Hret; simpl; [done|].
  set (w0 := logVerbose "Rewriting %s..." [AStr path] w).
  destruct (logVerbose_yields "Rewriting %s..." [AStr path] w) as [E0 _].
  fold w0 in E0.
  destruct (rewriteFile fuel path bs w0) as [[r | msg |] w1] eqn:ER; simpl.
  - destruct (rewriteFile_spec _ _ _ _ _ _ ER) as (E1 & _).
    assert (E01 : evolves w w1) by (by eapply evolves_trans).
    specialize (IH (if negb r then 1 else ret) w1).
    destruct (rewriteAll fuel paths bs _ w1) as [[code | msg |] w2]; simpl in *.
    + apply IH. destruct r; simpl; tauto.
    + rewrite <- (ev_platform _ _ E01). apply IH. destruct r; simpl; tauto.
    + intros Hfit. apply IH; [destruct r; simpl; tauto|]. by eapply fits_evolves.
  - apply rewriteFile_panics in ER as (Hbad & _).
    by rewrite <- (ev_platform _ _ E0).
  - intros Hfit.
    apply (rewriteFile_terminates fuel path bs w0); [by eapply fits_evolves|].
    by rewrite ER.
Qed.

(** X4. When [fuel] exceeds the sizes of the files, the process ends with
    exit status 0, 1 or 2, whatever the arguments and whatever the kernel
    does; an uncaught panic, which the runtime turns into status 2, comes
    only from a byte count that [make] refuses. *)
Theorem main_exit_status (ParseInt : string -> option Z) (fuel : nat)
    (osArgs : list string) (w : World) :
  fits fuel w ->
  (exists code, exitStatus (main ParseInt fuel osArgs w).1 = Some code /\
                (code = 0 \/ code = 1 \/ code = 2)) /\
  (forall msg flags,
     (main ParseInt fuel osArgs w).1 = Crash msg ->
     Parse ParseInt (w_platform w) (normalizeGoStyleLongFlags osArgs CommandLine)
     = Some flags ->
     let bs := bufferSizeBytesOf (w_platform w) (f_bufferSizeMB flags) in
     bs < 0 \/ Z.of_N (maxAlloc (w_platform w)) < bs).
Proof.
  intros Hfit. unfold main.
  destruct (Parse ParseInt (w_platform w) _) as [flags|]; [|split; [by eauto|done]].
  destruct (f_help flags); [split; [by eauto|done]|].
  destruct (length (f_args flags) =? 0)%nat; [split; [by eauto|done]|].
  destruct (f_bufferSizeMB flags <=? 0); [split; [by eauto 6|done]|].
  pose proof (rewriteAll_status fuel (f_args flags)
                (bufferSizeBytesOf (w_platform w) (f_bufferSizeMB flags)) 0
                (setVerbose (f_verbose flags) w) ltac:(by left)) as H.
  destruct (rewriteAll fuel (f_args flags) _ 0 _) as [[code | msg |] w2];
    simpl in *.
  - split; [|done]. exists code. split; [done|]. tauto.
  - split; [by eauto 6|]. intros msg' flags' _ [= <-]. exact H.
  - by destruct H.
Qed.

(** X4, on a run with one missing file. *)
Lemma main_exit_status_witness :
  let w := sampleWorld linux_amd64 calm in
  exists code,
    exitStatus (main parseDecimal 10 ["data.bin"; "nope"]%string w).1 = Some code /\
    (code = 0 \/ code = 1 \/ code = 2).
Proof.
  intros w.
  exact (proj1 (main_exit_status parseDecimal 10 ["data.bin"; "nope"]%string w
                  ltac:(apply fitsb_fits; vm_compute; reflexivity))).
Defined.

(** ** [statTimes] on any snapshot *)

(** X5. [statTimes] reports success exactly when the snapshot has both
    [Atim] and [Mtim], or both [Atimespec] and [Mtimespec]; it then returns
    the two fields of one and the same pair, the first pair when both are
    there, and never one field of each; otherwise it returns two zero
    times. *)
Theorem statTimes_conventions (sb : Stat_t) (atime mtime : Timespec) (ok : bool) :
  statTimes sb = (atime, mtime, ok) ->
  (ok = true ->
   (FieldByName sb "Atim" = Some atime /\ FieldByName sb "Mtim" = Some mtime) \/
   (FieldByName sb "Atimespec" = Some atime /\
    FieldByName sb "Mtimespec" = Some mtime /\
    (FieldByName sb "Atim" = None \/ FieldByName sb "Mtim" = None))) /\
  (ok = false ->
   atime = zeroTimespec /\ mtime = zeroTimespec /\
   (FieldByName sb "Atim" = None \/ FieldByName sb "Mtim" = None) /\
   (FieldByName sb "Atimespec" = None \/ FieldByName sb "Mtimespec" = None)).
Proof.
  unfold statTimes.
  destruct (FieldByName sb "Atim") as [a1|] eqn:E1;
    destruct (FieldByName sb "Mtim") as [m1|] eqn:E2;
    destruct (FieldByName sb "Atimespec") as [a2|] eqn:E3;
    destruct (FieldByName sb "Mtimespec") as [m2|] eqn:E4;
    intros [= <- <- <-]; split; intros Hok; try discriminate Hok; tauto.
Qed.

(** X5, on a snapshot with one field of each pair. *)
Lemma statTimes_conventions_witness :
  let sb := mkStat S_IFREG
              (<["Atim"%string := mkTimespec 1 0]>
                 (<["Mtimespec"%string := mkTimespec 2 0]> ∅)) in
  statTimes sb = (zeroTimespec, zeroTimespec, false) /\
  (FieldByName sb "Atimespec" = None \/ FieldByName sb "Mtimespec" = None).
Proof.
  intros sb.
  assert (H : statTimes sb = (zeroTimespec, zeroTimespec, false)) by reflexivity.
  split; [exact H|].
  destruct (statTimes_conventions sb _ _ _ H) as [_ Hf].
  destruct (Hf eq_refl) as (_ & _ & _ & H2). exact H2.
Defined.

(** ** What [rewriteFile] leaves alone *)

(** X6. Whether it returns success or failure, or panics, [rewriteFile]
    changes the bytes and the kind of no file, and adds, removes or renames
    none; when it panics it has done nothing at all. *)
Theorem rewriteFile_never_changes_content (fuel : nat) (path : string) (bs : Z)
    (w w' : World) (out : Outcome bool) :
  rewriteFile fuel path bs w = (out, w') -> out <> OutOfFuel ->
  w_names w' = w_names w /\
  (forall ino, content <$> (w_inodes w' !! ino) = content <$> (w_inodes w !! ino)) /\
  (forall p, fileData w' p = fileData w p) /\
  (forall msg, out = Panicked msg -> w' = w).
Proof.
  intros H Hout. destruct out as [r | msg |]; [| |done].
  - destruct (rewriteFile_spec _ _ _ _ _ _ H) as (E & _).
    split; [apply E|]. split; [apply E|]. split; [|done].
    intros p. by apply evolves_fileData.
  - apply rewriteFile_panics in H as (_ & -> & _). done.
Qed.

(** X6, on a run whose second write fails. *)
Lemma rewriteFile_never_changes_content_witness :
  let w := sampleWorld linux_amd64 (failingAt 5 EIO) in
  (rewriteFile 10 "data.bin" 2 w).1 = Returned false /\
  fileData (rewriteFile 10 "data.bin" 2 w).2 "data.bin" = Some sampleData.
Proof.
  intros w. split; [vm_compute; reflexivity|].
  destruct (rewriteFile_never_changes_content 10 "data.bin" 2 w
              (rewriteFile 10 "data.bin" 2 w).2 (Returned false))
    as (_ & _ & Hd & _); [vm_compute; reflexivity | discriminate |].
  rewrite Hd. reflexivity.
Defined.

(** ** Descriptors *)

Lemma lowestFree_ge (fds : gmap Z nat) (fuel : nat) (fd : Z) :
  fd <= lowestFree fds fuel fd.
Proof.
  revert fd. induction fuel as [|k IH]; intros fd; simpl; [lia|].
  destruct (fds !! fd); [|lia]. specialize (IH (fd + 1)). lia.
Qed.

Lemma lowestFree_ext (m1 m2 : gmap Z nat) (fuel : nat) (fd : Z) :
  (forall j, fd <= j -> m1 !! j = m2 !! j) ->
  lowestFree m1 fuel fd = lowestFree m2 fuel fd.
Proof.
  revert fd. induction fuel as [|k IH]; intros fd H; simpl; [done|].
  rewrite <- (H fd) by lia. destruct (m1 !! fd); [|done].
  apply IH. intros j Hj. apply H. lia.
Qed.

Lemma lowestFree_free (fds : gmap Z nat) (fuel : nat) (fd : Z) :
  (size fds <= fuel)%nat -> fds !! lowestFree fds fuel fd = None.
Proof.
  revert fds fd. induction fuel as [|k IH]; intros fds fd Hsize; simpl.
  - assert (fds = ∅) as -> by (apply map_size_empty_inv; lia). apply lookup_empty.
  - destruct (fds !! fd) as [v|] eqn:E; [|done].
    rewrite (lowestFree_ext fds (delete fd fds) k (fd + 1)).
    2: { intros j Hj. rewrite lookup_delete_ne; [done | lia]. }
    pose proof (lowestFree_ge (delete fd fds) k (fd + 1)) as Hge.
    rewrite <- (lookup_delete_ne fds fd) by lia.
    apply IH. rewrite map_size_delete, E. simpl. lia.
Qed.

(** The descriptor [Open] returns was not in use. *)
Lemma Open_fresh (path : string) (w w' : World) (fd : Z) :
  Open path w = (inr fd, w') -> w_fds w !! fd = None.
Proof.
  unfold Open. intros H.
  assert (Hfd : fd = allocFd (w_fds w)).
  { destruct (fault (response w)); [by simplify_eq|].
    destruct (pathInode (advance w) path) as [[ino i]|]; [|by simplify_eq].
    destruct (fileType i =? S_IFLNK); [by simplify_eq|].
    destruct (fileType i =? S_IFDIR); by simplify_eq. }
  rewrite Hfd. by apply lowestFree_free.
Qed.

(** X7. [rewriteFile] leaves the table of open descriptors as it found it,
    on every path through the function that returns: the descriptor it
    opened was a free one, and closing it is the last thing the call does. *)
Theorem rewriteFile_releases_descriptor (fuel : nat) (path : string) (bs : Z)
    (w w' : World) (r : bool) :
  rewriteFile fuel path bs w = (Returned r, w') ->
  w_fds w' = w_fds w /\
  forall fd, head (news w w') = Some (EvOpen path (inr fd)) ->
             w_fds w !! fd = None /\ last (news w w') = Some (EvClose fd).
Proof.
  unfold rewriteFile.
  destruct (make (w_platform w) bs) as [buf|] eqn:EM; [|done].
  destruct (Open path w) as [[e|fd0] w1] eqn:EO;
    destruct (Open_spec _ _ _ _ EO) as (Y1 & I1 & _ & HO).
  { intros [= <- <-].
    pose proof (yields_trans _ _ _ _ _ Y1 (logWarningWithError_yields e
                  "Unable to open %s" [AStr path] w1)) as [_ N].
    split; [done|]. rewrite N. intros fd [=]. }
  destruct HO as (_ & ino & i & _ & Hfd & _ & _ & HF).
  pose proof (Open_fresh _ _ _ _ EO) as Hfresh.
  destruct (rewriteOpen fuel path fd0 buf w1) as [[ret|] w2] eqn:ER; [|done].
  intros [= <- <-].
  destruct (rewriteOpen_spec _ _ _ _ _ _ _ _ _ Hfd ER) as (F2 & l & Y2 & _).
  destruct (Close_spec fd0 w2) as (Y3 & _ & F3).
  pose proof (yields_trans _ _ _ _ _ Y1 (yields_trans _ _ _ _ _ Y2 Y3)) as [_ N].
  split.
  - rewrite F3, F2, HF. by apply delete_insert_id.
  - rewrite N. intros fd [= <-]. split; [done|].
    rewrite (assoc (++)). apply last_snoc.
Qed.

(** X7, on a run that succeeds. *)
Lemma rewriteFile_releases_descriptor_witness :
  let w := sampleWorld linux_amd64 calm in
  w_fds (rewriteFile 10 "data.bin" 2 w).2 = w_fds w /\
  last (news w (rewriteFile 10 "data.bin" 2 w).2) = Some (EvClose 3).
Proof.
  intros w.
  destruct (rewriteFile_releases_descriptor 10 "data.bin" 2 w
              (rewriteFile 10 "data.bin" 2 w).2 true) as [Hf Hl];
    [vm_compute; reflexivity|].
  split; [exact Hf|]. apply (Hl 3). vm_compute. reflexivity.
Defined.

(** ** Paths that are not regular files *)

Lemma pathInode_lookup (w : World) (path : string) (ino : nat) (i : Inode) :
  pathInode w path = Some (ino, i) ->
  w_names w !! path = Some ino /\ w_inodes w !! ino = Some i.
Proof.
  unfold pathInode. destruct (w_names w !! path) as [k|]; [|done].
  destruct (w_inodes w !! k) eqn:E; [|done]. by intros [= <- <-].
Qed.

(** X8. On a path that names something other than a regular file (a
    directory, a symbolic link, a FIFO, a device, a socket) [rewriteFile]
    returns failure without a single read, write or timestamp call: every
    file keeps its bytes and its timestamps. *)
Theorem rewriteFile_skips_non_regular (fuel : nat) (path : string) (bs : Z)
    (w w' : World) (r : bool) (ino : nat) (i : Inode) :
  pathInode w path = Some (ino, i) -> fileType i <> S_IFREG ->
  rewriteFile fuel path bs w = (Returned r, w') ->
  r = false /\ w_inodes w' = w_inodes w /\
  Forall (fun ev => isTransfer ev = false /\ isFutimes ev = false) (news w w').
Proof.
  intros Hp Hreg. unfold rewriteFile.
  destruct (make (w_platform w) bs) as [buf|] eqn:EM; [|done].
  destruct (Open path w) as [[e|fd] w1] eqn:EO;
    destruct (Open_spec _ _ _ _ EO) as (Y1 & I1 & _ & HO).
  { intros [= <- <-].
    pose proof (yields_trans _ _ _ _ _ Y1 (logWarningWithError_yields e
                  "Unable to open %s" [AStr path] w1)) as [_ N].
    split; [done|]. split; [done|]. rewrite N. by repeat constructor. }
  destruct HO as (_ & ino' & i' & Hp' & Hfd & _).
  rewrite Hp in Hp'. injection Hp' as <- <-.
  unfold rewriteOpen.
  destruct (Fstat fd w1) as [[e|sb] w2] eqn:ES;
    destruct (Fstat_spec _ _ _ _ ES) as (Y2 & F2 & I2 & _ & Hsb).
  { intros [= <- <-].
    destruct (Close_spec fd (logWarningWithError e "Unable to stat %s" [AStr path] w2))
      as (Y3 & I3 & _).
    pose proof (yields_trans _ _ _ _ _ Y1 (yields_trans _ _ _ _ _ Y2
                 (yields_trans _ _ _ _ _ (logWarningWithError_yields e
                    "Unable to stat %s" [AStr path] w2) Y3))) as [_ N].
    split; [done|]. split; [rewrite I3; simpl; congruence|].
    rewrite N. by repeat constructor. }
  destruct Hsb as (_ & ino1 & i1 & Hfd1 & ->).
  rewrite Hfd in Hfd1. injection Hfd1 as <- <-.
  rewrite Mode_statOf. fold (fileType i).
  apply Z.eqb_neq in Hreg. rewrite Hreg. simpl.
  intros [= <- <-].
  destruct (Close_spec fd (logWarning "%s is not a regular file, skipping."
                             [AStr path] w2)) as (Y3 & I3 & _).
  pose proof (yields_trans _ _ _ _ _ Y1 (yields_trans _ _ _ _ _ Y2
               (yields_trans _ _ _ _ _ (logWarning_yields
                  "%s is not a regular file, skipping." [AStr path] w2) Y3))) as [_ N].
  split; [done|]. split; [rewrite I3; simpl; congruence|].
  rewrite N. by repeat constructor.
Qed.

(** X8, on the directory of the sample file system. *)
Lemma rewriteFile_skips_non_regular_witness :
  let w := sampleWorld linux_amd64 calm in
  (rewriteFile 10 "dir" 4 w).1 = Returned false /\
  w_inodes (rewriteFile 10 "dir" 4 w).2 = w_inodes w.
Proof.
  intros w.
  destruct (rewriteFile_skips_non_regular 10 "dir" 4 w
              (rewriteFile 10 "dir" 4 w).2 false 3 sampleDir)
    as (_ & Hi & _);
    [vm_compute; reflexivity | vm_compute; discriminate | vm_compute; reflexivity |].
  split; [vm_compute; reflexivity | exact Hi].
Defined.

(** X9. On a path that does not exist, or that names a symbolic link or a
    directory, the open itself fails: [rewriteFile] returns failure having
    made that one system call and logged its error; no descriptor is left
    open and no file is touched. *)
Theorem rewriteFile_unopenable (fuel : nat) (path : string) (bs : Z)
    (w w' : World) (r : bool) :
  pathInode w path = None \/
  (exists ino i, pathInode w path = Some (ino, i) /\
                 (fileType i = S_IFLNK \/ fileType i = S_IFDIR)) ->
  rewriteFile fuel path bs w = (Returned r, w') ->
  r = false /\
  (exists e,
     news w w' = [EvOpen path (inl e);
                  EvLog "%s: %v." [AMsg "Unable to open %s" [AStr path]; AErr e]]) /\
  w_inodes w' = w_inodes w /\ w_fds w' = w_fds w.
Proof.
  intros Hbad. unfold rewriteFile.
  destruct (make (w_platform w) bs) as [buf|] eqn:EM; [|done].
  destruct (Open path w) as [[e|fd] w1] eqn:EO;
    destruct (Open_spec _ _ _ _ EO) as (Y1 & I1 & _ & HO).
  - intros [= <- <-].
    pose proof (yields_trans _ _ _ _ _ Y1 (logWarningWithError_yields e
                  "Unable to open %s" [AStr path] w1)) as [_ N].
    split; [done|]. split; [by exists e|]. by split.
  - exfalso. destruct HO as (_ & ino & i & Hp & _ & H1 & H2 & _).
    destruct Hbad as [Hn|(ino' & i' & Hp' & [Hl|Hd])]; [congruence | |];
      rewrite Hp in Hp'; injection Hp' as <- <-; done.
Qed.

(** X9, on a path that does not exist. *)
Lemma rewriteFile_unopenable_witness :
  let w := sampleWorld linux_amd64 calm in
  (rewriteFile 10 "nope" 4 w).1 = Returned false /\
  w_fds (rewriteFile 10 "nope" 4 w).2 = w_fds w.
Proof.
  intros w.
  destruct (rewriteFile_unopenable 10 "nope" 4 w (rewriteFile 10 "nope" 4 w).2 false)
    as (_ & _ & _ & Hf); [left; vm_compute; reflexivity | vm_compute; reflexivity |].
  split; [vm_compute; reflexivity | exact Hf].
Defined.

(** ** Every byte is written back *)

Lemma Covers_app (content : list byte) (a b c : Z) (l1 l2 : list Event) :
  Covers content a l1 b -> Covers content b l2 c -> Covers content a (l1 ++ l2) c.
Proof.
  induction 1 as [| fd data off n l fin Hn Ht _ IH | ev l cur fin Hev _ IH];
    intros H2; simpl; [done | | ].
  - apply CoversWrite; [done | done | by apply IH].
  - apply CoversOther; [done | by apply IH].
Qed.

Lemma Covers_skip (content : list byte) (cur : Z) (l : list Event) :
  Forall (fun ev => isWrite ev = false) l -> Covers content cur l cur.
Proof.
  induction 1 as [|ev l Hev _ IH]; [apply CoversNil | by apply CoversOther].
Qed.

Lemma vlog_not_write (v : bool) (format : string) (args : list LogArg) :
  Forall (fun ev => isWrite ev = false) (vlog v format args).
Proof. destruct v; by repeat constructor. Qed.

(** A pass that continues wrote back, at its offset, bytes of the file. *)
Lemma copyStep_continue_covers (path : string) (fd buf off off' : Z) (w w' : World)
    (ino : nat) (i : Inode) :
  copyStep path fd buf off w = (Continue off', w') ->
  fdInode w fd = Some (ino, i) -> fdSize w fd <= maxInt64 ->
  off < off' <= fdSize w fd /\ Covers (i_data i) off (news w w') off'.
Proof.
  intros ES Hi Hmax. pose proof ES as ES'. revert ES'. unfold copyStep.
  destruct (Pread fd buf off w) as [[e|got] w1] eqn:ER; [done|].
  destruct (Z.of_nat (length got) =? 0) eqn:E0; [done|].
  apply Z.eqb_neq in E0.
  set (w2 := logVerbose _ _ w1).
  destruct (Pwrite fd got off w2) as [[e|wdone] w3] eqn:EW; [done|].
  destruct (wdone =? 0) eqn:Ew; [done|].
  apply Z.eqb_neq in Ew.
  set (w4 := logVerbose _ _ w3).
  set (w5 := if wdone <? _ then _ else w4).
  intros [= <- <-].
  destruct (Pread_got _ _ _ _ _ _ ER) as (_ & Hoff & ino0 & i0 & i' & Hi0 & _ & _ & Hgot).
  rewrite Hi in Hi0. injection Hi0 as <- <-.
  destruct (Pwrite_done _ _ _ _ _ _ EW) as (_ & _ & Hn).
  pose proof (writeCount_bounds (limit (response w2)) (Z.of_nat (length got))
                ltac:(lia)) as Hb.
  rewrite <- Hn in Hb.
  assert (Hpre : got `prefix_of` drop (Z.to_nat off) (i_data i)).
  { rewrite Hgot. apply take_prefix_of_drop. }
  assert (Hlen : off + Z.of_nat (length got) <= fdSize w fd).
  { unfold fdSize. rewrite Hi. destruct Hpre as [k Hk].
    apply (f_equal length) in Hk. rewrite length_drop, length_app in Hk. lia. }
  rewrite wrap64_small by (rewrite minInt64_value; lia).
  split; [lia|].
  destruct (Pread_spec _ _ _ _ _ _ ER) as (Y1 & _).
  pose proof (logVerbose_yields "Read %d from %s at offset %d."
                [AInt (Z.of_nat (length got)); AStr path; AInt off] w1) as Y2.
  fold w2 in Y2.
  destruct (Pwrite_spec _ _ _ _ _ _ EW) as (Y3 & _).
  { intros k j Hk. unfold w2 in Hk. rewrite logVerbose_fdInode in Hk.
    by eapply Pread_prefix. }
  pose proof (logVerbose_yields "Wrote %d to %s at offset %d."
                [AInt wdone; AStr path; AInt off] w3) as Y4.
  fold w4 in Y4.
  assert (Y5 : exists l5, yields w4 w5 l5 /\ Forall (fun ev => isWrite ev = false) l5).
  { unfold w5. destruct (wdone <? _).
    - eexists. split; [apply logWarning_yields | by repeat constructor].
    - exists []. split; [apply yields_refl | constructor]. }
  destruct Y5 as (l5 & Y5 & H5).
  pose proof (yields_trans _ _ _ _ _ Y1 (yields_trans _ _ _ _ _ Y2
               (yields_trans _ _ _ _ _ Y3 (yields_trans _ _ _ _ _ Y4 Y5)))) as [_ N].
  rewrite N.
  apply (Covers_app _ _ off); [apply Covers_skip; by repeat constructor|].
  apply (Covers_app _ _ off); [apply Covers_skip, vlog_not_write|].
  apply CoversWrite; [lia | |].
  - destruct Hpre as [k ->]. rewrite take_app_le; [done|lia].
  - apply (Covers_app _ _ (off + wdone)); apply Covers_skip;
      [apply vlog_not_write | done].
Qed.

(** A pass that leaves the loop found nothing more to read. *)
Lemma copyStep_break_at_end (path : string) (fd buf off : Z) (w w' : World)
    (ino : nat) (i : Inode) :
  copyStep path fd buf off w = (Break, w') ->
  fdInode w fd = Some (ino, i) -> 0 < buf ->
  fdSize w fd <= off /\ news w w' = [EvPread fd buf off (inr 0)].
Proof.
  intros ES Hi Hbuf.
  destruct (copyStep_spec _ _ _ _ _ _ _ ES) as (_ & l & [_ N] & T).
  split; [|rewrite N; by inversion T].
  revert ES. unfold copyStep.
  destruct (Pread fd buf off w) as [[e|got] w1] eqn:ER; [done|].
  destruct (Z.of_nat (length got) =? 0) eqn:E0.
  2: { destruct (Pwrite _ _ _ _) as [[?|wdone] ?]; [done|].
       by destruct (wdone =? 0). }
  intros _. apply Z.eqb_eq in E0.
  destruct (Pread_got _ _ _ _ _ _ ER) as (_ & Hoff & ino0 & i0 & i' & Hi0 & _ & _ & Hgot).
  rewrite Hi in Hi0. injection Hi0 as <- <-.
  unfold fdSize. rewrite Hi.
  set (left := Z.of_nat (length (drop (Z.to_nat off) (i_data i)))) in *.
  destruct (readCount_bounds (limit (response w)) buf left ltac:(lia))
    as (H1 & H2 & H3 & H4).
  assert (Hl : left = 0).
  { destruct (decide (left = 0)) as [|Hne]; [done|]. exfalso.
    assert (0 < left) by lia. specialize (H4 Hbuf H).
    apply (f_equal length) in Hgot. rewrite length_take in Hgot.
    unfold left in *. lia. }
  unfold left in Hl. rewrite length_drop in Hl. lia.
Qed.

Lemma copyLoop_covers (fuel : nat) (path : string) (fd buf off : Z) (w w' : World)
    (ino : nat) (i : Inode) :
  copyLoop fuel path fd buf off w = (Some true, w') ->
  0 < buf -> fdInode w fd = Some (ino, i) -> fdSize w fd <= maxInt64 ->
  0 <= off <= fdSize w fd ->
  Covers (i_data i) off (news w w') (fdSize w fd).
Proof.
  revert off w i. induction fuel as [|fuel IH]; intros off w i; simpl; [done|].
  destruct (copyStep path fd buf off w) as [s w1] eqn:ES.
  intros EL Hbuf Hi Hmax Hoff.
  destruct s as [off'| |]; [| |done].
  - destruct (copyStep_continue_covers _ _ _ _ _ _ _ _ _ ES Hi Hmax) as [Hlt HC].
    destruct (copyStep_spec _ _ _ _ _ _ _ ES) as (F1 & l1 & [E1 _] & _).
    destruct (copyLoop_spec _ _ _ _ _ _ _ _ EL) as (_ & l2 & [E2 _] & _).
    pose proof (evolves_fdSize _ _ fd E1 F1) as Hsz.
    destruct (evolves_fdInode _ _ _ _ _ E1 F1 Hi) as (i1 & Hi1 & C1).
    assert (Hd : i_data i1 = i_data i) by (unfold content in C1; congruence).
    rewrite (news_trans w w1 w') by done.
    apply (Covers_app _ _ off'); [done|].
    rewrite <- Hsz, <- Hd. apply IH; try done; rewrite ?Hsz; lia.
  - injection EL as <-.
    destruct (copyStep_break_at_end _ _ _ _ _ _ _ _ ES Hi Hbuf) as [Hend ->].
    replace (fdSize w fd) with off by lia.
    apply Covers_skip. by repeat constructor.
Qed.

(** X10.  A successful call of [rewriteFile] with a buffer of at least one
    byte writes the whole file back: its writes all succeed, the first one
    is at offset 0, each next one starts where the one before ended, the
    last one ends at the size of the file, and each write puts at its offset
    the bytes the file had there.  No byte is skipped, even when reads or
    writes come back short. *)
Theorem rewriteFile_writes_back_every_byte (fuel : nat) (path : string) (bs : Z)
    (w w' : World) (ino : nat) (i : Inode) :
  0 < bs ->
  pathInode w path = Some (ino, i) ->
  Z.of_nat (length (i_data i)) <= maxInt64 ->
  rewriteFile fuel path bs w = (Returned true, w') ->
  Covers (i_data i) 0 (news w w') (Z.of_nat (length (i_data i))).
Proof.
  intros Hbs Hp Hmax. unfold rewriteFile.
  destruct (make (w_platform w) bs) as [buf|] eqn:EM; [|done].
  apply make_Some in EM as [-> _].
  destruct (Open path w) as [[e|fd] w1] eqn:EO; [done|].
  destruct (Open_spec _ _ _ _ EO) as (Y1 & _ & _ & _ & ino0 & i0 & Hp0 & Hfd & _).
  rewrite Hp in Hp0. injection Hp0 as <- <-.
  destruct (rewriteOpen fuel path fd bs w1) as [[ret|] w5] eqn:ER; [|done].
  intros [= -> <-].
  destruct (Close_spec fd w5) as (Y5 & _).
  revert ER. unfold rewriteOpen.
  destruct (Fstat fd w1) as [[e|sb] w2] eqn:ES; [done|].
  destruct (Fstat_spec _ _ _ _ ES) as (Y2 & F2 & I2 & _ & _ & ino1 & i1 & Hfd1 & ->).
  rewrite Hfd in Hfd1. injection Hfd1 as <- <-.
  destruct (negb _); [done|].
  destruct (copyLoop fuel path fd bs 0 w2) as [[[]|] w3] eqn:EL; [|done|done].
  destruct (copyLoop_spec _ _ _ _ _ _ _ _ EL) as (F3 & l3 & Y3 & _).
  destruct (restoreTimes path fd _ w3) as [ret w4] eqn:ET.
  intros [= -> <-].
  destruct (restoreTimes_spec _ _ _ _ _ _ _ ET) as (_ & l4 & Y4 & H4).
  assert (N4 : Forall (fun ev => isWrite ev = false) l4).
  { destruct (statLayout (w_platform w1)); [| |by destruct H4].
    all: destruct H4 as (atv & mtv & _ & _ & -> & _).
    all: apply Forall_app; split; [by repeat constructor | apply vlog_not_write]. }
  destruct (evolves_fdInode w1 w2 fd ino i (proj1 Y2) F2 Hfd) as (i2 & Hfd2 & C2).
  assert (Hd : i_data i2 = i_data i) by (unfold content in C2; congruence).
  pose proof (copyLoop_covers _ _ _ _ _ _ _ _ _ EL Hbs Hfd2) as HC.
  unfold fdSize in HC. rewrite Hfd2, Hd in HC.
  specialize (HC Hmax ltac:(lia)).
  pose proof (yields_trans _ _ _ _ _ Y1 (yields_trans _ _ _ _ _ Y2
               (yields_trans _ _ _ _ _ (conj (proj1 Y3) eq_refl)
                 (yields_trans _ _ _ _ _ Y4 Y5)))) as [_ N].
  rewrite N.
  apply (Covers_app _ _ 0); [apply Covers_skip; by repeat constructor|].
  apply (Covers_app _ _ 0); [apply Covers_skip; by repeat constructor|].
  apply (Covers_app _ _ _ _ _ _ HC).
  apply (Covers_app _ _ (Z.of_nat (length (i_data i)))); apply Covers_skip;
    [done | by repeat constructor].
Qed.

(** X10, on a file of five bytes, a buffer of 2 bytes and a kernel that moves
    one byte per call. *)
Lemma rewriteFile_writes_back_every_byte_witness :
  let w := sampleWorld linux_amd64 (stingy 1) in
  Covers sampleData 0 (news w (rewriteFile 10 "data.bin" 2 w).2) 5.
Proof.
  intros w.
  apply (rewriteFile_writes_back_every_byte 10 "data.bin" 2 w
           (rewriteFile 10 "data.bin" 2 w).2 1%nat sampleFile);
    [lia | vm_compute; reflexivity | vm_compute; discriminate | vm_compute; reflexivity].
Defined.

(** ** Success, failure and what the trace shows *)

Lemma not_verbose_format (format : string) :
  format ∈ verboseFormats ->
  format <> "%s: %v."%string /\
  format <> "Wrote nothing to %s at offset %d."%string /\
  format <> "%s is not a regular file, skipping."%string /\
  format <> unsupportedMsg.
Proof.
  intros H. unfold verboseFormats in H. elem_cases H; subst; by repeat split.
Qed.

Lemma StepTrace_fail_warns (path : string) (fd buf off : Z) (v : bool)
    (l : list Event) :
  StepTrace path fd buf off v Fail l ->
  exists l0 format args, (format ∉ verboseFormats) /\ l = l0 ++ [EvLog format args].
Proof.
  inversion 1; subst.
  - exists [EvPread fd buf off (inl e)]. do 2 eexists. split; [|done].
    intros Hin. by destruct (not_verbose_format _ Hin) as (? & _).
  - eexists (_ :: vlog v _ _ ++ [_]). do 2 eexists. split.
    + intros Hin. by destruct (not_verbose_format _ Hin) as (? & _).
    + simpl. by rewrite <- (assoc (++)).
  - eexists (_ :: vlog v _ _ ++ [_]). do 2 eexists. split.
    + intros Hin. by destruct (not_verbose_format _ Hin) as (_ & ? & _).
    + simpl. by rewrite <- (assoc (++)).
Qed.

Lemma LoopTrace_fail_warns (path : string) (fd buf off : Z) (v : bool)
    (l : list Event) :
  LoopTrace path fd buf v off (Some false) l ->
  exists l0 format args, (format ∉ verboseFormats) /\ l = l0 ++ [EvLog format args].
Proof.
  intros H. remember (Some false) as r eqn:Er.
  induction H as [| | ? ? H | ? ? l1 l2 ? _ _ IH]; try done.
  - by eapply StepTrace_fail_warns.
  - destruct (IH Er) as (l0 & format & args & Hf & ->).
    exists (l1 ++ l0), format, args. split; [done|]. by rewrite (assoc (++)).
Qed.

Lemma LoopTrace_no_Futimes (path : string) (fd buf off : Z) (v : bool)
    (r : option bool) (l : list Event) (ev : Event) :
  LoopTrace path fd buf v off r l -> ev ∈ l -> isFutimes ev = false.
Proof.
  intros H Hin. apply LoopTrace_events in H. rewrite Forall_forall in H.
  apply H in Hin. by destruct ev.
Qed.

(** X11.  [rewriteFile] returns true exactly when it has set the timestamps:
    a call that returns true made a call of [Futimes] that succeeded, and a
    call that returns false made none that succeeded. *)
Theorem rewriteFile_true_iff_times_set (fuel : nat) (path : string) (bs : Z)
    (w w' : World) (r : bool) :
  rewriteFile fuel path bs w = (Returned r, w') ->
  r = true <-> exists fd atv mtv, EvFutimes fd atv mtv None ∈ news w w'.
Proof.
  intros H. destruct (rewriteFile_spec _ _ _ _ _ _ H) as (_ & T & _).
  set (evs := news w w') in *. clearbody evs. split.
  - intros ->. inversion T as [|fd ret body HB]; subst.
    inversion HB as [| | | | |l atv mtv Hlay HL]; subst.
    exists fd, atv, mtv.
    apply elem_of_app; right. apply elem_of_app; left.
    apply elem_of_app; right. apply elem_of_app; right.
    apply elem_of_app; left. apply elem_of_cons; by left.
  - intros (fd0 & atv0 & mtv0 & Hin). destruct r; [done|]. exfalso.
    inversion T as [|fd ret body HB]; subst; [elem_cases Hin|].
    inversion HB as [| |l HL|l Hlay HL|l atv mtv e Hlay HL|]; subst;
      elem_cases Hin.
    all: by apply (LoopTrace_no_Futimes _ _ _ _ _ _ _ _ HL) in Hin.
Qed.

(** X11, on a run that succeeds and on one whose [Futimes] fails. *)
Lemma rewriteFile_true_iff_times_set_witness :
  let w := sampleWorld linux_amd64 calm in
  let w2 := sampleWorld linux_amd64 (failingAt 5 EIO) in
  (exists fd atv mtv,
     EvFutimes fd atv mtv None ∈ news w (rewriteFile 10 "data.bin" 4 w).2) /\
  ~ (exists fd atv mtv,
       EvFutimes fd atv mtv None ∈ news w2 (rewriteFile 10 "data.bin" 4 w2).2).
Proof.
  intros w w2. split.
  - apply (rewriteFile_true_iff_times_set 10 "data.bin" 4 w
             (rewriteFile 10 "data.bin" 4 w).2 true);
      [vm_compute; reflexivity | reflexivity].
  - intros Hex.
    apply (rewriteFile_true_iff_times_set 10 "data.bin" 4 w2
             (rewriteFile 10 "data.bin" 4 w2).2 false) in Hex;
      [discriminate Hex | vm_compute; reflexivity].
Defined.

(** X12.  [rewriteFile] never fails silently: when it returns false, the
    last thing it did, apart from closing the descriptor, was to print a
    warning, which is not one of the lines of the verbose mode. *)
Theorem rewriteFile_failure_is_reported (fuel : nat) (path : string) (bs : Z)
    (w w' : World) :
  rewriteFile fuel path bs w = (Returned false, w') ->
  endsWithWarning (news w w').
Proof.
  intros H. destruct (rewriteFile_spec _ _ _ _ _ _ H) as (_ & T & _).
  set (evs := news w w') in *. clearbody evs. unfold endsWithWarning.
  inversion T as [e|fd ret body HB]; subst.
  { exists [EvOpen path (inl e)]. do 2 eexists. split; [|by left].
    intros Hin. by destruct (not_verbose_format _ Hin) as (? & _). }
  inversion HB as [e| |l HL|l Hlay HL|l atv mtv e Hlay HL|]; subst.
  - exists [EvOpen path (inr fd); EvFstat fd (Some e)]. do 2 eexists.
    split; [|right; by exists fd].
    intros Hin. by destruct (not_verbose_format _ Hin) as (? & _).
  - exists [EvOpen path (inr fd); EvFstat fd None]. do 2 eexists.
    split; [|right; by exists fd].
    intros Hin. by destruct (not_verbose_format _ Hin) as (_ & _ & ? & _).
  - destruct (LoopTrace_fail_warns _ _ _ _ _ _ HL) as (l0 & format & args & Hf & ->).
    exists ([EvOpen path (inr fd); EvFstat fd None] ++ l0), format, args.
    split; [done|]. right. exists fd. simpl. by rewrite <- !(assoc (++)).
  - exists ([EvOpen path (inr fd); EvFstat fd None] ++ l). do 2 eexists.
    split; [|right; exists fd; simpl; by rewrite <- !(assoc (++))].
    intros Hin. by destruct (not_verbose_format _ Hin) as (_ & _ & _ & ?).
  - exists ([EvOpen path (inr fd); EvFstat fd None] ++ l ++ [EvFutimes fd atv mtv (Some e)]).
    do 2 eexists.
    split; [|right; exists fd; simpl; by rewrite <- !(assoc (++))].
    intros Hin. by destruct (not_verbose_format _ Hin) as (? & _).
Qed.

(** X12, on a verbose run whose second write fails. *)
Lemma rewriteFile_failure_is_reported_witness :
  let w := setVerbose true (sampleWorld linux_amd64 (failingAt 5 EIO)) in
  endsWithWarning (news w (rewriteFile 10 "data.bin" 2 w).2).
Proof.
  intros w.
  apply (rewriteFile_failure_is_reported 10 "data.bin" 2 w
           (rewriteFile 10 "data.bin" 2 w).2).
  vm_compute; reflexivity.
Defined.

(** ** Rewriting a file again *)

(** A restored time is restored to itself. *)
Lemma restoredTime_idempotent (ts : Timespec) :
  ordinaryTime ts -> ts_Sec ts < 9000000000 ->
  restoredTime (restoredTime ts) = restoredTime ts.
Proof.
  intros Hord Hlt.
  destruct (restoredTime_precision ts Hord) as (Hd & Hm & Hn & _).
  destruct Hord as [HS HN].
  revert Hd Hm Hn. generalize (restoredTime ts). intros t1 Hd Hm Hn.
  unfold nanos in Hd, Hm.
  assert (Hord1 : ordinaryTime t1) by (unfold ordinaryTime; lia).
  destruct (restoredTime_precision t1 Hord1) as (_ & _ & _ & Hfix).
  apply Hfix.
  replace (ts_Sec t1 * 1000000000 + ts_Nsec t1)
    with (ts_Nsec t1 + (ts_Sec t1 * 1000000) * 1000) in Hm by lia.
  by rewrite Z_mod_plus_full in Hm.
Qed.

(** X13.  Rewriting a file that has just been rewritten changes nothing: the
    second successful call leaves the bytes and both timestamps as the first
    one left them, whatever the buffer sizes and however the kernel split
    the transfers.  (The first call may move a timestamp to the next whole
    microsecond; the second one finds it there.) *)
Theorem rewriteFile_again_changes_nothing (fuel fuel2 : nat) (path : string)
    (bs bs2 : Z) (w w1 w2 : World) (ino : nat) (i : Inode) :
  pathInode w path = Some (ino, i) ->
  ordinaryTime (i_atime i) -> ts_Sec (i_atime i) < 9000000000 ->
  ordinaryTime (i_mtime i) -> ts_Sec (i_mtime i) < 9000000000 ->
  rewriteFile fuel path bs w = (Returned true, w1) ->
  rewriteFile fuel2 path bs2 w1 = (Returned true, w2) ->
  fileData w2 path = fileData w1 path /\ fileTimes w2 path = fileTimes w1 path.
Proof.
  intros Hp Ha Ha' Hm Hm' H1 H2.
  destruct (rewriteFile_spec _ _ _ _ _ _ H1) as (_ & _ & HT1).
  destruct (HT1 eq_refl) as (ino1 & i0 & i1 & Hp0 & Hp1 & _ & _ & Ea1 & Em1).
  rewrite Hp in Hp0. injection Hp0 as <- <-.
  destruct (rewriteFile_spec _ _ _ _ _ _ H2) as (E2 & _ & HT2).
  destruct (HT2 eq_refl) as (ino2 & i1' & i2 & Hq1 & Hq2 & _ & _ & Ea2 & Em2).
  rewrite Hp1 in Hq1. injection Hq1 as <- <-.
  split; [by apply evolves_fileData|].
  unfold fileTimes. rewrite Hp1, Hq2, Ea2, Em2, Ea1, Em1.
  by rewrite !restoredTime_idempotent.
Qed.

(** X13, on a file of five bytes rewritten through a buffer of 2 bytes and
    then through one of 3. *)
Lemma rewriteFile_again_changes_nothing_witness :
  let w := sampleWorld linux_amd64 calm in
  let w1 := (rewriteFile 10 "data.bin" 2 w).2 in
  let w2 := (rewriteFile 10 "data.bin" 3 w1).2 in
  fileData w2 "data.bin" = fileData w1 "data.bin" /\
  fileTimes w2 "data.bin" = fileTimes w1 "data.bin".
Proof.
  intros w w1 w2.
  apply (rewriteFile_again_changes_nothing 10 10 "data.bin" 2 3 w w1 w2 1%nat sampleFile).
  - vm_compute; reflexivity.
  - unfold ordinaryTime; simpl; lia.
  - simpl; lia.
  - unfold ordinaryTime; simpl; lia.
  - simpl; lia.
  - vm_compute; reflexivity.
  - vm_compute; reflexivity.
Defined.

(** ** The verbose mode *)

Lemma filter_snoc {A : Type} (f : A -> bool) (l : list A) (x : A) :
  List.filter f (l ++ [x]) = if f x then List.filter f l ++ [x] else List.filter f l.
Proof.
  rewrite List.filter_app. simpl. destruct (f x); [done | by rewrite app_nil_r].
Qed.

Lemma quiet_emit (ev : Event) (w : World) :
  essential ev = true -> quiet (emit ev w) = emit ev (quiet w).
Proof.
  intros H. unfold quiet, emit.
  cbn [w_platform w_names w_inodes w_fds w_tick w_script w_trace verbose].
  by rewrite filter_snoc, H.
Qed.

Lemma quiet_logVerbose (format : string) (args : list LogArg) (w : World) :
  essential (EvLog format args) = false ->
  quiet (logVerbose format args w) = quiet w.
Proof.
  intros H. unfold logVerbose. destruct (verbose w); [|done].
  unfold quiet, emit.
  cbn [negb w_platform w_names w_inodes w_fds w_tick w_script w_trace verbose].
  by rewrite filter_snoc, H.
Qed.

Lemma logVerbose_quiet (format : string) (args : list LogArg) (w : World) :
  logVerbose format args (quiet w) = quiet w.
Proof. done. Qed.

Lemma Open_quiet (path : string) (w : World) :
  Open path (quiet w) = ((Open path w).1, quiet (Open path w).2).
Proof.
  unfold Open. cbn [fst snd]. rewrite quiet_emit by done. f_equal.
  unfold response, pathInode. simpl. by repeat case_match.
Qed.

Lemma Fstat_quiet (fd : Z) (w : World) :
  Fstat fd (quiet w) = ((Fstat fd w).1, quiet (Fstat fd w).2).
Proof.
  unfold Fstat. cbn [fst snd]. by rewrite quiet_emit.
Qed.

Lemma Pread_quiet (fd len off : Z) (w : World) :
  Pread fd len off (quiet w) = ((Pread fd len off w).1, quiet (Pread fd len off w).2).
Proof.
  unfold Pread, response, fdInode. simpl.
  repeat case_match; simplify_eq; cbn [fst snd]; by rewrite quiet_emit.
Qed.

Lemma Pwrite_quiet (fd : Z) (data : list byte) (off : Z) (w : World) :
  Pwrite fd data off (quiet w)
  = ((Pwrite fd data off w).1, quiet (Pwrite fd data off w).2).
Proof.
  unfold Pwrite, response, fdInode. simpl.
  repeat case_match; simplify_eq; cbn [fst snd]; by rewrite quiet_emit.
Qed.

Lemma Futimes_quiet (fd : Z) (atv mtv : Timeval) (w : World) :
  Futimes fd atv mtv (quiet w)
  = ((Futimes fd atv mtv w).1, quiet (Futimes fd atv mtv w).2).
Proof.
  unfold Futimes, response, fdInode. simpl.
  repeat case_match; simplify_eq; cbn [fst snd]; by rewrite quiet_emit.
Qed.

Lemma Close_quiet (fd : Z) (w : World) : Close fd (quiet w) = quiet (Close fd w).
Proof. unfold Close. by rewrite quiet_emit. Qed.

Lemma quiet_logWarning (format : string) (args : list LogArg) (w : World) :
  essential (EvLog format args) = true ->
  quiet (logWarning format args w) = logWarning format args (quiet w).
Proof. intros H. unfold logWarning. by rewrite quiet_emit. Qed.

Lemma quiet_logWarningWithError (e : Errno) (format : string) (args : list LogArg)
    (w : World) :
  quiet (logWarningWithError e format args w)
  = logWarningWithError e format args (quiet w).
Proof. unfold logWarningWithError. by rewrite quiet_emit. Qed.

Lemma copyStep_quiet (path : string) (fd buf off : Z) (w : World) :
  copyStep path fd buf off (quiet w)
  = ((copyStep path fd buf off w).1, quiet (copyStep path fd buf off w).2).
Proof.
  unfold copyStep. rewrite Pread_quiet.
  destruct (Pread fd buf off w) as [[e|got] w1]; cbn [fst snd].
  { by rewrite quiet_logWarningWithError. }
  destruct (_ =? 0); [done|]. cbv zeta.
  rewrite logVerbose_quiet, <- (quiet_logVerbose "Read %d from %s at offset %d."
     [AInt (Z.of_nat (length got)); AStr path; AInt off] w1) by done.
  rewrite Pwrite_quiet.
  destruct (Pwrite fd got off _) as [[e|wdone] w3]; cbn [fst snd].
  { by rewrite quiet_logWarningWithError. }
  destruct (wdone =? 0); cbn [fst snd]; [by rewrite quiet_logWarning|].
  rewrite logVerbose_quiet, <- (quiet_logVerbose "Wrote %d to %s at offset %d."
     [AInt wdone; AStr path; AInt off] w3) by done.
  destruct (wdone <? _); cbn [fst snd]; [by rewrite quiet_logWarning | done].
Qed.

Lemma copyLoop_quiet (fuel : nat) (path : string) (fd buf off : Z) (w : World) :
  copyLoop fuel path fd buf off (quiet w)
  = ((copyLoop fuel path fd buf off w).1, quiet (copyLoop fuel path fd buf off w).2).
Proof.
  revert off w. induction fuel as [|fuel IH]; intros off w; simpl; [done|].
  rewrite copyStep_quiet.
  destruct (copyStep path fd buf off w) as [[off'| |] w1]; cbn [fst snd];
    [apply IH | done | done].
Qed.

Lemma restoreTimes_quiet (path : string) (fd : Z) (sb : Stat_t) (w : World) :
  restoreTimes path fd sb (quiet w)
  = ((restoreTimes path fd sb w).1, quiet (restoreTimes path fd sb w).2).
Proof.
  unfold restoreTimes. destruct (statTimes sb) as [[atime mtime] ok].
  destruct (negb ok); cbn [fst snd]; [by rewrite quiet_logWarning|].
  rewrite Futimes_quiet.
  destruct (Futimes fd _ _ w) as [[e|] w1]; cbn [fst snd].
  - by rewrite quiet_logWarningWithError.
  - by rewrite logVerbose_quiet, quiet_logVerbose.
Qed.

Lemma rewriteOpen_quiet (fuel : nat) (path : string) (fd buf : Z) (w : World) :
  rewriteOpen fuel path fd buf (quiet w)
  = ((rewriteOpen fuel path fd buf w).1, quiet (rewriteOpen fuel path fd buf w).2).
Proof.
  unfold rewriteOpen. rewrite Fstat_quiet.
  destruct (Fstat fd w) as [[e|sb] w1]; cbn [fst snd].
  { by rewrite quiet_logWarningWithError. }
  destruct (negb _); cbn [fst snd]; [by rewrite quiet_logWarning|].
  rewrite copyLoop_quiet.
  destruct (copyLoop fuel path fd buf 0 w1) as [[[]|] w2]; cbn [fst snd]; try done.
  rewrite restoreTimes_quiet. by destruct (restoreTimes path fd sb w2).
Qed.

Lemma rewriteFile_quiet (fuel : nat) (path : string) (bs : Z) (w : World) :
  rewriteFile fuel path bs (quiet w)
  = ((rewriteFile fuel path bs w).1, quiet (rewriteFile fuel path bs w).2).
Proof.
  unfold rewriteFile. change (w_platform (quiet w)) with (w_platform w).
  destruct (make (w_platform w) bs) as [buf|]; [|done].
  rewrite Open_quiet.
  destruct (Open path w) as [[e|fd] w1]; cbn [fst snd].
  { by rewrite quiet_logWarningWithError. }
  rewrite rewriteOpen_quiet.
  destruct (rewriteOpen fuel path fd buf w1) as [[ret|] w2]; cbn [fst snd]; [|done].
  by rewrite Close_quiet.
Qed.

Lemma rewriteAll_quiet (fuel : nat) (args : list string) (bs ret : Z) (w : World) :
  rewriteAll fuel args bs ret (quiet w)
  = ((rewriteAll fuel args bs ret w).1, quiet (rewriteAll fuel args bs ret w).2).
Proof.
  revert ret w. induction args as [|path args IH]; intros ret w; simpl; [done|].
  rewrite logVerbose_quiet, <- (quiet_logVerbose "Rewriting %s..." [AStr path] w) by done.
  rewrite rewriteFile_quiet.
  destruct (rewriteFile fuel path bs _) as [[ok| |] w1]; cbn [fst snd];
    [apply IH | done | done].
Qed.

(** X14.  The verbose mode only adds lines.  With [-v] on or off, the loop
    over the paths ends the same way, and the worlds it leaves are the same
    once the lines of the verbose mode are struck from the traces: the same
    files, descriptors and clock, the same system calls with the same
    results and the same warnings, in the same order. *)
Theorem verbose_mode_only_adds_lines (fuel : nat) (args : list string) (bs ret : Z)
    (w : World) (v : bool) :
  (rewriteAll fuel args bs ret (setVerbose v w)).1 = (rewriteAll fuel args bs ret w).1 /\
  quiet (rewriteAll fuel args bs ret (setVerbose v w)).2
  = quiet (rewriteAll fuel args bs ret w).2.
Proof.
  pose proof (rewriteAll_quiet fuel args bs ret w) as H.
  pose proof (rewriteAll_quiet fuel args bs ret (setVerbose v w)) as H'.
  change (quiet (setVerbose v w)) with (quiet w) in H'.
  rewrite H in H'.
  pose proof (f_equal fst H') as H1. pose proof (f_equal snd H') as H2.
  cbn [fst snd] in H1, H2.
  split; [exact (eq_sym H1) | exact (eq_sym H2)].
Qed.

(** ** What a whole run leaves behind *)

Lemma rewriteFile_fds (fuel : nat) (path : string) (bs : Z) (w w' : World) (r : bool) :
  rewriteFile fuel path bs w = (Returned r, w') -> w_fds w' = w_fds w.
Proof.
  unfold rewriteFile.
  destruct (make (w_platform w) bs) as [buf|] eqn:EM; [|done].
  destruct (Open path w) as [[e|fd0] w1] eqn:EO;
    destruct (Open_spec _ _ _ _ EO) as (_ & _ & _ & HO).
  { by intros [= <- <-]. }
  destruct HO as (_ & ino & i & _ & Hfd & _ & _ & HF).
  pose proof (Open_fresh _ _ _ _ EO) as Hfresh.
  destruct (rewriteOpen fuel path fd0 buf w1) as [[ret|] w2] eqn:ER; [|done].
  intros [= <- <-].
  destruct (rewriteOpen_spec _ _ _ _ _ _ _ _ _ Hfd ER) as (F2 & _).
  destruct (Close_spec fd0 w2) as (_ & _ & F3).
  rewrite F3, F2, HF. by apply delete_insert_id.
Qed.

Lemma rewriteAll_leaves (fuel : nat) (paths : list string) (bs ret : Z) (w : World) :
  (rewriteAll fuel paths bs ret w).1 <> Unfinished ->
  evolves w (rewriteAll fuel paths bs ret w).2 /\
  w_fds (rewriteAll fuel paths bs ret w).2 = w_fds w.
Proof.
  revert ret w. induction paths as [|path paths IH]; intros ret w; simpl.
  { intros _. split; [apply evolves_refl | done]. }
  set (w0 := logVerbose "Rewriting %s..." [AStr path] w).
  destruct (logVerbose_yields "Rewriting %s..." [AStr path] w) as [E0 _].
  fold w0 in E0.
  assert (F0 : w_fds w0 = w_fds w) by apply logVerbose_fds.
  destruct (rewriteFile fuel path bs w0) as [[r | msg |] w1] eqn:ER; simpl; [| |done].
  - intros H. destruct (IH _ _ H) as [E2 F2].
    destruct (rewriteFile_spec _ _ _ _ _ _ ER) as (E1 & _).
    split; [by repeat (eapply evolves_trans; [eassumption|])|].
    rewrite F2, (rewriteFile_fds _ _ _ _ _ _ ER). exact F0.
  - intros _. apply rewriteFile_panics in ER as (_ & -> & _). by split.
Qed.

(** X15.  Whatever the command line says and whatever the kernel does, the
    program leaves the file system as it found it, apart from timestamps: no
    name is added, removed or moved to another file, every file keeps its
    mode and its bytes, and no descriptor stays open.  This holds when the
    process exits and when it ends in a panic. *)
Theorem main_leaves_files_intact (ParseInt : string -> option Z) (fuel : nat)
    (osArgs : list string) (w : World) :
  (main ParseInt fuel osArgs w).1 <> Unfinished ->
  w_names (main ParseInt fuel osArgs w).2 = w_names w /\
  (forall ino, content <$> (w_inodes (main ParseInt fuel osArgs w).2 !! ino)
               = content <$> (w_inodes w !! ino)) /\
  w_fds (main ParseInt fuel osArgs w).2 = w_fds w.
Proof.
  unfold main.
  destruct (Parse ParseInt (w_platform w) _) as [flags|]; [|done].
  destruct (f_help flags); [done|].
  destruct (length (f_args flags) =? 0)%nat; [done|].
  destruct (f_bufferSizeMB flags <=? 0); [done|].
  intros H. destruct (rewriteAll_leaves _ _ _ _ _ H) as [E F].
  split; [exact (ev_names _ _ E)|]. split; [exact (ev_content _ _ E) | exact F].
Qed.

(** X15, on a verbose run over a file, a directory and a missing path, with
    a kernel that fails the fifth call. *)
Lemma main_leaves_files_intact_witness :
  let w := sampleWorld linux_amd64 (failingAt 4 EIO) in
  let w' := (main parseDecimal 10 ["-v"; "data.bin"; "dir"; "nope"]%string w).2 in
  w_names w' = w_names w /\
  (forall ino, content <$> (w_inodes w' !! ino) = content <$> (w_inodes w !! ino)) /\
  w_fds w' = w_fds w.
Proof.
  intros w w'.
  apply (main_leaves_files_intact parseDecimal 10
           ["-v"; "data.bin"; "dir"; "nope"]%string w).
  vm_compute. discriminate.
Defined.
